(** * ImageProcessor: viewport geometry, crop arithmetic and edit history

    A shallow embedding of the parts of the PyQt image editor that carry its
    numeric and state invariants:

    - [ImageTools.scale] and [ImageTools.crop]            (src/image_tools.py)
    - [CropLabel]: screen/image coordinate conversion, aspect-locked
      selection conversion and pivot zoom                 (src/ui/main_window.py)
    - [MainWindow]: undo/redo stacks, edit dispatch to worker threads and
      the preview refresh                                 (src/ui/main_window.py)
    - the placement of the watermark text                 (src/image_tools.py)
    - [NumberInput], the mouse handlers of [CropLabel] (press, right-button
      drag, left-button release) and the slots behind the selection and
      the watermark position                              (src/ui/main_window.py)

    Conventions.  Python [int] is [Z]; Python exceptions are values of the
    error monad [Py].  A Python [float] is a binary64 value
    ([PrimFloat.float]), and a number that is an [int] at one time and a
    [float] at another (the pan offsets) is a [Num].  [PIL.resize] takes the
    sizes the library takes: sides that fit a C int and an image the
    machine can allocate, the latter a parameter [fits_memory].

    The view of [CropLabel] is given twice.  [CropLabel64] is the code as
    the interpreter runs it: zoom factor, aspect ratio and float offsets in
    binary64, [int()] and [round()] raising on an infinity or a NaN.  What
    is said of single conversions, of the drag and of the watermark click
    is proved of it.  [CropLabel] reads the same lines with exact rationals
    [Q] in place of floats; it carries the statements that quantify over
    all views and rest on order and bounds (the zoom range, the clamping
    and the monotonicity of the conversions, the bounds of a selection);
    the failing inputs it gives are computed again in binary64.  The two readings differ by a
    pixel on some views ([slider_29_readings]). *)

From Stdlib Require Import ZArith QArith Qround Qabs Qminmax List Bool Ascii String Lia Lqa.
From Stdlib Require Import Floats Uint63.
From Stdlib Require DecimalString.
Import ListNotations.

Set Warnings "-inexact-float".

Local Open Scope Z_scope.

(* ===================================================================== *)
(** * Python values and exceptions *)
(* ===================================================================== *)

Module Python.

Inductive PyExc : Type :=
| OverflowError       (* int() or round() of an infinity; an int beyond a C int *)
| ValueError          (* int() or round() of a NaN *)
| ZeroDivisionError
| MemoryError.        (* the library cannot allocate an image *)

Inductive Py (A : Type) : Type :=
| Return (a : A)
| Raise (e : PyExc).
Arguments Return {A} a.
Arguments Raise {A} e.

Definition bind {A B : Type} (c : Py A) (k : A -> Py B) : Py B :=
  match c with
  | Return a => k a
  | Raise e => Raise e
  end.

Definition raises {A : Type} (c : Py A) : bool :=
  match c with Return _ => false | Raise _ => true end.

(** ** Integers *)

(** [a // b] on integers with a positive divisor is the floor quotient. *)
Definition floordiv (a b : Z) : Z := a / b.

(** ** Exact rationals standing for the float-valued view quantities *)

Definition Qltb (x y : Q) : bool := (Qnum x * QDen y <? Qnum y * QDen x)%Z.
Definition Qgtb (x y : Q) : bool := Qltb y x.
Definition Qleb (x y : Q) : bool := Qle_bool x y.

(** [int(x)]: truncation toward zero. *)
Definition int_of_Q (x : Q) : Z := Z.quot (Qnum x) (QDen x).

(** [round(x)]: nearest integer, ties to the even neighbour. *)
Definition round (x : Q) : Z :=
  let f := Qfloor x in
  match (x - inject_Z f ?= 1 # 2)%Q with
  | Lt => f
  | Gt => f + 1
  | Eq => if Z.even f then f else f + 1
  end.

(** [x / y] on floats: raises on a zero divisor. *)
Definition truediv (x y : Q) : Py Q :=
  if Qeq_bool y 0 then Raise ZeroDivisionError else Return (x / y)%Q.

(** ** binary64 *)

(** An [int] operand of a float operation is converted first; exact for
    magnitudes below 2^53, which covers every image dimension. *)
Definition float_of_int (z : Z) : float :=
  if z <? 0 then PrimFloat.opp (PrimFloat.of_uint63 (Uint63.of_Z (- z)))
  else PrimFloat.of_uint63 (Uint63.of_Z z).

Definition is_finite (x : float) : bool :=
  match Prim2SF x with
  | S754_zero _ | S754_finite _ _ _ => true
  | S754_infinity _ | S754_nan => false
  end.

(** [int(x)] on a float: truncation toward zero; [OverflowError] on an
    infinity and [ValueError] on a NaN. *)
Definition int_of_float (x : float) : Py Z :=
  match Prim2SF x with
  | S754_zero _ => Return 0
  | S754_finite s m e =>
      let v := if 0 <=? e then Z.pos m * 2 ^ e else Z.pos m / 2 ^ (- e) in
      Return (if s then - v else v)
  | S754_infinity _ => Raise OverflowError
  | S754_nan => Raise ValueError
  end.

(** The exact value of a finite float with mantissa [m] and exponent [e]. *)
Definition exact (s : bool) (m : positive) (e : Z) : Q :=
  let v :=
    if 0 <=? e then inject_Z (Z.pos m * 2 ^ e)
    else Z.pos m # Pos.pow 2 (Z.to_pos (- e)) in
  if s then Qopp v else v.

(** [round(x)] on a float: the nearest integer, ties to the even
    neighbour; [OverflowError] on an infinity and [ValueError] on a NaN. *)
Definition round_of_float (x : float) : Py Z :=
  match Prim2SF x with
  | S754_zero _ => Return 0
  | S754_finite s m e => Return (round (exact s m e))
  | S754_infinity _ => Raise OverflowError
  | S754_nan => Raise ValueError
  end.

(** [min(a, b)] and [max(a, b)] on floats: the first argument unless the
    second is smaller, or larger. *)
Definition float_min (a b : float) : float := if PrimFloat.ltb b a then b else a.
Definition float_max (a b : float) : float := if PrimFloat.ltb a b then b else a.

(** ** Numbers: an [int] or a [float]

    The pan offsets of the preview are the [int] 0 until the first zoom
    step and floats after it.  An [int] meets a [float] as a float; the
    conversion and the quotient of two ints are exact or correctly rounded
    for magnitudes below 2^53, which covers the C ints of Qt. *)
Inductive Num : Type :=
| Int (n : Z)
| Float (f : float).

Definition to_float (a : Num) : float :=
  match a with
  | Int n => float_of_int n
  | Float f => f
  end.

Definition num_add (a b : Num) : Num :=
  match a, b with
  | Int m, Int n => Int (m + n)
  | _, _ => Float (PrimFloat.add (to_float a) (to_float b))
  end.

Definition num_sub (a b : Num) : Num :=
  match a, b with
  | Int m, Int n => Int (m - n)
  | _, _ => Float (PrimFloat.sub (to_float a) (to_float b))
  end.

Definition num_mul (a b : Num) : Num :=
  match a, b with
  | Int m, Int n => Int (m * n)
  | _, _ => Float (PrimFloat.mul (to_float a) (to_float b))
  end.

Definition num_is_zero (a : Num) : bool :=
  match a with
  | Int n => n =? 0
  | Float f => PrimFloat.eqb f 0
  end.

(** [a / b]: always a float. *)
Definition num_div (a b : Num) : Py Num :=
  if num_is_zero b then Raise ZeroDivisionError
  else Return (Float (PrimFloat.div (to_float a) (to_float b))).

Definition num_lt (a b : Num) : bool :=
  match a, b with
  | Int m, Int n => m <? n
  | _, _ => PrimFloat.ltb (to_float a) (to_float b)
  end.

Definition num_round (a : Num) : Py Z :=
  match a with
  | Int n => Return n
  | Float f => round_of_float f
  end.

Definition num_abs (a : Num) : Num :=
  match a with
  | Int n => Int (Z.abs n)
  | Float f => Float (PrimFloat.abs f)
  end.

(** An [int] handed to a Qt function has to fit a C int. *)
Definition fits_int (n : Z) : bool := (- 2147483648 <=? n) && (n <=? 2147483647).

End Python.

Export Python.

Declare Scope py_scope.
Delimit Scope py_scope with py.
Notation "x <- c ;; k" := (bind c (fun x => k))
  (at level 61, c at next level, right associativity) : py_scope.
Notation "a // b" := (floordiv a b) (at level 40, left associativity) : Z_scope.

(* ===================================================================== *)
(** * Images and the PIL calls the editor makes *)
(* ===================================================================== *)

Module PIL.

(** [img.mode], as far as the editor tells modes apart. *)
Inductive Mode : Type := RGB | RGBA | L | OtherMode.

(** The pixel buffer is opaque: its content is recorded as the chain of
    library calls that produced it. *)
Inductive Pixels : Type :=
| Decoded (file : Z)                        (* Image.open(path) *)
| Converted (p : Pixels) (to : Mode)        (* img.convert(mode) *)
| Resized (p : Pixels) (w h : Z)            (* img.resize((w, h), LANCZOS) *)
| Boxed (p : Pixels) (l t r b : Z)          (* img.crop((l, t, r, b)) *)
| Rotated (p : Pixels) (angle : Z)          (* img.rotate(angle, expand=True) *)
| GaussianBlurred (p : Pixels) (radius : Q) (* img.filter(GaussianBlur(radius)) *)
| Colorized (p : Pixels)                    (* ImageOps.colorize(gray, black, sepia) *)
| Blended (p q : Pixels) (alpha : Q)        (* Image.blend(img, other, alpha) *)
| TextLayer (text : Z)                      (* Image.new("RGBA", size), text drawn *)
| Composited (p layer : Pixels).            (* Image.alpha_composite(img, layer) *)

Record Image : Type := mkImage {
  mode : Mode;
  width : Z;
  height : Z;
  pixels : Pixels
}.

Definition convert (img : Image) (to : Mode) : Image :=
  {| mode := to; width := width img; height := height img;
     pixels := Converted (pixels img) to |}.

(** [img.copy()]: an equal image that shares nothing with [img]. *)
Definition copy (img : Image) : Image := img.

(** The largest C [int]: the sizes handed to the library's C functions
    must fit one. *)
Definition INT_MAX : Z := 2147483647.

Section Resize.

(** Whether the library can allocate a [w x h] image; it depends on the
    memory of the machine, and nothing is assumed of it. *)
Variable fits_memory : Z -> Z -> bool.

(** [img.resize((w, h))].  A resize to the image's own size returns
    [self.copy()].  Otherwise the C function takes the size as two C
    ints ([OverflowError] beyond), refuses a dimension below 1 with
    [ValueError], and returns an image of exactly that size if it can
    allocate it ([MemoryError] if not). *)
Definition resize (img : Image) (w h : Z) : Py Image :=
  if (w =? width img) && (h =? height img) then Return (copy img)
  else if (w <? - INT_MAX - 1) || (INT_MAX <? w)
          || (h <? - INT_MAX - 1) || (INT_MAX <? h) then Raise OverflowError
  else if (w <? 1) || (h <? 1) then Raise ValueError
  else if fits_memory w h then
    Return {| mode := mode img; width := w; height := h;
              pixels := Resized (pixels img) w h |}
  else Raise MemoryError.

End Resize.

(** [img.crop((l, t, r, b))]: the box's size; PIL refuses [r < l] or
    [b < t] with [ValueError]. *)
Definition crop (img : Image) (l t r b : Z) : Py Image :=
  if (r <? l) || (b <? t) then Raise ValueError
  else Return {| mode := mode img; width := r - l; height := b - t;
                 pixels := Boxed (pixels img) l t r b |}.

Section Rotate.

(** The size PIL gives [img.rotate(angle, expand=True)] of a [w x h]
    image. *)
Variable rotated_size : Z -> Z -> Z -> Z * Z.

Definition rotate (img : Image) (angle : Z) : Image :=
  let '(w, h) := rotated_size (width img) (height img) angle in
  {| mode := mode img; width := w; height := h;
     pixels := Rotated (pixels img) angle |}.

End Rotate.

Definition filter_GaussianBlur (img : Image) (radius : Q) : Image :=
  {| mode := mode img; width := width img; height := height img;
     pixels := GaussianBlurred (pixels img) radius |}.

Definition colorize (gray : Image) : Image :=
  {| mode := RGB; width := width gray; height := height gray;
     pixels := Colorized (pixels gray) |}.

Definition blend (img other : Image) (alpha : Q) : Image :=
  {| mode := mode img; width := width img; height := height img;
     pixels := Blended (pixels img) (pixels other) alpha |}.

(** [Image.new("RGBA", size)] with the watermark text drawn on it. *)
Definition text_layer (w h : Z) (text : Z) : Image :=
  {| mode := RGBA; width := w; height := h; pixels := TextLayer text |}.

Definition alpha_composite (img layer : Image) : Image :=
  {| mode := RGBA; width := width img; height := height img;
     pixels := Composited (pixels img) (pixels layer) |}.

End PIL.

Export PIL.

(* ===================================================================== *)
(** * image_tools.py *)
(* ===================================================================== *)

Module ImageTools.

Local Open Scope py_scope.

Definition ensure_rgb (img : Image) : Image :=
  match mode img with
  | RGB => img
  | _ => convert img RGB
  end.

Definition scale (fits_memory : Z -> Z -> bool)
    (img : Image) (factor : float) : Py Image :=
  let img := ensure_rgb img in
  a <- int_of_float (PrimFloat.mul (float_of_int (width img)) factor) ;;
  let new_w := Z.max 1 a in
  b <- int_of_float (PrimFloat.mul (float_of_int (height img)) factor) ;;
  let new_h := Z.max 1 b in
  PIL.resize fits_memory img new_w new_h.

Definition rotate (rotated_size : Z -> Z -> Z -> Z * Z)
    (img : Image) (angle : Z) : Image :=
  let img := ensure_rgb img in
  PIL.rotate rotated_size img angle.

Definition crop (img : Image) (left top width height : Z) : Py Image :=
  let img := ensure_rgb img in
  let right := left + width in
  let bottom := top + height in
  let left := Z.max 0 (Z.min left (PIL.width img - 1)) in
  let top := Z.max 0 (Z.min top (PIL.height img - 1)) in
  let right := Z.max (left + 1) (Z.min right (PIL.width img)) in
  let bottom := Z.max (top + 1) (Z.min bottom (PIL.height img)) in
  PIL.crop img left top right bottom.

(** [text] stands for the text, position, font, size and opacity; the
    font lookup and the drawing are the library's. *)
Definition add_text_watermark (img : Image) (text : Z) : Image :=
  let img := copy (ensure_rgb img) in
  let layer := text_layer (PIL.width img) (PIL.height img) text in
  convert (alpha_composite (convert img RGBA) layer) RGB.

Definition grayscale (img : Image) : Image :=
  let img := ensure_rgb img in
  convert (convert img L) RGB.

Definition blur (img : Image) (radius : Q) : Image :=
  let img := ensure_rgb img in
  filter_GaussianBlur img radius.

Definition vintage (img : Image) : Image :=
  let img := ensure_rgb img in
  let gray := convert img L in
  let colorized := colorize gray in
  blend img colorized (1 # 2).

End ImageTools.

(* ===================================================================== *)
(** * The Qt value types the preview label computes with *)
(* ===================================================================== *)

Module Qt.

Record QPoint : Type := mkQPoint { x : Z; y : Z }.

(** A [QRect] stores its corners inclusively: [QRect(left, top, w, h)]
    has [x2 = left + w - 1], and [QRect(p, q)] has corners [p] and [q]. *)
Record QRect : Type := mkQRect { x1 : Z; y1 : Z; x2 : Z; y2 : Z }.

Definition QRect_xywh (left top w h : Z) : QRect :=
  {| x1 := left; y1 := top; x2 := left + w - 1; y2 := top + h - 1 |}.

Definition QRect_points (p q : QPoint) : QRect :=
  {| x1 := x p; y1 := y p; x2 := x q; y2 := y q |}.

Definition left (r : QRect) : Z := x1 r.
Definition top (r : QRect) : Z := y1 r.
Definition rect_width (r : QRect) : Z := x2 r - x1 r + 1.
Definition rect_height (r : QRect) : Z := y2 r - y1 r + 1.

(** [QRect::center()]: C++ integer division, which truncates toward zero. *)
Definition center (r : QRect) : QPoint :=
  {| x := Z.quot (x1 r + x2 r) 2; y := Z.quot (y1 r + y2 r) 2 |}.

(** A pixmap is known to the geometry by its size only; the null pixmap
    [QPixmap()] has size 0 x 0. *)
Record QPixmap : Type := mkQPixmap { pm_width : Z; pm_height : Z }.

Definition null_pixmap : QPixmap := {| pm_width := 0; pm_height := 0 |}.

Definition isNull (pm : QPixmap) : bool :=
  (pm_width pm <=? 0) || (pm_height pm <=? 0).

(** [QSize::scaled(s, Qt::KeepAspectRatio)]: the largest size of the same
    aspect ratio as [wd x ht] inside [sw x sh], by integer division. *)
Definition QSize_scaled_KeepAspectRatio (wd ht sw sh : Z) : Z * Z :=
  if (wd =? 0) || (ht =? 0) then (sw, sh)
  else
    let rw := Z.quot (sh * wd) ht in
    if rw <=? sw then (rw, sh) else (sw, Z.quot (sw * ht) wd).

(** [pm.scaled(w, h, KeepAspectRatio, SmoothTransformation)]: a null
    pixmap when [pm] is null or the requested size is empty; otherwise the
    aspect-preserving size, each side at least 1. *)
Definition scaled (pm : QPixmap) (w h : Z) : QPixmap :=
  if isNull pm then null_pixmap
  else if (w <=? 0) || (h <=? 0) then null_pixmap
  else
    let '(nw, nh) :=
      QSize_scaled_KeepAspectRatio (pm_width pm) (pm_height pm) w h in
    {| pm_width := Z.max nw 1; pm_height := Z.max nh 1 |}.

End Qt.

Export Qt.

(* ===================================================================== *)
(** * CropLabel, read with exact arithmetic (src/ui/main_window.py)

    Zoom factor, pan offsets and aspect ratio are exact rationals here;
    [CropLabel64] below has them in binary64. *)
(* ===================================================================== *)

Module CropLabel.

Local Open Scope py_scope.

(** The fields of a [CropLabel] that the conversions, the zoom and the
    preview refresh read or write; [label_width] and [label_height] are
    the size of [self.contentsRect()]. *)
Record t : Type := mk {
  _selecting : bool;
  _start_pos : option QPoint;
  _end_pos : option QPoint;
  _zoom_factor : Q;
  _offset_x : Q;
  _offset_y : Q;
  _original_pixmap : option QPixmap;
  _aspect_ratio : option Q;
  _preview_rotate_angle : Q;
  _watermark_mode : bool;
  label_width : Z;
  label_height : Z
}.

(** [CropLabel.__init__] for a label of the given size. *)
Definition init (lw lh : Z) : t :=
  {| _selecting := false; _start_pos := None; _end_pos := None;
     _zoom_factor := 1; _offset_x := 0; _offset_y := 0;
     _original_pixmap := None; _aspect_ratio := None;
     _preview_rotate_angle := 0; _watermark_mode := false;
     label_width := lw; label_height := lh |}.

Definition with_view (self : t) (zoom ox oy : Q) : t :=
  {| _selecting := _selecting self; _start_pos := _start_pos self;
     _end_pos := _end_pos self;
     _zoom_factor := zoom; _offset_x := ox; _offset_y := oy;
     _original_pixmap := _original_pixmap self;
     _aspect_ratio := _aspect_ratio self;
     _preview_rotate_angle := _preview_rotate_angle self;
     _watermark_mode := _watermark_mode self;
     label_width := label_width self; label_height := label_height self |}.

(** The pixmap that [paintEvent] and the conversions build from the
    original one: [int(width * zoom)] by [int(height * zoom)], scaled with
    [KeepAspectRatio]. *)
Definition scaled_pixmap (pm : QPixmap) (zoom : Q) : QPixmap :=
  let scaled_width := int_of_Q (inject_Z (pm_width pm) * zoom) in
  let scaled_height := int_of_Q (inject_Z (pm_height pm) * zoom) in
  scaled pm scaled_width scaled_height.

Definition clamp (lo v hi : Z) : Z := Z.max lo (Z.min v hi).

Definition screen_to_image_coords (self : t) (screen_pos : QPoint)
  : option QPoint :=
  match _original_pixmap self with
  | None => None
  | Some pm =>
      let scaled_pixmap := scaled_pixmap pm (_zoom_factor self) in
      let img_x :=
        (inject_Z ((label_width self - pm_width scaled_pixmap) // 2)
         + _offset_x self)%Q in
      let img_y :=
        (inject_Z ((label_height self - pm_height scaled_pixmap) // 2)
         + _offset_y self)%Q in
      let rel_x := (inject_Z (x screen_pos) - img_x)%Q in
      let rel_y := (inject_Z (y screen_pos) - img_y)%Q in
      if (0 <? pm_width scaled_pixmap) && (0 <? pm_height scaled_pixmap)
      then
        let orig_x :=
          (rel_x / inject_Z (pm_width scaled_pixmap)
           * inject_Z (pm_width pm))%Q in
        let orig_y :=
          (rel_y / inject_Z (pm_height scaled_pixmap)
           * inject_Z (pm_height pm))%Q in
        let orig_x := round orig_x in
        let orig_y := round orig_y in
        let orig_x := clamp 0 orig_x (pm_width pm - 1) in
        let orig_y := clamp 0 orig_y (pm_height pm - 1) in
        Some {| x := orig_x; y := orig_y |}
      else None
  end.

(** The zoom step shared by [zoom_at_point] and the wheel handler. *)
Definition stepped_zoom (old_zoom : Q) (zoom_in : bool) : Q :=
  let zoom_step := (1 # 10)%Q in
  let new_zoom :=
    if zoom_in then (old_zoom * (1 + zoom_step))%Q
    else (old_zoom * (1 - zoom_step))%Q in
  Qmax (1 # 10) (Qmin 10 new_zoom).

(** The offset update common to [zoom_at_point] and [set_zoom_factor]:
    keep the image point under the screen position [(px, py)] fixed while
    the zoom goes from [old_zoom] to [new_zoom]. *)
Definition rezoom (self : t) (pm : QPixmap) (px py : Q) (new_zoom : Q) : t :=
  let old_zoom := _zoom_factor self in
  let scaled_width := int_of_Q (inject_Z (pm_width pm) * old_zoom) in
  let scaled_height := int_of_Q (inject_Z (pm_height pm) * old_zoom) in
  let img_x :=
    (inject_Z ((label_width self - scaled_width) // 2) + _offset_x self)%Q in
  let img_y :=
    (inject_Z ((label_height self - scaled_height) // 2) + _offset_y self)%Q in
  let rel_x := (px - img_x)%Q in
  let rel_y := (py - img_y)%Q in
  let '(img_ratio_x, img_ratio_y) :=
    if (0 <? scaled_width) && (0 <? scaled_height)
    then ((rel_x / inject_Z scaled_width)%Q, (rel_y / inject_Z scaled_height)%Q)
    else ((1 # 2)%Q, (1 # 2)%Q) in
  let new_scaled_width := int_of_Q (inject_Z (pm_width pm) * new_zoom) in
  let new_scaled_height := int_of_Q (inject_Z (pm_height pm) * new_zoom) in
  let new_img_x := (px - img_ratio_x * inject_Z new_scaled_width)%Q in
  let new_img_y := (py - img_ratio_y * inject_Z new_scaled_height)%Q in
  with_view self new_zoom
    (new_img_x - inject_Z ((label_width self - new_scaled_width) // 2))%Q
    (new_img_y - inject_Z ((label_height self - new_scaled_height) // 2))%Q.

Definition zoom_at_point (self : t) (point : QPoint) (zoom_in : bool) : t :=
  match _original_pixmap self with
  | None => self
  | Some pm =>
      let old_zoom := _zoom_factor self in
      let new_zoom := stepped_zoom old_zoom zoom_in in
      if Qltb (Qabs (new_zoom - old_zoom)) (1 # 1000) then self
      else rezoom self pm (inject_Z (x point)) (inject_Z (y point)) new_zoom
  end.

Definition set_original_pixmap (self : t) (pixmap : QPixmap) : t :=
  {| _selecting := _selecting self; _start_pos := _start_pos self;
     _end_pos := _end_pos self;
     _zoom_factor := 1; _offset_x := 0; _offset_y := 0;
     _original_pixmap := Some pixmap;
     _aspect_ratio := _aspect_ratio self;
     _preview_rotate_angle := 0;
     _watermark_mode := _watermark_mode self;
     label_width := label_width self; label_height := label_height self |}.

Definition set_preview_rotate_angle (self : t) (angle : Q) : t :=
  {| _selecting := _selecting self; _start_pos := _start_pos self;
     _end_pos := _end_pos self;
     _zoom_factor := _zoom_factor self; _offset_x := _offset_x self;
     _offset_y := _offset_y self;
     _original_pixmap := _original_pixmap self;
     _aspect_ratio := _aspect_ratio self;
     _preview_rotate_angle := angle;
     _watermark_mode := _watermark_mode self;
     label_width := label_width self; label_height := label_height self |}.

Definition set_zoom_factor (self : t) (zoom_factor : Q) : t :=
  match _original_pixmap self with
  | None => self
  | Some pm =>
      let zoom_factor := Qmax (1 # 10) (Qmin 10 zoom_factor) in
      if Qltb (Qabs (zoom_factor - _zoom_factor self)) (1 # 1000) then self
      else
        let center_x := (inject_Z (label_width self) / 2)%Q in
        let center_y := (inject_Z (label_height self) / 2)%Q in
        rezoom self pm center_x center_y zoom_factor
  end.

Definition clear_selection (self : t) : t :=
  {| _selecting := false; _start_pos := None; _end_pos := None;
     _zoom_factor := _zoom_factor self; _offset_x := _offset_x self;
     _offset_y := _offset_y self;
     _original_pixmap := _original_pixmap self;
     _aspect_ratio := _aspect_ratio self;
     _preview_rotate_angle := _preview_rotate_angle self;
     _watermark_mode := _watermark_mode self;
     label_width := label_width self; label_height := label_height self |}.

Definition set_aspect_field (self : t) (ratio : option Q) : t :=
  {| _selecting := _selecting self; _start_pos := _start_pos self;
     _end_pos := _end_pos self;
     _zoom_factor := _zoom_factor self; _offset_x := _offset_x self;
     _offset_y := _offset_y self;
     _original_pixmap := _original_pixmap self;
     _aspect_ratio := ratio;
     _preview_rotate_angle := _preview_rotate_angle self;
     _watermark_mode := _watermark_mode self;
     label_width := label_width self; label_height := label_height self |}.

Definition reset_view (self : t) : t := with_view self 1 0 0.

(** ** [screen_rect_to_image_rect], read in the order it is written *)

(** Lines 744-754: with a locked ratio, shrink the larger side so that
    the size has that ratio. *)
Definition lock_ratio (aspect : option Q) (img_w img_h : Q) : Py (Q * Q) :=
  match aspect with
  | None => Return (img_w, img_h)
  | Some a =>
      current_ratio <-
        (if Qgtb img_h 0 then truediv img_w img_h else Return 0%Q) ;;
      if Qgtb (Qabs (current_ratio - a)) (1 # 1000) then
        r <- truediv img_w img_h ;;
        if Qgtb r a then Return ((img_h * a)%Q, img_h)
        else (h <- truediv img_w a ;; Return (img_w, h))
      else Return (img_w, img_h)
  end.

(** Lines 773-781: move the rectangle back inside, keeping its size. *)
Definition shift_inside (pos size limit : Z) : Z :=
  if pos <? 0 then 0
  else if limit <? pos + size then limit - size
  else pos.

(** Lines 785-802: shrink what still sticks out, re-deriving the other
    side from a locked ratio. *)
Definition shrink_inside (aspect : option Q)
    (img_width img_height img_left img_top img_w img_h : Z)
  : Py (Z * Z * Z * Z) :=
  let img_left := if img_left <? 0 then 0 else img_left in
  wh <-
    (if img_width <? img_left + img_w then
       let img_w := img_width - img_left in
       match aspect with
       | Some a => q <- truediv (inject_Z img_w) a ;; Return (img_w, round q)
       | None => Return (img_w, img_h)
       end
     else Return (img_w, img_h)) ;;
  let '(img_w, img_h) := wh in
  let img_top := if img_top <? 0 then 0 else img_top in
  wh <-
    (if img_height <? img_top + img_h then
       let img_h := img_height - img_top in
       match aspect with
       | Some a =>
           let img_w := round (inject_Z img_h * a) in
           if img_width <? img_left + img_w then
             let img_w := img_width - img_left in
             q <- truediv (inject_Z img_w) a ;; Return (img_w, round q)
           else Return (img_w, img_h)
       | None => Return (img_w, img_h)
       end
     else Return (img_w, img_h)) ;;
  let '(img_w, img_h) := wh in
  Return (img_left, img_top, img_w, img_h).

(** Lines 805-808: the final bounds check. *)
Definition final_bounds (img_width img_height : Z) (r : Z * Z * Z * Z)
  : Z * Z * Z * Z :=
  let '(img_left, img_top, img_w, img_h) := r in
  let img_left := Z.max 0 (Z.min img_left (img_width - 1)) in
  let img_top := Z.max 0 (Z.min img_top (img_height - 1)) in
  let img_w := Z.max 1 (Z.min img_w (img_width - img_left)) in
  let img_h := Z.max 1 (Z.min img_h (img_height - img_top)) in
  (img_left, img_top, img_w, img_h).

(** Lines 811-824: the final ratio check. *)
Definition final_ratio (aspect : option Q) (img_width img_height : Z)
    (r : Z * Z * Z * Z) : Py (Z * Z * Z * Z) :=
  let '(img_left, img_top, img_w, img_h) := r in
  match aspect with
  | None => Return r
  | Some a =>
      if 0 <? img_h then
        let current_ratio := (inject_Z img_w / inject_Z img_h)%Q in
        if Qgtb (Qabs (current_ratio - a)) (1 # 100) then
          if Qgtb current_ratio a then
            let img_w := round (inject_Z img_h * a) in
            if img_width <? img_left + img_w then
              let img_w := img_width - img_left in
              q <- truediv (inject_Z img_w) a ;;
              Return (img_left, img_top, img_w, round q)
            else Return (img_left, img_top, img_w, img_h)
          else
            q <- truediv (inject_Z img_w) a ;;
            let img_h := round q in
            if img_height <? img_top + img_h then
              let img_h := img_height - img_top in
              Return (img_left, img_top, round (inject_Z img_h * a), img_h)
            else Return (img_left, img_top, img_w, img_h)
        else Return r
      else Return r
  end.

Definition screen_rect_to_image_rect (self : t) (screen_rect : QRect)
  : Py (option QRect) :=
  match _original_pixmap self with
  | None => Return None
  | Some pm =>
      let scaled_pixmap := scaled_pixmap pm (_zoom_factor self) in
      let pw := pm_width scaled_pixmap in
      let ph := pm_height scaled_pixmap in
      let img_x :=
        (inject_Z ((label_width self - pw) // 2) + _offset_x self)%Q in
      let img_y :=
        (inject_Z ((label_height self - ph) // 2) + _offset_y self)%Q in
      let screen_center_x := (inject_Z (x (center screen_rect)) - img_x)%Q in
      let screen_center_y := (inject_Z (y (center screen_rect)) - img_y)%Q in
      let screen_width := rect_width screen_rect in
      let screen_height := rect_height screen_rect in
      if Qltb screen_center_x 0 || Qgtb screen_center_x (inject_Z pw)
         || Qltb screen_center_y 0 || Qgtb screen_center_y (inject_Z ph)
      then Return None
      else if (0 <? pw) && (0 <? ph) then
        let img_w :=
          (inject_Z screen_width / inject_Z pw * inject_Z (pm_width pm))%Q in
        let img_h :=
          (inject_Z screen_height / inject_Z ph * inject_Z (pm_height pm))%Q in
        let img_center_x :=
          (screen_center_x / inject_Z pw * inject_Z (pm_width pm))%Q in
        let img_center_y :=
          (screen_center_y / inject_Z ph * inject_Z (pm_height pm))%Q in
        wh <- lock_ratio (_aspect_ratio self) img_w img_h ;;
        let img_w := round (fst wh) in
        let img_h := round (snd wh) in
        if (img_w <=? 0) || (img_h <=? 0) then Return None
        else
          let img_left := round (img_center_x - inject_Z img_w / 2) in
          let img_top := round (img_center_y - inject_Z img_h / 2) in
          let img_width := pm_width pm in
          let img_height := pm_height pm in
          let img_left := shift_inside img_left img_w img_width in
          let img_top := shift_inside img_top img_h img_height in
          r <- shrink_inside (_aspect_ratio self) img_width img_height
                 img_left img_top img_w img_h ;;
          r <- final_ratio (_aspect_ratio self) img_width img_height
                 (final_bounds img_width img_height r) ;;
          let '(img_left, img_top, img_w, img_h) := r in
          Return (Some (QRect_xywh img_left img_top img_w img_h))
      else Return None
  end.

End CropLabel.

(* ===================================================================== *)
(** * MainWindow (src/ui/main_window.py) *)
(* ===================================================================== *)

Module MainWindow.

Local Open Scope py_scope.

(** The callable and arguments a [WorkerThread] is built with; the image is
    the [self.current_image] of the moment the thread is created. *)
Inductive Func : Type :=
| scale (factor : float)
| rotate (angle : Z)
| add_text_watermark (text : Z)
| grayscale
| blur (radius : Q)
| vintage.

Record WorkerThread : Type := mkWorker { func : Func; arg : Image }.

Inductive Filter : Type := filter_none | filter_grayscale | filter_blur | filter_vintage.

(** The message boxes the handlers open. *)
Inductive Dialog : Type :=
| information_nothing_to_undo        (* QMessageBox.information: no operation to undo *)
| information_nothing_to_redo        (* QMessageBox.information: no operation to redo *)
| warning_invalid_crop_parameters    (* QMessageBox.warning: crop parameters invalid *)
| warning_enter_watermark_text.      (* QMessageBox.warning: enter the watermark text *)

Definition max_history : Z := 10.

Record t : Type := mk {
  original_image : option Image;
  current_image : option Image;
  history : list Image;               (* undo stack, oldest first *)
  redo_history : list Image;          (* redo stack, oldest first *)
  worker : option WorkerThread;       (* self.worker *)
  running : list WorkerThread;        (* threads started, result not yet delivered *)
  current_filter : Filter;
  blur_slider : Z;
  s_slider : Z;
  rotate_spin : Z;
  crop_left : string;
  crop_top : string;
  crop_w : string;
  crop_h : string;
  wm_text_blank : bool;               (* not self.wm_text.text().strip() *)
  wm_layer : Z;                       (* text, position, font, size and opacity *)
  preview_label : CropLabel.t;
  dialogs : list Dialog               (* message boxes shown so far, oldest first *)
}.

(** [MainWindow.__init__] with a preview label of the given size. *)
Definition init (lw lh : Z) : t :=
  {| original_image := None; current_image := None;
     history := []; redo_history := [];
     worker := None; running := [];
     current_filter := filter_none; blur_slider := 20;
     s_slider := 100; rotate_spin := 0;
     crop_left := "0"; crop_top := "0"; crop_w := "200"; crop_h := "200";
     wm_text_blank := false; wm_layer := 0;
     preview_label := CropLabel.init lw lh; dialogs := [] |}.

Definition set_images (self : t) (cur : option Image)
    (hist redo : list Image) : t :=
  {| original_image := original_image self; current_image := cur;
     history := hist; redo_history := redo;
     worker := worker self; running := running self;
     current_filter := current_filter self; blur_slider := blur_slider self;
     s_slider := s_slider self; rotate_spin := rotate_spin self;
     crop_left := crop_left self; crop_top := crop_top self;
     crop_w := crop_w self; crop_h := crop_h self;
     wm_text_blank := wm_text_blank self; wm_layer := wm_layer self;
     preview_label := preview_label self; dialogs := dialogs self |}.

Definition set_original (self : t) (orig : option Image) : t :=
  {| original_image := orig; current_image := current_image self;
     history := history self; redo_history := redo_history self;
     worker := worker self; running := running self;
     current_filter := current_filter self; blur_slider := blur_slider self;
     s_slider := s_slider self; rotate_spin := rotate_spin self;
     crop_left := crop_left self; crop_top := crop_top self;
     crop_w := crop_w self; crop_h := crop_h self;
     wm_text_blank := wm_text_blank self; wm_layer := wm_layer self;
     preview_label := preview_label self; dialogs := dialogs self |}.

Definition set_workers (self : t) (w : option WorkerThread)
    (threads : list WorkerThread) : t :=
  {| original_image := original_image self;
     current_image := current_image self;
     history := history self; redo_history := redo_history self;
     worker := w; running := threads;
     current_filter := current_filter self; blur_slider := blur_slider self;
     s_slider := s_slider self; rotate_spin := rotate_spin self;
     crop_left := crop_left self; crop_top := crop_top self;
     crop_w := crop_w self; crop_h := crop_h self;
     wm_text_blank := wm_text_blank self; wm_layer := wm_layer self;
     preview_label := preview_label self; dialogs := dialogs self |}.

Definition set_preview (self : t) (label : CropLabel.t) (spin : Z) : t :=
  {| original_image := original_image self;
     current_image := current_image self;
     history := history self; redo_history := redo_history self;
     worker := worker self; running := running self;
     current_filter := current_filter self; blur_slider := blur_slider self;
     s_slider := s_slider self; rotate_spin := spin;
     crop_left := crop_left self; crop_top := crop_top self;
     crop_w := crop_w self; crop_h := crop_h self;
     wm_text_blank := wm_text_blank self; wm_layer := wm_layer self;
     preview_label := label; dialogs := dialogs self |}.

Definition show (self : t) (d : Dialog) : t :=
  {| original_image := original_image self;
     current_image := current_image self;
     history := history self; redo_history := redo_history self;
     worker := worker self; running := running self;
     current_filter := current_filter self; blur_slider := blur_slider self;
     s_slider := s_slider self; rotate_spin := rotate_spin self;
     crop_left := crop_left self; crop_top := crop_top self;
     crop_w := crop_w self; crop_h := crop_h self;
     wm_text_blank := wm_text_blank self; wm_layer := wm_layer self;
     preview_label := preview_label self; dialogs := dialogs self ++ [d] |}.

(** ** Python list operations on the stacks *)

(** [l.append(x)] followed by [if len(l) > max_history: l.pop(0)]. *)
Definition append_bounded (l : list Image) (img : Image) : list Image :=
  let l := l ++ [img] in
  if max_history <? Z.of_nat (List.length l) then tl l else l.

(** [l.pop()]: the last element and the list without it. *)
Definition pop (l : list Image) : option (Image * list Image) :=
  match rev l with
  | [] => None
  | top :: rest => Some (top, rev rest)
  end.

Definition push_history (self : t) : t :=
  match current_image self with
  | Some img =>
      set_images self (current_image self)
        (append_bounded (history self) (copy img)) []
  | None => self
  end.

(** ** The preview *)

Definition pil_to_qpixmap (img : Image) : QPixmap :=
  {| pm_width := width img; pm_height := height img |}.

(** The texts of the status bar and of the zoom label, and the watermark
    preview, are not part of the state. *)
Definition update_preview (self : t) : t :=
  let label := preview_label self in
  match current_image self with
  | None =>
      let label := CropLabel.set_original_pixmap label null_pixmap in
      set_preview self (CropLabel.clear_selection label) (rotate_spin self)
  | Some img =>
      let pix := pil_to_qpixmap img in
      let label := CropLabel.set_original_pixmap label pix in
      let slider_value := s_slider self in
      let label :=
        if slider_value =? 100 then label
        else CropLabel.set_zoom_factor label (inject_Z slider_value / 100)%Q in
      let rotate_angle := rotate_spin self in
      let label :=
        if rotate_angle =? 0 then label
        else CropLabel.set_preview_rotate_angle label (inject_Z rotate_angle) in
      set_preview self (CropLabel.clear_selection label) (rotate_spin self)
  end.

(** ** Worker threads *)

Section Workers.

Variable rotated_size : Z -> Z -> Z -> Z * Z.
Variable fits_memory : Z -> Z -> bool.

(** [WorkerThread.run]: the value handed to [finished_image], or the
    exception whose text goes to [error]. *)
Definition run (w : WorkerThread) : Py Image :=
  match func w with
  | scale factor => ImageTools.scale fits_memory (arg w) factor
  | rotate angle => Return (ImageTools.rotate rotated_size (arg w) angle)
  | add_text_watermark text => Return (ImageTools.add_text_watermark (arg w) text)
  | grayscale => Return (ImageTools.grayscale (arg w))
  | blur radius => Return (ImageTools.blur (arg w) radius)
  | vintage => Return (ImageTools.vintage (arg w))
  end.

(** [self.worker = WorkerThread(...); self.worker.start()]. *)
Definition start (self : t) (w : WorkerThread) : t :=
  set_workers self (Some w) (running self ++ [w]).

Definition on_worker_finished (self : t) (img : Image) : t :=
  let self := set_images self (Some img) (history self) (redo_history self) in
  let self := update_preview self in
  set_workers self None (running self).

(** The [i]-th running thread ends: its [finished_image] signal runs
    [on_worker_finished]; its [error] signal has no slot connected. *)
Definition thread_ends (self : t) (i : nat) : t :=
  match nth_error (running self) i with
  | None => self
  | Some w =>
      let rest := firstn i (running self) ++ skipn (S i) (running self) in
      let self := set_workers self (worker self) rest in
      match run w with
      | Return img => on_worker_finished self img
      | Raise _ => self
      end
  end.

End Workers.

(** ** Edit requests *)

Definition apply_scale (self : t) (factor : float) : t :=
  match current_image self with
  | None => self
  | Some _ =>
      let self := push_history self in
      match current_image self with
      | Some img => start self (mkWorker (scale factor) img)
      | None => self
      end
  end.

Definition apply_rotate (self : t) (angle : Z) : t :=
  match current_image self with
  | None => self
  | Some _ =>
      let self := push_history self in
      match current_image self with
      | Some img =>
          let self := start self (mkWorker (rotate angle) img) in
          set_preview self
            (CropLabel.set_preview_rotate_angle (preview_label self) 0) 0
      | None => self
      end
  end.

Definition apply_crop_rect (self : t) (left top w h : Z) : Py t :=
  match current_image self with
  | None => Return self
  | Some cur =>
      let left := Z.max 0 (Z.min left (width cur - 1)) in
      let top := Z.max 0 (Z.min top (height cur - 1)) in
      let w := Z.max 1 (Z.min w (width cur - left)) in
      let h := Z.max 1 (Z.min h (height cur - top)) in
      let self := push_history self in
      img <- ImageTools.crop cur left top w h ;;
      let self :=
        set_images self (Some img) (history self) (redo_history self) in
      let self := update_preview self in
      Return (set_preview self
                (CropLabel.clear_selection (preview_label self))
                (rotate_spin self))
  end.

Section Crop.

(** [int(text)] on the text of a line edit; [None] when it raises. *)
Variable int_of_str : string -> option Z.

Definition apply_crop (self : t) : Py t :=
  match current_image self with
  | None => Return self
  | Some _ =>
      match int_of_str (crop_left self), int_of_str (crop_top self),
            int_of_str (crop_w self), int_of_str (crop_h self) with
      | Some left, Some top, Some w, Some h => apply_crop_rect self left top w h
      | _, _, _, _ => Return (show self warning_invalid_crop_parameters)
      end
  end.

End Crop.

Definition apply_watermark (self : t) : t :=
  match current_image self with
  | None => self
  | Some _ =>
      if wm_text_blank self then show self warning_enter_watermark_text
      else
        let self := push_history self in
        match current_image self with
        | Some img => start self (mkWorker (add_text_watermark (wm_layer self)) img)
        | None => self
        end
  end.

Definition apply_filter (self : t) : t :=
  match current_image self with
  | None => self
  | Some _ =>
      let self := push_history self in
      match current_image self, current_filter self with
      | None, _ => self
      | Some _, filter_none => update_preview self
      | Some img, filter_grayscale => start self (mkWorker grayscale img)
      | Some img, filter_blur =>
          let radius := (inject_Z (blur_slider self) / 10)%Q in
          start self (mkWorker (blur radius) img)
      | Some img, filter_vintage => start self (mkWorker vintage img)
      end
  end.

(** ** Undo and redo *)

Definition undo (self : t) : t :=
  match pop (history self) with
  | None => show self information_nothing_to_undo
  | Some (top, rest) =>
      let redo :=
        match current_image self with
        | Some img => append_bounded (redo_history self) (copy img)
        | None => redo_history self
        end in
      update_preview (set_images self (Some top) rest redo)
  end.

Definition redo (self : t) : t :=
  match pop (redo_history self) with
  | None => show self information_nothing_to_redo
  | Some (top, rest) =>
      let hist :=
        match current_image self with
        | Some img => append_bounded (history self) (copy img)
        | None => history self
        end in
      update_preview (set_images self (Some top) hist rest)
  end.

(** [open_image] once the dialog has returned a path decoded to [img]. *)
Definition open_image (self : t) (img : Image) : t :=
  let self := set_original self (Some (copy img)) in
  update_preview (set_images self (Some (copy img)) [] []).

(** ** Widgets the user edits between requests *)

Definition set_widgets (self : t) (f : Filter) (blur_value slider : Z)
    (left top w h : string) (blank : bool) (layer : Z) : t :=
  {| original_image := original_image self;
     current_image := current_image self;
     history := history self; redo_history := redo_history self;
     worker := worker self; running := running self;
     current_filter := f; blur_slider := blur_value;
     s_slider := slider; rotate_spin := rotate_spin self;
     crop_left := left; crop_top := top; crop_w := w; crop_h := h;
     wm_text_blank := blank; wm_layer := layer;
     preview_label := preview_label self; dialogs := dialogs self |}.

Definition on_slider_value_changed (self : t) (value : Z) : t :=
  let self :=
    set_widgets self (current_filter self) (blur_slider self) value
      (crop_left self) (crop_top self) (crop_w self) (crop_h self)
      (wm_text_blank self) (wm_layer self) in
  match CropLabel._original_pixmap (preview_label self) with
  | Some _ =>
      set_preview self
        (CropLabel.set_zoom_factor (preview_label self) (inject_Z value / 100)%Q)
        (rotate_spin self)
  | None => self
  end.

Definition on_rotate_spin_changed (self : t) (angle : Z) : t :=
  match CropLabel._original_pixmap (preview_label self) with
  | Some _ =>
      set_preview self
        (CropLabel.set_preview_rotate_angle (preview_label self) (inject_Z angle))
        angle
  | None => set_preview self (preview_label self) angle
  end.

Definition zoom_preview (self : t) (local_pos : QPoint) (zoom_in : bool) : t :=
  match CropLabel._original_pixmap (preview_label self) with
  | Some _ =>
      set_preview self
        (CropLabel.zoom_at_point (preview_label self) local_pos zoom_in)
        (rotate_spin self)
  | None => self
  end.

Definition reset_preview_view (self : t) : t :=
  set_preview self (CropLabel.reset_view (preview_label self)) (rotate_spin self).

(** ** The event loop: one handler runs to its end before the next *)

Inductive Event : Type :=
| image_opened (img : Image)
| slider_moved (value : Z)
| rotate_spin_edited (angle : Z)
| crop_fields_edited (left top w h : string)
| filter_chosen (f : Filter) (blur_value : Z)
| watermark_edited (blank : bool) (layer : Z)
| zoom_key (local_pos : QPoint) (zoom_in : bool)
| view_reset
| scale_requested (factor : float)
| rotate_requested (angle : Z)
| crop_requested
| watermark_requested
| filter_requested
| undo_requested
| redo_requested
| thread_ended (i : nat).

Section EventLoop.

Variable rotated_size : Z -> Z -> Z -> Z * Z.
Variable fits_memory : Z -> Z -> bool.
Variable int_of_str : string -> option Z.

(** A slot that an exception leaves keeps what it had written by then:
    [apply_crop] raises only inside [ImageTools.crop], after [push_history]. *)
Definition handle (self : t) (e : Event) : t :=
  match e with
  | image_opened img => open_image self img
  | slider_moved value => on_slider_value_changed self value
  | rotate_spin_edited angle => on_rotate_spin_changed self angle
  | crop_fields_edited left top w h =>
      set_widgets self (current_filter self) (blur_slider self) (s_slider self)
        left top w h (wm_text_blank self) (wm_layer self)
  | filter_chosen f blur_value =>
      set_widgets self f blur_value (s_slider self)
        (crop_left self) (crop_top self) (crop_w self) (crop_h self)
        (wm_text_blank self) (wm_layer self)
  | watermark_edited blank layer =>
      set_widgets self (current_filter self) (blur_slider self) (s_slider self)
        (crop_left self) (crop_top self) (crop_w self) (crop_h self)
        blank layer
  | zoom_key local_pos zoom_in => zoom_preview self local_pos zoom_in
  | view_reset => reset_preview_view self
  | scale_requested factor => apply_scale self factor
  | rotate_requested angle => apply_rotate self angle
  | crop_requested =>
      match apply_crop int_of_str self with
      | Return self' => self'
      | Raise _ => push_history self
      end
  | watermark_requested => apply_watermark self
  | filter_requested => apply_filter self
  | undo_requested => undo self
  | redo_requested => redo self
  | thread_ended i => thread_ends rotated_size fits_memory self i
  end.

Definition run_events (self : t) (events : list Event) : t :=
  fold_left handle events self.

End EventLoop.

(** [edits results self]: one edit after another, each committed before the
    next is requested: [push_history] at dispatch, [on_worker_finished] with
    the worker's result. *)
Fixpoint edits (results : list Image) (self : t) : t :=
  match results with
  | [] => self
  | r :: rest => edits rest (on_worker_finished (push_history self) r)
  end.

End MainWindow.

(* ===================================================================== *)
(** * Sample inputs *)
(* ===================================================================== *)

Definition img_800x600 : Image := mkImage RGB 800 600 (Decoded 0).
Definition img_400x300 : Image := mkImage RGB 400 300 (Decoded 1).

(** The plain decimal numerals, a part of what Python's [int()] reads. *)
Definition digit_of (c : Ascii.ascii) : option Z :=
  let n := Z.of_nat (Ascii.nat_of_ascii c) in
  if (48 <=? n) && (n <=? 57) then Some (n - 48) else None.

Fixpoint digits (s : string) (acc : Z) : option Z :=
  match s with
  | EmptyString => Some acc
  | String c rest =>
      match digit_of c with
      | Some d => digits rest (10 * acc + d)
      | None => None
      end
  end.

Definition int_of_decimal (s : string) : option Z :=
  match s with
  | EmptyString => None
  | String c rest =>
      if Ascii.eqb c "-"%char then
        match rest with
        | EmptyString => None
        | _ => option_map Z.opp (digits rest 0)
        end
      else digits s 0
  end.

(** An 800 x 600 image opened in an 800 x 600 preview label. *)
Definition opened_800x600 : MainWindow.t :=
  MainWindow.open_image (MainWindow.init 800 600) img_800x600.

Definition with_crop_fields (self : MainWindow.t) (left top w h : string)
  : MainWindow.t :=
  MainWindow.set_widgets self (MainWindow.current_filter self)
    (MainWindow.blur_slider self) (MainWindow.s_slider self)
    left top w h (MainWindow.wm_text_blank self) (MainWindow.wm_layer self).

(** A preview label of size [lw x lh] showing a [w x h] pixmap at the given
    zoom and pan. *)
Definition label_showing (w h lw lh : Z) (zoom ox oy : Q) : CropLabel.t :=
  CropLabel.with_view
    (CropLabel.set_original_pixmap (CropLabel.init lw lh) (mkQPixmap w h))
    zoom ox oy.

Definition with_aspect (label : CropLabel.t) (ratio : Q) : CropLabel.t :=
  CropLabel.set_aspect_field label (Some ratio).

(** ** Vocabulary of the statements *)

(** The scaled pixmap has the size the zoom code assumes,
    [int(width * zoom) x int(height * zoom)], and is not empty. *)
Definition nominal (pm : QPixmap) (zoom : Q) : Prop :=
  pm_width (CropLabel.scaled_pixmap pm zoom)
    = int_of_Q (inject_Z (pm_width pm) * zoom)
  /\ pm_height (CropLabel.scaled_pixmap pm zoom)
    = int_of_Q (inject_Z (pm_height pm) * zoom)
  /\ 0 < pm_width (CropLabel.scaled_pixmap pm zoom)
  /\ 0 < pm_height (CropLabel.scaled_pixmap pm zoom).

(** What the conversion guarantees of an image rectangle [(l, t, w, h)]
    made under the locked ratio [a]: it lies inside the [W x H] image, and
    its sides have the ratio [a] up to the rounding of one side to a whole
    pixel (or within 0.01). *)
Definition locked_ok (a : Q) (W H : Z) (r : Z * Z * Z * Z) : Prop :=
  let '(l, t, w, h) := r in
  0 <= l /\ 0 <= t /\ 0 <= w /\ 0 <= h /\ l + w <= W /\ t + h <= H
  /\ ((1 <= w /\ 1 <= h
       /\ (Qabs (inject_Z w / inject_Z h - a) <= 1 # 100)%Q)
      \/ (1 <= h /\ (Qabs (inject_Z w - inject_Z h * a) <= 1 # 2)%Q)
      \/ (1 <= w /\ (Qabs (inject_Z h - inject_Z w / a) <= 1 # 2)%Q)).

(** The image coordinate under a screen coordinate before rounding:
    the inverse of the scale-and-centre mapping along one axis. *)
Definition unscaled (screen label_size scaled_size : Z) (offset : Q)
    (image_size : Z) : Q :=
  ((inject_Z screen
    - (inject_Z ((label_size - scaled_size) // 2) + offset))
   / inject_Z scaled_size * inject_Z image_size)%Q.


(** Both stacks within the bound. *)
Definition bounded (self : MainWindow.t) : Prop :=
  (List.length (MainWindow.history self) <= 10)%nat
  /\ (List.length (MainWindow.redo_history self) <= 10)%nat.

(** The last [n] entries of a stack. *)
Definition last_n (n : nat) (l : list Image) : list Image :=
  skipn (List.length l - n) l.

(** [self'] is [self] after a fresh edit: a push, or one of the requests
    that push. *)
Definition fresh_edit (self self' : MainWindow.t) : Prop :=
  self' = MainWindow.push_history self
  \/ (exists factor, self' = MainWindow.apply_scale self factor)
  \/ (exists angle, self' = MainWindow.apply_rotate self angle)
  \/ (exists left top w h,
        MainWindow.apply_crop_rect self left top w h = Return self')
  \/ (MainWindow.wm_text_blank self = false
      /\ self' = MainWindow.apply_watermark self)
  \/ self' = MainWindow.apply_filter self.

(** The view of the preview label: zoom, pan and preview rotation. *)
Definition view (label : CropLabel.t) : Q * Q * Q * Q :=
  (CropLabel._zoom_factor label, CropLabel._offset_x label,
   CropLabel._offset_y label, CropLabel._preview_rotate_angle label).

Definition with_view_and_angle (label : CropLabel.t) (zoom ox oy angle : Q)
  : CropLabel.t :=
  CropLabel.set_preview_rotate_angle (CropLabel.with_view label zoom ox oy) angle.


(* ===================================================================== *)
(** * The placement of the watermark text (src/image_tools.py) *)
(* ===================================================================== *)

Module TextWatermark.

Definition margin : Z := 20.

(** [draw.textbbox((0, 0), text, font=font)]: left, top, right and bottom
    of the ink of the text when it is drawn at the origin.  The left and
    top need not be 0: a font leaves room above its glyphs. *)
Record BBox : Type := mkBBox { bbox0 : Z; bbox1 : Z; bbox2 : Z; bbox3 : Z }.

(** Lines 90-113 of [ImageTools.add_text_watermark]: the point
    [(text_x, text_y)] handed to [draw.text], from the bounding box of the
    text, the name of the position and the optional custom coordinates. *)
Definition text_position (img_width img_height : Z) (bbox : BBox)
    (position : string) (x y : option Z) : Z * Z :=
  let tw := bbox2 bbox - bbox0 bbox in
  let th := bbox3 bbox - bbox1 bbox in
  let custom :=
    if String.eqb position "custom" then
      match x, y with
      | Some x, Some y => Some (x, y)
      | _, _ => None
      end
    else None in
  match custom with
  | Some (x, y) =>
      (Z.max 0 (Z.min x (img_width - tw)),
       Z.max 0 (Z.min y (img_height - th)))
  | None =>
      if String.eqb position "bottom-right" then
        (img_width - tw - margin, img_height - th - margin)
      else if String.eqb position "bottom-left" then
        (margin, img_height - th - margin)
      else if String.eqb position "top-left" then
        (margin, margin)
      else if String.eqb position "top-right" then
        (img_width - tw - margin, margin)
      else
        ((img_width - tw) // 2, (img_height - th) // 2)
  end.

(** Line 115, [draw.text((text_x, text_y), text, ...)]: the ink of the text
    drawn at a point is its bounding box at the origin moved to that
    point. *)
Definition ink_box (img_width img_height : Z) (bbox : BBox)
    (position : string) (x y : option Z) : BBox :=
  let '(text_x, text_y) :=
    text_position img_width img_height bbox position x y in
  {| bbox0 := text_x + bbox0 bbox; bbox1 := text_y + bbox1 bbox;
     bbox2 := text_x + bbox2 bbox; bbox3 := text_y + bbox3 bbox |}.

(** The box lies inside a [W x H] image. *)
Definition inside_image (W H : Z) (box : BBox) : Prop :=
  0 <= bbox0 box /\ bbox2 box <= W /\ 0 <= bbox1 box /\ bbox3 box <= H.

(** Lines 2303-2313 of [MainWindow.apply_watermark]: the position and the
    coordinates handed to [ImageTools.add_text_watermark], from the text of
    the combo box and the values of the two custom spin boxes. *)
Definition watermark_arguments (pos : string) (wm_custom_x wm_custom_y : Z)
  : string * option Z * option Z :=
  if String.eqb pos "自定义" then
    ("custom"%string, Some wm_custom_x, Some wm_custom_y)
  else (pos, None, None).

End TextWatermark.

(* ===================================================================== *)
(** * NumberInput (src/ui/main_window.py) *)
(* ===================================================================== *)

Module NumberInput.

(** The numeric state of the widget and the values its [valueChanged]
    signal has carried, oldest first.  The text shown in the line edit is
    always rewritten from [_value] and is not part of the state: the
    [textChanged] it causes re-enters [_on_text_changed] with the value
    just stored, which then changes nothing. *)
Record t : Type := mk {
  _min_value : Z;
  _max_value : Z;
  _value : Z;
  _step : Z;
  valueChanged : list Z
}.

Definition init : t :=
  {| _min_value := 0; _max_value := 100; _value := 0; _step := 1;
     valueChanged := [] |}.

Definition _clamp_value (self : t) : t :=
  {| _min_value := _min_value self; _max_value := _max_value self;
     _value := Z.max (_min_value self) (Z.min (_max_value self) (_value self));
     _step := _step self; valueChanged := valueChanged self |}.

Definition assign (self : t) (value : Z) : t :=
  {| _min_value := _min_value self; _max_value := _max_value self;
     _value := value; _step := _step self;
     valueChanged := valueChanged self |}.

Definition emit (self : t) (value : Z) : t :=
  {| _min_value := _min_value self; _max_value := _max_value self;
     _value := _value self; _step := _step self;
     valueChanged := valueChanged self ++ [value] |}.

Definition setRange (self : t) (min_value max_value : Z) : t :=
  _clamp_value
    {| _min_value := min_value; _max_value := max_value;
       _value := _value self; _step := _step self;
       valueChanged := valueChanged self |}.

Definition setValue (self : t) (value : Z) : t :=
  _clamp_value (assign self value).

Definition value (self : t) : Z := _value self.

Definition setStep (self : t) (step : Z) : t :=
  {| _min_value := _min_value self; _max_value := _max_value self;
     _value := _value self; _step := step;
     valueChanged := valueChanged self |}.

Definition _decrease (self : t) : t :=
  let self := _clamp_value (assign self (_value self - _step self)) in
  emit self (_value self).

Definition _increase (self : t) : t :=
  let self := _clamp_value (assign self (_value self + _step self)) in
  emit self (_value self).

(** [_on_text_changed]; [parsed] is [int(text_clean)], [None] when it
    raises [ValueError]. *)
Definition _on_text_changed (self : t) (parsed : option Z) : t :=
  match parsed with
  | Some new_value =>
      if negb (new_value =? _value self) then
        let old_value := _value self in
        let self := _clamp_value (assign self new_value) in
        if negb (_value self =? old_value) then emit self (_value self)
        else self
      else self
  | None => self
  end.

(** What the program and the user do to the widget. *)
Inductive Op : Type :=
| range_set (min_value max_value : Z)
| value_set (value : Z)
| step_set (step : Z)
| minus_clicked
| plus_clicked
| text_edited (parsed : option Z).

Definition apply (self : t) (op : Op) : t :=
  match op with
  | range_set lo hi => setRange self lo hi
  | value_set v => setValue self v
  | step_set k => setStep self k
  | minus_clicked => _decrease self
  | plus_clicked => _increase self
  | text_edited parsed => _on_text_changed self parsed
  end.

Definition run_ops (self : t) (ops : list Op) : t := fold_left apply ops self.

Definition is_range_set (op : Op) : bool :=
  match op with range_set _ _ => true | _ => false end.

End NumberInput.

(* ===================================================================== *)
(** * The mouse on the preview label (CropLabel) *)
(* ===================================================================== *)

Module Mouse.

(** A [CropLabel] with the fields of the right-button drag and of the
    watermark position. *)
Record t : Type := mk {
  label : CropLabel.t;
  _dragging : bool;
  _drag_start_pos : option QPoint;
  _watermark_pos : option QPoint
}.

Definition with_selection (self : CropLabel.t) (selecting : bool)
    (start_pos end_pos : option QPoint) : CropLabel.t :=
  {| CropLabel._selecting := selecting;
     CropLabel._start_pos := start_pos;
     CropLabel._end_pos := end_pos;
     CropLabel._zoom_factor := CropLabel._zoom_factor self;
     CropLabel._offset_x := CropLabel._offset_x self;
     CropLabel._offset_y := CropLabel._offset_y self;
     CropLabel._original_pixmap := CropLabel._original_pixmap self;
     CropLabel._aspect_ratio := CropLabel._aspect_ratio self;
     CropLabel._preview_rotate_angle := CropLabel._preview_rotate_angle self;
     CropLabel._watermark_mode := CropLabel._watermark_mode self;
     CropLabel.label_width := CropLabel.label_width self;
     CropLabel.label_height := CropLabel.label_height self |}.

Definition with_label (self : t) (l : CropLabel.t) : t :=
  {| label := l; _dragging := _dragging self;
     _drag_start_pos := _drag_start_pos self;
     _watermark_pos := _watermark_pos self |}.

(** [mousePressEvent] with the left button at [pos].  The guard
    [self.pixmap() is None] never holds: [QLabel.pixmap()] of PyQt6
    returns a [QPixmap], null or not. *)
Definition mousePressEvent_left (self : t) (pos : QPoint) : t :=
  let l := label self in
  if CropLabel._watermark_mode l then
    match CropLabel.screen_to_image_coords l pos with
    | Some img_pos =>
        {| label := l; _dragging := _dragging self;
           _drag_start_pos := _drag_start_pos self;
           _watermark_pos := Some img_pos |}
    | None => self
    end
  else with_label self (with_selection l true (Some pos) (Some pos)).

Definition QPoint_eqb (p q : QPoint) : bool := (x p =? x q) && (y p =? y q).

(** How far [mouseReleaseEvent] with the left button gets (lines 531-622),
    up to its call of [self._current_rect()]. *)
Inductive Released : Type :=
| UnboundLocalError
    (* line 559 reads [delta_x], a local that only line 545 assigns *)
| recomputed
    (* lines 545-618 recompute the end position; outside this model *)
| reaches_current_rect (self : t)
    (watermark_position_selected : option (Z * Z)).
    (* the arguments of the signal, if it was emitted *)

Definition mouseReleaseEvent_left (self : t) (pos : QPoint) : Released :=
  let l := label self in
  let emitted :=
    if CropLabel._watermark_mode l then _watermark_pos self else None in
  match emitted with
  | Some watermark_pos =>
      reaches_current_rect self (Some (x watermark_pos, y watermark_pos))
  | None =>
      if CropLabel._selecting l then
        let l :=
          with_selection l false (CropLabel._start_pos l) (CropLabel._end_pos l) in
        match CropLabel._aspect_ratio l, CropLabel._start_pos l with
        | Some _, Some _ =>
            let differs :=
              match CropLabel._end_pos l with
              | Some end_pos => negb (QPoint_eqb end_pos pos)
              | None => true
              end in
            if differs then recomputed else UnboundLocalError
        | _, _ => reaches_current_rect (with_label self l) None
        end
      else
        let l :=
          with_selection l (CropLabel._selecting l) (CropLabel._start_pos l)
            (Some pos) in
        reaches_current_rect (with_label self l) None
  end.

End Mouse.

(* ===================================================================== *)
(** * CropLabel in binary64 (src/ui/main_window.py)

    The same methods as in [CropLabel] above, with the arithmetic the
    interpreter performs: the zoom factor and the aspect ratio are binary64
    values, the pan offsets are Python numbers, and [int()] and [round()]
    raise on an infinity or a NaN. *)
(* ===================================================================== *)

Module CropLabel64.

Local Open Scope py_scope.

Record t : Type := mk {
  _selecting : bool;
  _start_pos : option QPoint;
  _end_pos : option QPoint;
  _zoom_factor : float;
  _offset_x : Num;
  _offset_y : Num;
  _dragging : bool;
  _drag_start_pos : option QPoint;
  _original_pixmap : option QPixmap;
  _aspect_ratio : option float;
  _preview_rotate_angle : float;
  _watermark_mode : bool;
  _watermark_pos : option QPoint;
  label_width : Z;
  label_height : Z
}.

(** [CropLabel.__init__] for a label of the given size. *)
Definition init (lw lh : Z) : t :=
  {| _selecting := false; _start_pos := None; _end_pos := None;
     _zoom_factor := 1; _offset_x := Int 0; _offset_y := Int 0;
     _dragging := false; _drag_start_pos := None;
     _original_pixmap := None; _aspect_ratio := None;
     _preview_rotate_angle := 0; _watermark_mode := false;
     _watermark_pos := None;
     label_width := lw; label_height := lh |}.

Definition with_view (self : t) (zoom : float) (ox oy : Num) : t :=
  {| _selecting := _selecting self; _start_pos := _start_pos self;
     _end_pos := _end_pos self;
     _zoom_factor := zoom; _offset_x := ox; _offset_y := oy;
     _dragging := _dragging self; _drag_start_pos := _drag_start_pos self;
     _original_pixmap := _original_pixmap self;
     _aspect_ratio := _aspect_ratio self;
     _preview_rotate_angle := _preview_rotate_angle self;
     _watermark_mode := _watermark_mode self;
     _watermark_pos := _watermark_pos self;
     label_width := label_width self; label_height := label_height self |}.

Definition with_selection (self : t) (selecting : bool)
    (start_pos end_pos : option QPoint) : t :=
  {| _selecting := selecting; _start_pos := start_pos; _end_pos := end_pos;
     _zoom_factor := _zoom_factor self; _offset_x := _offset_x self;
     _offset_y := _offset_y self;
     _dragging := _dragging self; _drag_start_pos := _drag_start_pos self;
     _original_pixmap := _original_pixmap self;
     _aspect_ratio := _aspect_ratio self;
     _preview_rotate_angle := _preview_rotate_angle self;
     _watermark_mode := _watermark_mode self;
     _watermark_pos := _watermark_pos self;
     label_width := label_width self; label_height := label_height self |}.

Definition with_drag (self : t) (dragging : bool)
    (drag_start_pos : option QPoint) : t :=
  {| _selecting := _selecting self; _start_pos := _start_pos self;
     _end_pos := _end_pos self;
     _zoom_factor := _zoom_factor self; _offset_x := _offset_x self;
     _offset_y := _offset_y self;
     _dragging := dragging; _drag_start_pos := drag_start_pos;
     _original_pixmap := _original_pixmap self;
     _aspect_ratio := _aspect_ratio self;
     _preview_rotate_angle := _preview_rotate_angle self;
     _watermark_mode := _watermark_mode self;
     _watermark_pos := _watermark_pos self;
     label_width := label_width self; label_height := label_height self |}.

Definition with_watermark (self : t) (mode : bool) (pos : option QPoint) : t :=
  {| _selecting := _selecting self; _start_pos := _start_pos self;
     _end_pos := _end_pos self;
     _zoom_factor := _zoom_factor self; _offset_x := _offset_x self;
     _offset_y := _offset_y self;
     _dragging := _dragging self; _drag_start_pos := _drag_start_pos self;
     _original_pixmap := _original_pixmap self;
     _aspect_ratio := _aspect_ratio self;
     _preview_rotate_angle := _preview_rotate_angle self;
     _watermark_mode := mode; _watermark_pos := pos;
     label_width := label_width self; label_height := label_height self |}.

Definition with_aspect (self : t) (ratio : option float) : t :=
  {| _selecting := _selecting self; _start_pos := _start_pos self;
     _end_pos := _end_pos self;
     _zoom_factor := _zoom_factor self; _offset_x := _offset_x self;
     _offset_y := _offset_y self;
     _dragging := _dragging self; _drag_start_pos := _drag_start_pos self;
     _original_pixmap := _original_pixmap self;
     _aspect_ratio := ratio;
     _preview_rotate_angle := _preview_rotate_angle self;
     _watermark_mode := _watermark_mode self;
     _watermark_pos := _watermark_pos self;
     label_width := label_width self; label_height := label_height self |}.

Definition set_original_pixmap (self : t) (pixmap : QPixmap) : t :=
  {| _selecting := _selecting self; _start_pos := _start_pos self;
     _end_pos := _end_pos self;
     _zoom_factor := 1; _offset_x := Int 0; _offset_y := Int 0;
     _dragging := _dragging self; _drag_start_pos := _drag_start_pos self;
     _original_pixmap := Some pixmap;
     _aspect_ratio := _aspect_ratio self;
     _preview_rotate_angle := 0;
     _watermark_mode := _watermark_mode self;
     _watermark_pos := _watermark_pos self;
     label_width := label_width self; label_height := label_height self |}.

Definition reset_view (self : t) : t := with_view self 1 (Int 0) (Int 0).

(** [int(size * zoom)]. *)
Definition zoomed (size : Z) (zoom : float) : Py Z :=
  int_of_float (PrimFloat.mul (float_of_int size) zoom).

(** The pixmap that [paintEvent] and the conversions build from the
    original one: [int(width * zoom)] by [int(height * zoom)], scaled with
    [KeepAspectRatio].  The two sizes are handed to Qt as C ints. *)
Definition scaled_pixmap (pm : QPixmap) (zoom : float) : Py QPixmap :=
  scaled_width <- zoomed (pm_width pm) zoom ;;
  scaled_height <- zoomed (pm_height pm) zoom ;;
  if fits_int scaled_width && fits_int scaled_height
  then Return (scaled pm scaled_width scaled_height)
  else Raise OverflowError.

Definition clamp (lo v hi : Z) : Z := Z.max lo (Z.min v hi).

(** The position of the displayed bitmap along one axis of the label. *)
Definition bitmap_origin (label_size scaled_size : Z) (offset : Num) : Num :=
  num_add (Int ((label_size - scaled_size) // 2)) offset.

(** The image coordinate under a screen coordinate before rounding,
    [(screen - origin) / scaled_size * image_size]; the scaled size is
    positive where this is computed. *)
Definition unscaled (screen label_size scaled_size : Z) (offset : Num)
    (image_size : Z) : float :=
  let rel := num_sub (Int screen) (bitmap_origin label_size scaled_size offset) in
  PrimFloat.mul
    (PrimFloat.div (to_float rel) (float_of_int scaled_size))
    (float_of_int image_size).

Definition screen_to_image_coords (self : t) (screen_pos : QPoint)
  : Py (option QPoint) :=
  match _original_pixmap self with
  | None => Return None
  | Some pm =>
      scaled_pixmap <- scaled_pixmap pm (_zoom_factor self) ;;
      let pw := pm_width scaled_pixmap in
      let ph := pm_height scaled_pixmap in
      let img_x := bitmap_origin (label_width self) pw (_offset_x self) in
      let img_y := bitmap_origin (label_height self) ph (_offset_y self) in
      let rel_x := num_sub (Int (x screen_pos)) img_x in
      let rel_y := num_sub (Int (y screen_pos)) img_y in
      if (0 <? pw) && (0 <? ph) then
        qx <- num_div rel_x (Int pw) ;;
        let orig_x := num_mul qx (Int (pm_width pm)) in
        qy <- num_div rel_y (Int ph) ;;
        let orig_y := num_mul qy (Int (pm_height pm)) in
        orig_x <- num_round orig_x ;;
        orig_y <- num_round orig_y ;;
        let orig_x := clamp 0 orig_x (pm_width pm - 1) in
        let orig_y := clamp 0 orig_y (pm_height pm - 1) in
        Return (Some {| x := orig_x; y := orig_y |})
      else Return None
  end.

(** The zoom step shared by [zoom_at_point] and the wheel handler. *)
Definition stepped_zoom (old_zoom : float) (zoom_in : bool) : float :=
  let zoom_step := 0.1%float in
  let new_zoom :=
    if zoom_in then PrimFloat.mul old_zoom (PrimFloat.add 1 zoom_step)
    else PrimFloat.mul old_zoom (PrimFloat.sub 1 zoom_step) in
  float_max 0.1 (float_min 10 new_zoom).

(** The offset update common to [zoom_at_point] and [set_zoom_factor].
    Nothing is written to the label before the sizes at the old zoom are
    computed.  The new factor is written before the sizes at the new zoom
    are; were [int()] to raise there, the label would keep the new factor
    with the old offsets, which [Raise] does not show.  The new factor is
    within 0.1 and 10 at that point. *)
Definition rezoom (self : t) (pm : QPixmap) (px py : Num) (new_zoom : float)
  : Py t :=
  let old_zoom := _zoom_factor self in
  scaled_width <- zoomed (pm_width pm) old_zoom ;;
  scaled_height <- zoomed (pm_height pm) old_zoom ;;
  let img_x :=
    num_add (Int ((label_width self - scaled_width) // 2)) (_offset_x self) in
  let img_y :=
    num_add (Int ((label_height self - scaled_height) // 2)) (_offset_y self) in
  let rel_x := num_sub px img_x in
  let rel_y := num_sub py img_y in
  ratios <-
    (if (0 <? scaled_width) && (0 <? scaled_height) then
       img_ratio_x <- num_div rel_x (Int scaled_width) ;;
       img_ratio_y <- num_div rel_y (Int scaled_height) ;;
       Return (img_ratio_x, img_ratio_y)
     else Return (Float 0.5, Float 0.5)) ;;
  let '(img_ratio_x, img_ratio_y) := ratios in
  new_scaled_width <- zoomed (pm_width pm) new_zoom ;;
  new_scaled_height <- zoomed (pm_height pm) new_zoom ;;
  let new_img_x := num_sub px (num_mul img_ratio_x (Int new_scaled_width)) in
  let new_img_y := num_sub py (num_mul img_ratio_y (Int new_scaled_height)) in
  Return
    (with_view self new_zoom
       (num_sub new_img_x (Int ((label_width self - new_scaled_width) // 2)))
       (num_sub new_img_y (Int ((label_height self - new_scaled_height) // 2)))).

Definition zoom_at_point (self : t) (point : QPoint) (zoom_in : bool) : Py t :=
  match _original_pixmap self with
  | None => Return self
  | Some pm =>
      let old_zoom := _zoom_factor self in
      let new_zoom := stepped_zoom old_zoom zoom_in in
      if PrimFloat.ltb (PrimFloat.abs (PrimFloat.sub new_zoom old_zoom)) 0.001
      then Return self
      else rezoom self pm (Int (x point)) (Int (y point)) new_zoom
  end.

Definition set_zoom_factor (self : t) (zoom_factor : float) : Py t :=
  match _original_pixmap self with
  | None => Return self
  | Some pm =>
      let zoom_factor := float_max 0.1 (float_min 10 zoom_factor) in
      if PrimFloat.ltb
           (PrimFloat.abs (PrimFloat.sub zoom_factor (_zoom_factor self))) 0.001
      then Return self
      else
        let center_x :=
          Float (PrimFloat.div (float_of_int (label_width self)) 2) in
        let center_y :=
          Float (PrimFloat.div (float_of_int (label_height self)) 2) in
        rezoom self pm center_x center_y zoom_factor
  end.

(** [MainWindow.on_slider_value_changed] as far as the label goes:
    [set_zoom_factor(value / 100.0)]. *)
Definition slider_moved (self : t) (value : Z) : Py t :=
  set_zoom_factor self (PrimFloat.div (float_of_int value) 100).

(** ** The mouse *)

(** [mousePressEvent] with the left button at [pos].  The guard
    [self.pixmap() is None] never holds: [QLabel.pixmap()] of PyQt6
    returns a [QPixmap], null or not. *)
Definition mousePressEvent_left (self : t) (pos : QPoint) : Py t :=
  if _watermark_mode self then
    img_pos <- screen_to_image_coords self pos ;;
    match img_pos with
    | Some img_pos => Return (with_watermark self true (Some img_pos))
    | None => Return self
    end
  else Return (with_selection self true (Some pos) (Some pos)).

(** [mousePressEvent] with the right button at [pos]. *)
Definition mousePressEvent_right (self : t) (pos : QPoint) : t :=
  with_drag self true (Some pos).

(** [mouseMoveEvent] at [pos].  The branch that drags a selection under a
    locked aspect ratio (lines 389-516) is outside this model: [None]. *)
Definition mouseMoveEvent (self : t) (pos : QPoint) : option t :=
  if _selecting self then
    match _aspect_ratio self, _start_pos self with
    | Some _, Some _ => None
    | _, _ =>
        Some (with_selection self (_selecting self) (_start_pos self) (Some pos))
    end
  else if _dragging self then
    match _drag_start_pos self with
    | Some start =>
        let delta_x := x pos - x start in
        let delta_y := y pos - y start in
        let self :=
          with_view self (_zoom_factor self)
            (num_add (_offset_x self) (Int delta_x))
            (num_add (_offset_y self) (Int delta_y)) in
        Some (with_drag self (_dragging self) (Some pos))
    | None => Some self
    end
  else Some self.

(** [mouseReleaseEvent] with the right button. *)
Definition mouseReleaseEvent_right (self : t) : t :=
  if _dragging self then with_drag self false (_drag_start_pos self)
  else self.

(** The pointer moves through the positions [path], one move event each. *)
Fixpoint moves (self : t) (path : list QPoint) : option t :=
  match path with
  | [] => Some self
  | pos :: rest =>
      match mouseMoveEvent self pos with
      | Some self => moves self rest
      | None => None
      end
  end.

(** The first branch of [mouseReleaseEvent] with the left button (lines
    533-535): in the watermark mode with a position chosen, the signal
    [watermark_position_selected] carries that position. *)
Definition released_watermark_position (self : t) : option (Z * Z) :=
  if _watermark_mode self then
    match _watermark_pos self with
    | Some watermark_pos => Some (x watermark_pos, y watermark_pos)
    | None => None
    end
  else None.

(** ** [screen_rect_to_image_rect], read in the order it is written *)

(** Lines 744-754. *)
Definition lock_ratio (aspect : option float) (img_w img_h : Num)
  : Py (Num * Num) :=
  match aspect with
  | None => Return (img_w, img_h)
  | Some a =>
      current_ratio <-
        (if num_lt (Int 0) img_h then num_div img_w img_h else Return (Int 0)) ;;
      if num_lt (Float 0.001) (num_abs (num_sub current_ratio (Float a))) then
        r <- num_div img_w img_h ;;
        if num_lt (Float a) r then Return (num_mul img_h (Float a), img_h)
        else (h <- num_div img_w (Float a) ;; Return (img_w, h))
      else Return (img_w, img_h)
  end.

(** Lines 785-802. *)
Definition shrink_inside (aspect : option float)
    (img_width img_height img_left img_top img_w img_h : Z)
  : Py (Z * Z * Z * Z) :=
  let img_left := if img_left <? 0 then 0 else img_left in
  wh <-
    (if img_width <? img_left + img_w then
       let img_w := img_width - img_left in
       match aspect with
       | Some a =>
           q <- num_div (Int img_w) (Float a) ;;
           h <- num_round q ;;
           Return (img_w, h)
       | None => Return (img_w, img_h)
       end
     else Return (img_w, img_h)) ;;
  let '(img_w, img_h) := wh in
  let img_top := if img_top <? 0 then 0 else img_top in
  wh <-
    (if img_height <? img_top + img_h then
       let img_h := img_height - img_top in
       match aspect with
       | Some a =>
           img_w <- num_round (num_mul (Int img_h) (Float a)) ;;
           if img_width <? img_left + img_w then
             let img_w := img_width - img_left in
             q <- num_div (Int img_w) (Float a) ;;
             h <- num_round q ;;
             Return (img_w, h)
           else Return (img_w, img_h)
       | None => Return (img_w, img_h)
       end
     else Return (img_w, img_h)) ;;
  let '(img_w, img_h) := wh in
  Return (img_left, img_top, img_w, img_h).

(** Lines 811-824. *)
Definition final_ratio (aspect : option float) (img_width img_height : Z)
    (r : Z * Z * Z * Z) : Py (Z * Z * Z * Z) :=
  let '(img_left, img_top, img_w, img_h) := r in
  match aspect with
  | None => Return r
  | Some a =>
      if 0 <? img_h then
        current_ratio <- num_div (Int img_w) (Int img_h) ;;
        if num_lt (Float 0.01) (num_abs (num_sub current_ratio (Float a))) then
          if num_lt (Float a) current_ratio then
            img_w <- num_round (num_mul (Int img_h) (Float a)) ;;
            if img_width <? img_left + img_w then
              let img_w := img_width - img_left in
              q <- num_div (Int img_w) (Float a) ;;
              h <- num_round q ;;
              Return (img_left, img_top, img_w, h)
            else Return (img_left, img_top, img_w, img_h)
          else
            q <- num_div (Int img_w) (Float a) ;;
            img_h <- num_round q ;;
            if img_height <? img_top + img_h then
              let img_h := img_height - img_top in
              w <- num_round (num_mul (Int img_h) (Float a)) ;;
              Return (img_left, img_top, w, img_h)
            else Return (img_left, img_top, img_w, img_h)
        else Return r
      else Return r
  end.

Definition screen_rect_to_image_rect (self : t) (screen_rect : QRect)
  : Py (option QRect) :=
  match _original_pixmap self with
  | None => Return None
  | Some pm =>
      scaled_pixmap <- scaled_pixmap pm (_zoom_factor self) ;;
      let pw := pm_width scaled_pixmap in
      let ph := pm_height scaled_pixmap in
      let img_x := bitmap_origin (label_width self) pw (_offset_x self) in
      let img_y := bitmap_origin (label_height self) ph (_offset_y self) in
      let screen_center_x := num_sub (Int (x (center screen_rect))) img_x in
      let screen_center_y := num_sub (Int (y (center screen_rect))) img_y in
      let screen_width := rect_width screen_rect in
      let screen_height := rect_height screen_rect in
      if num_lt screen_center_x (Int 0) || num_lt (Int pw) screen_center_x
         || num_lt screen_center_y (Int 0) || num_lt (Int ph) screen_center_y
      then Return None
      else if (0 <? pw) && (0 <? ph) then
        qw <- num_div (Int screen_width) (Int pw) ;;
        let img_w := num_mul qw (Int (pm_width pm)) in
        qh <- num_div (Int screen_height) (Int ph) ;;
        let img_h := num_mul qh (Int (pm_height pm)) in
        qx <- num_div screen_center_x (Int pw) ;;
        let img_center_x := num_mul qx (Int (pm_width pm)) in
        qy <- num_div screen_center_y (Int ph) ;;
        let img_center_y := num_mul qy (Int (pm_height pm)) in
        wh <- lock_ratio (_aspect_ratio self) img_w img_h ;;
        img_w <- num_round (fst wh) ;;
        img_h <- num_round (snd wh) ;;
        if (img_w <=? 0) || (img_h <=? 0) then Return None
        else
          half_w <- num_div (Int img_w) (Int 2) ;;
          img_left <- num_round (num_sub img_center_x half_w) ;;
          half_h <- num_div (Int img_h) (Int 2) ;;
          img_top <- num_round (num_sub img_center_y half_h) ;;
          let img_width := pm_width pm in
          let img_height := pm_height pm in
          let img_left := CropLabel.shift_inside img_left img_w img_width in
          let img_top := CropLabel.shift_inside img_top img_h img_height in
          r <- shrink_inside (_aspect_ratio self) img_width img_height
                 img_left img_top img_w img_h ;;
          r <- final_ratio (_aspect_ratio self) img_width img_height
                 (CropLabel.final_bounds img_width img_height r) ;;
          let '(img_left, img_top, img_w, img_h) := r in
          if fits_int img_left && fits_int img_top
             && fits_int img_w && fits_int img_h
          then Return (Some (QRect_xywh img_left img_top img_w img_h))
          else Raise OverflowError
      else Return None
  end.

End CropLabel64.

(* ===================================================================== *)
(** * More slots of MainWindow *)
(* ===================================================================== *)

Module Slots.

Import MainWindow.
Local Open Scope py_scope.

(** Python's [str] on an [int]. *)
Definition str (n : Z) : string :=
  DecimalString.NilZero.string_of_int (Z.to_int n).

(** The dictionary of [on_crop_ratio_changed] read with
    [ratio_map.get(index, None)]: width over height, as exact rationals. *)
Definition ratio_map (index : Z) : option Q :=
  match index with
  | 1 => Some 1%Q
  | 2 => Some (4 # 3)%Q
  | 3 => Some (16 # 9)%Q
  | 4 => Some (3 # 2)%Q
  | 5 => Some (21 # 9)%Q
  | 6 => Some (9 # 16)%Q
  | 7 => Some (2 # 3)%Q
  | _ => None
  end.

(** [on_selection_finished], the slot of the label's [selection_finished]
    signal.  An exception of the conversion leaves the slot before it has
    written anything. *)
Definition on_selection_finished (self : t) (rect : QRect) : Py t :=
  let cleared :=
    set_preview self (CropLabel.clear_selection (preview_label self))
      (rotate_spin self) in
  match current_image self with
  | None => Return cleared
  | Some _ =>
      img_rect <- CropLabel.screen_rect_to_image_rect (preview_label self) rect ;;
      match img_rect with
      | None => Return cleared
      | Some r =>
          if (rect_width r <? 5) || (rect_height r <? 5) then Return cleared
          else
            Return (set_widgets self (current_filter self) (blur_slider self)
                      (s_slider self)
                      (str (left r)) (str (top r))
                      (str (rect_width r)) (str (rect_height r))
                      (wm_text_blank self) (wm_layer self))
      end
  end.

(** [on_watermark_position_selected], the slot of the label's
    [watermark_position_selected] signal, on the two custom spin boxes;
    the refresh of the watermark preview is not part of the state. *)
Definition on_watermark_position_selected
    (wm_custom_x wm_custom_y : NumberInput.t) (x y : Z)
  : NumberInput.t * NumberInput.t :=
  (NumberInput.setValue wm_custom_x x, NumberInput.setValue wm_custom_y y).

(** The ranges [_on_watermark_position_changed] gives the two spin boxes
    when the custom item is chosen with [img] as the current image. *)
Definition custom_ranges (wm_custom_x wm_custom_y : NumberInput.t)
    (img : Image) : NumberInput.t * NumberInput.t :=
  (NumberInput.setRange wm_custom_x 0 (width img),
   NumberInput.setRange wm_custom_y 0 (height img)).

End Slots.

(** ** More vocabulary of the statements *)

(** The preview label shows the current image. *)
Definition preview_in_sync (self : MainWindow.t) : Prop :=
  CropLabel._original_pixmap (MainWindow.preview_label self)
  = option_map MainWindow.pil_to_qpixmap (MainWindow.current_image self).

(** The rectangle [(l, t, w, h)] is not empty and lies inside a
    [W x H] image. *)
Definition inside (W H : Z) (r : QRect) : Prop :=
  0 <= left r /\ 0 <= top r /\ 1 <= rect_width r /\ 1 <= rect_height r
  /\ left r + rect_width r <= W /\ top r + rect_height r <= H.

(** Two labels with the same locked ratio, watermark mode and size: the
    fields a preview refresh does not overwrite. *)
Definition same_frame (l l' : CropLabel.t) : Prop :=
  CropLabel._aspect_ratio l' = CropLabel._aspect_ratio l
  /\ CropLabel._watermark_mode l' = CropLabel._watermark_mode l
  /\ CropLabel.label_width l' = CropLabel.label_width l
  /\ CropLabel.label_height l' = CropLabel.label_height l.

(** Every event but the opening of an image. *)
Definition no_open (e : MainWindow.Event) : bool :=
  match e with
  | MainWindow.image_opened _ => false
  | _ => true
  end.

(** Nothing is loaded: no image, nothing to undo or redo, no thread, and
    the preview label as it was built. *)
Definition blank (lw lh : Z) (self : MainWindow.t) : Prop :=
  MainWindow.current_image self = None
  /\ MainWindow.original_image self = None
  /\ MainWindow.history self = []
  /\ MainWindow.redo_history self = []
  /\ MainWindow.running self = []
  /\ MainWindow.worker self = None
  /\ MainWindow.preview_label self = CropLabel.init lw lh.

(** The zoom factor is within the limits of the zoom code. *)
Definition zoom_in_range (label : CropLabel.t) : Prop :=
  (1 # 10 <= CropLabel._zoom_factor label <= 10)%Q.

(** What every handler keeps of the preview. *)
Definition view_ok (self : MainWindow.t) : Prop :=
  preview_in_sync self /\ zoom_in_range (MainWindow.preview_label self).

(** A [NumberInput] with the range [lo..hi] whose value and whose signals
    so far lie in that range. *)
Definition in_range (lo hi : Z) (self : NumberInput.t) : Prop :=
  NumberInput._min_value self = lo /\ NumberInput._max_value self = hi
  /\ lo <= NumberInput._value self <= hi
  /\ Forall (fun v => lo <= v <= hi) (NumberInput.valueChanged self).

(** The position of the displayed bitmap along one axis of the label. *)
Definition bitmap_origin (label_size scaled_size : Z) (offset : Q) : Q :=
  (inject_Z ((label_size - scaled_size) // 2) + offset)%Q.

(** The ints of a view and of a pointer position are in the range in
    which the conversions of [Num] are those of Python: the sizes of the
    label and of the pixmap and the coordinates of the pointer are C ints,
    as Qt holds them, and an offset that is an int is below 2^52 in
    magnitude. *)
Definition small_int (a : Num) : Prop :=
  match a with
  | Int n => - 2 ^ 52 <= n <= 2 ^ 52
  | Float _ => True
  end.

Definition qt_ranged (self : CropLabel64.t) (p : QPoint) : Prop :=
  fits_int (CropLabel64.label_width self) = true
  /\ fits_int (CropLabel64.label_height self) = true
  /\ fits_int (x p) = true /\ fits_int (y p) = true
  /\ small_int (CropLabel64._offset_x self)
  /\ small_int (CropLabel64._offset_y self)
  /\ match CropLabel64._original_pixmap self with
     | Some pm => fits_int (pm_width pm) = true /\ fits_int (pm_height pm) = true
     | None => True
     end.

(** The state of a drag that started at [p0] on the label [l0], whose pan
    offsets were the ints [ox] and [oy], and has reached [cur]. *)
Definition dragged (l0 : CropLabel64.t) (ox oy : Z) (p0 cur : QPoint)
    (self : CropLabel64.t) : Prop :=
  self = CropLabel64.with_drag
           (CropLabel64.with_view l0 (CropLabel64._zoom_factor l0)
              (Int (ox + (x cur - x p0))) (Int (oy + (y cur - y p0))))
           true (Some cur).

(* ===================================================================== *)
(** * Rounding lemmas *)
(* ===================================================================== *)

Section RoundFacts.

Local Open Scope Q_scope.

Lemma inject_Z_succ (n : Z) : inject_Z (n + 1) == inject_Z n + 1.
Proof. rewrite inject_Z_plus. reflexivity. Qed.

Lemma round_cases (x : Q) :
  round x = Qfloor x \/ round x = (Qfloor x + 1)%Z.
Proof.
  unfold round. destruct (_ ?= _); [destruct (Z.even _)|..]; auto.
Qed.

Lemma Qfloor_bounds (x : Q) :
  inject_Z (Qfloor x) <= x /\ x < inject_Z (Qfloor x) + 1.
Proof.
  split; [apply Qfloor_le|].
  pose proof (Qlt_floor x) as H.
  rewrite inject_Z_succ in H. exact H.
Qed.

(** [round x] is within one half of [x]. *)
Lemma round_close (x : Q) : Qabs (inject_Z (round x) - x) <= 1 # 2.
Proof.
  destruct (Qfloor_bounds x) as [Hlo Hhi].
  unfold round.
  destruct (x - inject_Z (Qfloor x) ?= 1 # 2) eqn:E.
  - apply Qeq_alt in E.
    destruct (Z.even (Qfloor x)); [|rewrite inject_Z_succ];
      apply Qabs_Qle_condition; split; lra.
  - apply Qlt_alt in E. apply Qabs_Qle_condition; split; lra.
  - apply Qgt_alt in E. rewrite inject_Z_succ.
    apply Qabs_Qle_condition; split; lra.
Qed.

Lemma round_inject_Z (n : Z) : round (inject_Z n) = n.
Proof.
  unfold round. rewrite Qfloor_Z.
  destruct (_ ?= _) eqn:E.
  - apply Qeq_alt in E. lra.
  - reflexivity.
  - apply Qgt_alt in E. lra.
Qed.

(** Rounding never crosses an integer. *)
Lemma round_le_Z (x : Q) (n : Z) : x <= inject_Z n -> (round x <= n)%Z.
Proof.
  intros Hx.
  destruct (Qfloor_bounds x) as [Hlo Hhi].
  assert (Hf : (Qfloor x <= n)%Z).
  { rewrite Zle_Qle. lra. }
  destruct (Z.eq_dec (Qfloor x) n) as [Heq|Hne].
  - unfold round.
    destruct (x - inject_Z (Qfloor x) ?= 1 # 2) eqn:E.
    + apply Qeq_alt in E. rewrite Heq in *. lra.
    + lia.
    + apply Qgt_alt in E. rewrite Heq in *. lra.
  - destruct (round_cases x) as [-> | ->]; lia.
Qed.

Lemma round_ge_Z (x : Q) (n : Z) : inject_Z n <= x -> (n <= round x)%Z.
Proof.
  intros Hx.
  assert (Hf : (n <= Qfloor x)%Z).
  { rewrite <- (Qfloor_Z n). apply Qfloor_resp_le. exact Hx. }
  destruct (round_cases x) as [-> | ->]; lia.
Qed.

Lemma Qltb_lt (x y : Q) : Qltb x y = true <-> x < y.
Proof. unfold Qltb, Qlt. apply Z.ltb_lt. Qed.

Lemma Qltb_ge (x y : Q) : Qltb x y = false <-> y <= x.
Proof. unfold Qltb, Qle. apply Z.ltb_ge. Qed.

End RoundFacts.

(* ===================================================================== *)
(** * ImageTools.scale *)
(* ===================================================================== *)

Section ScaleFacts.

Lemma ensure_rgb_size (img : Image) :
  width (ImageTools.ensure_rgb img) = width img
  /\ height (ImageTools.ensure_rgb img) = height img.
Proof. unfold ImageTools.ensure_rgb. destruct (mode img); auto. Qed.

Lemma int_of_float_finite (x : float) :
  is_finite x = true -> exists z, int_of_float x = Return z.
Proof.
  unfold is_finite, int_of_float.
  destruct (Prim2SF x); intros H; try discriminate; eauto.
Qed.

Lemma resize_cases fits_memory (img : Image) (w h : Z) :
  1 <= w -> 1 <= h ->
  (forall r, PIL.resize fits_memory img w h = Return r ->
             width r = w /\ height r = h)
  /\ PIL.resize fits_memory img w h <> Raise ValueError
  /\ PIL.resize fits_memory img w h <> Raise ZeroDivisionError
  /\ (w <= INT_MAX -> h <= INT_MAX -> fits_memory w h = true ->
      exists r, PIL.resize fits_memory img w h = Return r)
  /\ ((w, h) <> (width img, height img) ->
      (INT_MAX < w \/ INT_MAX < h ->
       PIL.resize fits_memory img w h = Raise OverflowError)
      /\ (w <= INT_MAX -> h <= INT_MAX -> fits_memory w h = false ->
          PIL.resize fits_memory img w h = Raise MemoryError)).
Proof.
  intros Hw Hh. unfold PIL.resize, copy.
  destruct ((w =? width img) && (h =? height img)) eqn:Esame.
  - apply andb_true_iff in Esame as [E1 E2]. apply Z.eqb_eq in E1, E2.
    split; [intros r R; injection R as <-; auto|].
    split; [discriminate|]. split; [discriminate|].
    split; [eauto|]. intros N. exfalso. apply N. congruence.
  - destruct ((w <? - INT_MAX - 1) || (INT_MAX <? w)
              || (h <? - INT_MAX - 1) || (INT_MAX <? h)) eqn:Eov.
    + rewrite !orb_true_iff, !Z.ltb_lt in Eov. unfold INT_MAX in *.
      split; [intros r R; discriminate R|].
      split; [discriminate|]. split; [discriminate|].
      split; [intros; exfalso; lia|]. intros _.
      split; [reflexivity|]. intros; exfalso; lia.
    + rewrite !orb_false_iff, !Z.ltb_ge in Eov. unfold INT_MAX in *.
      destruct ((w <? 1) || (h <? 1)) eqn:Epos.
      { rewrite orb_true_iff, !Z.ltb_lt in Epos. exfalso. lia. }
      destruct (fits_memory w h) eqn:Ef.
      * split; [intros r R; injection R as <-; auto|].
        split; [discriminate|]. split; [discriminate|].
        split; [eauto|]. intros _.
        split; [intros; exfalso; lia|]. intros; discriminate.
      * split; [intros r R; discriminate R|].
        split; [discriminate|]. split; [discriminate|].
        split; [intros; discriminate|]. intros _.
        split; [intros; exfalso; lia|]. reflexivity.
Qed.

(** C10, as stated, fails.  The factor 1e308 is finite, yet 800 * 1e308
    overflows to infinity and [int()] of it raises [OverflowError]; and
    with the factor 1e7 the requested size, 8000000000 x 6000000000, is
    beyond what the library takes, whatever memory the machine has. *)
Lemma scale_overflow_counterexample :
  is_finite 1e308 = true
  /\ (forall fits_memory,
        ImageTools.scale fits_memory img_800x600 1e308 = Raise OverflowError)
  /\ is_finite 1e7 = true
  /\ (forall fits_memory,
        ImageTools.scale fits_memory img_800x600 1e7 = Raise OverflowError).
Proof. repeat split; intros; vm_compute; reflexivity. Qed.

(** C10, amended: whenever the two products [width * factor] and
    [height * factor] are finite (as they are for zero and for negative
    factors), [ImageTools.scale] asks for the size
    [max(1, int(width * factor))] by [max(1, int(height * factor))], both
    at least 1, so [resize] never refuses a non-positive dimension; what it
    returns has exactly that size, and it returns whenever both sides fit a
    C int and the library can allocate the image.  Unless the size is the
    image's own, it raises [OverflowError] when a side is beyond a C int
    and [MemoryError] when the image cannot be allocated. *)
Theorem scale_dimensions fits_memory (img : Image) (factor : float) :
  is_finite (PrimFloat.mul (float_of_int (width img)) factor) = true ->
  is_finite (PrimFloat.mul (float_of_int (height img)) factor) = true ->
  exists a b,
    int_of_float (PrimFloat.mul (float_of_int (width img)) factor) = Return a
    /\ int_of_float (PrimFloat.mul (float_of_int (height img)) factor) = Return b
    /\ let new_w := Z.max 1 a in
       let new_h := Z.max 1 b in
       let result := ImageTools.scale fits_memory img factor in
       1 <= new_w /\ 1 <= new_h
       /\ (forall r, result = Return r -> width r = new_w /\ height r = new_h)
       /\ result <> Raise ValueError
       /\ result <> Raise ZeroDivisionError
       /\ (new_w <= INT_MAX -> new_h <= INT_MAX ->
           fits_memory new_w new_h = true -> exists r, result = Return r)
       /\ ((new_w, new_h) <> (width img, height img) ->
           (INT_MAX < new_w \/ INT_MAX < new_h -> result = Raise OverflowError)
           /\ (new_w <= INT_MAX -> new_h <= INT_MAX ->
               fits_memory new_w new_h = false -> result = Raise MemoryError)).
Proof.
  intros Hw Hh.
  destruct (int_of_float_finite _ Hw) as [a Ha].
  destruct (int_of_float_finite _ Hh) as [b Hb].
  destruct (ensure_rgb_size img) as [Ew Eh].
  exists a, b. split; [exact Ha|]. split; [exact Hb|]. cbv zeta.
  assert (E : ImageTools.scale fits_memory img factor
              = PIL.resize fits_memory (ImageTools.ensure_rgb img)
                  (Z.max 1 a) (Z.max 1 b)).
  { unfold ImageTools.scale. rewrite Ew, Eh, Ha. cbn [bind]. rewrite Hb.
    reflexivity. }
  rewrite E, <- Ew, <- Eh.
  split; [lia|]. split; [lia|].
  apply resize_cases; lia.
Qed.

(** A negative factor on an 800 x 600 image: both sides come out as 1. *)
Lemma scale_dimensions_witness :
  exists r,
    ImageTools.scale (fun _ _ => true) img_800x600 (-1.5)%float = Return r
    /\ width r = 1 /\ height r = 1.
Proof.
  destruct (scale_dimensions (fun _ _ => true) img_800x600 (-1.5)%float)
    as (a & b & Ha & Hb & _ & _ & Hsize & _ & _ & Hret & _);
    [vm_compute; reflexivity | vm_compute; reflexivity |].
  assert (Ea : a = -1200) by (vm_compute in Ha; congruence).
  assert (Eb : b = -900) by (vm_compute in Hb; congruence).
  subst a b. destruct Hret as [r Hr]; [vm_compute; discriminate ..| reflexivity |].
  exists r. split; [exact Hr|]. apply (Hsize r Hr).
Defined.

End ScaleFacts.

(* ===================================================================== *)
(** * The undo and redo stacks *)
(* ===================================================================== *)

Section HistoryFacts.

Import MainWindow.

Lemma pop_snoc (l : list Image) (img : Image) :
  pop (l ++ [img]) = Some (img, l).
Proof. unfold pop. rewrite rev_app_distr. simpl. now rewrite rev_involutive. Qed.

Lemma pop_nil : pop [] = None.
Proof. reflexivity. Qed.

(** FIFO eviction: appending keeps the newest entry last and drops index 0
    exactly when the bound would be exceeded. *)
Lemma append_bounded_spec (l : list Image) (img : Image) :
  append_bounded l img =
    if (Z.of_nat (List.length l) <? max_history) then l ++ [img]
    else tl l ++ [img].
Proof.
  unfold append_bounded, max_history. rewrite length_app. simpl.
  destruct (10 <? Z.of_nat (List.length l + 1)) eqn:E1;
    destruct (Z.of_nat (List.length l) <? 10) eqn:E2;
    try apply Z.ltb_lt in E1; try apply Z.ltb_ge in E1;
    try apply Z.ltb_lt in E2; try apply Z.ltb_ge in E2; try lia; auto.
  destruct l; simpl in *; [lia | reflexivity].
Qed.

Lemma append_bounded_snoc (l : list Image) (img : Image) :
  exists l', append_bounded l img = l' ++ [img].
Proof.
  rewrite append_bounded_spec. destruct (_ <? _); eauto.
Qed.

Lemma append_bounded_length (l : list Image) (img : Image) :
  (List.length l <= 10)%nat ->
  (List.length (append_bounded l img) <= 10)%nat.
Proof.
  intros H. rewrite append_bounded_spec. unfold max_history.
  destruct (Z.of_nat (List.length l) <? 10) eqn:E.
  - apply Z.ltb_lt in E. rewrite length_app. simpl. lia.
  - rewrite length_app. simpl. destruct l; simpl in *; lia.
Qed.

Lemma update_preview_images (self : t) :
  current_image (update_preview self) = current_image self
  /\ history (update_preview self) = history self
  /\ redo_history (update_preview self) = redo_history self
  /\ dialogs (update_preview self) = dialogs self
  /\ running (update_preview self) = running self.
Proof.
  unfold update_preview.
  destruct (current_image self) eqn:E; simpl; rewrite ?E; auto.
Qed.

Lemma push_history_some (self : t) (img : Image) :
  current_image self = Some img ->
  push_history self =
    set_images self (Some img) (append_bounded (history self) img) [].
Proof. intros H. unfold push_history. rewrite H. reflexivity. Qed.

End HistoryFacts.

(* ===================================================================== *)
(** * Cropping *)
(* ===================================================================== *)

Section CropFacts.

Import MainWindow.

Lemma pil_crop_ordered (img : Image) (l t r b : Z) :
  l <= r -> t <= b ->
  PIL.crop img l t r b =
    Return {| mode := mode img; width := r - l; height := b - t;
              pixels := Boxed (pixels img) l t r b |}.
Proof.
  intros Hlr Htb. unfold PIL.crop.
  destruct (r <? l) eqn:E1; [apply Z.ltb_lt in E1; lia|].
  destruct (b <? t) eqn:E2; [apply Z.ltb_lt in E2; lia|].
  reflexivity.
Qed.

(** [ImageTools.crop] clamps any integers to a box of at least one pixel
    inside the image. *)
Lemma image_tools_crop_bounds (cur : Image) (left top w h : Z) :
  1 <= width cur -> 1 <= height cur ->
  exists img,
    ImageTools.crop cur left top w h = Return img
    /\ 1 <= width img <= width cur /\ 1 <= height img <= height cur.
Proof.
  intros HW HH. destruct (ensure_rgb_size cur) as [Ew Eh].
  unfold ImageTools.crop. rewrite Ew, Eh.
  rewrite pil_crop_ordered by lia.
  eexists. split; [reflexivity|]. simpl. lia.
Qed.

(** A box that already lies inside the image is cut out as given. *)
Lemma image_tools_crop_inside (cur : Image) (left top w h : Z) :
  0 <= left -> 0 <= top -> 1 <= w -> 1 <= h ->
  left + w <= width cur -> top + h <= height cur ->
  exists img,
    ImageTools.crop cur left top w h = Return img
    /\ width img = w /\ height img = h.
Proof.
  intros Hl Ht Hw Hh HW HH. destruct (ensure_rgb_size cur) as [Ew Eh].
  unfold ImageTools.crop. rewrite Ew, Eh.
  rewrite pil_crop_ordered by lia.
  eexists. split; [reflexivity|]. simpl. lia.
Qed.

(** C7: a crop request whose rectangle lies inside the current image leaves
    a current image of exactly the requested width and height, and an undo
    brings the image before the crop back; for arbitrary integer parameters
    the cropped image has [1 <= width <= imageWidth] and
    [1 <= height <= imageHeight], both through [apply_crop_rect] and through
    [ImageTools.crop] alone. *)
Theorem crop_request_dimensions (self : t) (cur : Image) (left top w h : Z) :
  current_image self = Some cur ->
  1 <= width cur -> 1 <= height cur ->
  (exists direct,
      ImageTools.crop cur left top w h = Return direct
      /\ 1 <= width direct <= width cur /\ 1 <= height direct <= height cur)
  /\ exists self' img,
      apply_crop_rect self left top w h = Return self'
      /\ current_image self' = Some img
      /\ 1 <= width img <= width cur /\ 1 <= height img <= height cur
      /\ (0 <= left -> 0 <= top -> 1 <= w -> 1 <= h ->
          left + w <= width cur -> top + h <= height cur ->
          width img = w /\ height img = h)
      /\ current_image (undo self') = Some cur.
Proof.
  intros Hcur HW HH. split; [now apply image_tools_crop_bounds|].
  unfold apply_crop_rect. rewrite Hcur.
  set (l' := Z.max 0 (Z.min left (width cur - 1))).
  set (t' := Z.max 0 (Z.min top (height cur - 1))).
  set (w' := Z.max 1 (Z.min w (width cur - l'))).
  set (h' := Z.max 1 (Z.min h (height cur - t'))).
  destruct (image_tools_crop_inside cur l' t' w' h') as (img & Himg & Hw & Hh);
    try (subst l' t' w' h'; lia).
  rewrite Himg. simpl.
  eexists. exists img. split; [reflexivity|].
  rewrite (push_history_some self cur Hcur).
  split.
  { reflexivity. }
  split; [subst w' l'; lia|]. split; [subst h' t'; lia|].
  split; [intros; subst w' h' l' t'; lia|].
  unfold undo. simpl.
  destruct (append_bounded_snoc (history self) cur) as [l0 E].
  rewrite E, pop_snoc. reflexivity.
Qed.

(** The scenario of the specification: an 800 x 600 image, the rectangle
    (100, 100, 200, 150), then undo. *)
Lemma crop_request_dimensions_witness :
  exists self' img,
    apply_crop_rect (open_image (init 800 600) img_800x600) 100 100 200 150
      = Return self'
    /\ current_image self' = Some img
    /\ width img = 200 /\ height img = 150
    /\ current_image (undo self') = Some img_800x600.
Proof.
  destruct (crop_request_dimensions
              (open_image (init 800 600) img_800x600) img_800x600
              100 100 200 150 eq_refl)
    as [_ (self' & img & H1 & H2 & _ & _ & H3 & H4)];
    [vm_compute; discriminate | vm_compute; discriminate |].
  exists self', img.
  destruct H3 as [Hw Hh]; [simpl; lia ..|].
  repeat split; assumption.
Defined.

End CropFacts.

(* ===================================================================== *)
(** * The history bound *)
(* ===================================================================== *)

Section HistoryBound.

Import MainWindow.

Lemma pop_some (l : list Image) (top : Image) (rest : list Image) :
  pop l = Some (top, rest) -> l = rest ++ [top].
Proof.
  unfold pop. intros H.
  destruct (rev l) as [|a r] eqn:E; [discriminate|].
  injection H as <- <-.
  rewrite <- (rev_involutive l), E. reflexivity.
Qed.

Lemma update_preview_bounded (self : t) :
  bounded self -> bounded (update_preview self).
Proof.
  unfold bounded.
  destruct (update_preview_images self) as (_ & -> & -> & _). auto.
Qed.

Lemma push_history_bounded (self : t) :
  bounded self -> bounded (push_history self).
Proof.
  unfold bounded, push_history. intros [Hh Hr].
  destruct (current_image self); simpl; [|auto].
  split; [now apply append_bounded_length | lia].
Qed.

Lemma start_bounded (self : t) (w : WorkerThread) :
  bounded self -> bounded (start self w).
Proof. unfold bounded. simpl. auto. Qed.

Lemma undo_bounded (self : t) : bounded self -> bounded (undo self).
Proof.
  intros [Hh Hr]. unfold undo.
  destruct (pop (history self)) as [[top rest]|] eqn:E.
  - apply update_preview_bounded. apply pop_some in E.
    rewrite E, length_app in Hh. simpl in Hh.
    split; simpl; [lia|].
    destruct (current_image self); [now apply append_bounded_length | auto].
  - split; assumption.
Qed.

Lemma redo_bounded (self : t) : bounded self -> bounded (redo self).
Proof.
  intros [Hh Hr]. unfold redo.
  destruct (pop (redo_history self)) as [[top rest]|] eqn:E.
  - apply update_preview_bounded. apply pop_some in E.
    rewrite E, length_app in Hr. simpl in Hr.
    split; simpl; [|lia].
    destruct (current_image self); [now apply append_bounded_length | auto].
  - split; assumption.
Qed.

Lemma on_worker_finished_bounded (self : t) (img : Image) :
  bounded self -> bounded (on_worker_finished self img).
Proof.
  intros H. unfold on_worker_finished.
  assert (Hb : bounded (update_preview
            (set_images self (Some img) (history self) (redo_history self)))).
  { apply update_preview_bounded. exact H. }
  exact Hb.
Qed.

Lemma apply_crop_rect_bounded (self : t) (left top w h : Z) :
  bounded self ->
  match apply_crop_rect self left top w h with
  | Return self' => bounded self'
  | Raise _ => True
  end.
Proof.
  intros H. unfold apply_crop_rect.
  destruct (current_image self) as [cur|] eqn:Ec; [|exact H].
  destruct (ImageTools.crop cur _ _ _ _) as [img|]; simpl; [|exact I].
  pose proof (push_history_bounded self H) as Hp.
  assert (Hb : bounded (update_preview
            (set_images (push_history self) (Some img)
               (history (push_history self))
               (redo_history (push_history self))))).
  { apply update_preview_bounded. exact Hp. }
  exact Hb.
Qed.

Lemma handle_bounded rotated_size fits_memory int_of_str (self : t) (e : Event) :
  bounded self -> bounded (handle rotated_size fits_memory int_of_str self e).
Proof.
  intros H. destruct e; simpl handle.
  - unfold open_image. apply update_preview_bounded. split; simpl; lia.
  - unfold on_slider_value_changed. simpl.
    destruct (CropLabel._original_pixmap _); exact H.
  - unfold on_rotate_spin_changed.
    destruct (CropLabel._original_pixmap _); exact H.
  - exact H.
  - exact H.
  - exact H.
  - unfold zoom_preview. destruct (CropLabel._original_pixmap _); exact H.
  - exact H.
  - unfold apply_scale. destruct (current_image self); [|exact H].
    pose proof (push_history_bounded self H) as Hp.
    destruct (current_image (push_history self)); [|exact Hp].
    apply start_bounded, Hp.
  - unfold apply_rotate. destruct (current_image self); [|exact H].
    pose proof (push_history_bounded self H) as Hp.
    destruct (current_image (push_history self)); [|exact Hp].
    exact (start_bounded _ _ Hp).
  - unfold apply_crop. destruct (current_image self) eqn:Ec; [|exact H].
    destruct (int_of_str (crop_left self)) as [l|]; [|exact H].
    destruct (int_of_str (crop_top self)) as [t0|]; [|exact H].
    destruct (int_of_str (crop_w self)) as [w|]; [|exact H].
    destruct (int_of_str (crop_h self)) as [h|]; [|exact H].
    pose proof (apply_crop_rect_bounded self l t0 w h H) as Hc.
    destruct (apply_crop_rect self l t0 w h); [exact Hc|].
    apply push_history_bounded, H.
  - unfold apply_watermark. destruct (current_image self); [|exact H].
    destruct (wm_text_blank self); [exact H|].
    pose proof (push_history_bounded self H) as Hp.
    destruct (current_image (push_history self)); [|exact Hp].
    apply start_bounded, Hp.
  - unfold apply_filter. destruct (current_image self); [|exact H].
    pose proof (push_history_bounded self H) as Hp.
    destruct (current_image (push_history self)); [|exact Hp].
    destruct (current_filter (push_history self));
      [apply update_preview_bounded, Hp | apply start_bounded, Hp ..].
  - apply undo_bounded, H.
  - apply redo_bounded, H.
  - unfold thread_ends. destruct (nth_error (running self) i); [|exact H].
    destruct (run rotated_size fits_memory w); [|exact H].
    apply on_worker_finished_bounded. exact H.
Qed.

Lemma run_events_bounded rotated_size fits_memory int_of_str (events : list Event) :
  forall self, bounded self ->
  bounded (run_events rotated_size fits_memory int_of_str self events).
Proof.
  unfold run_events. induction events as [|e events IH]; intros self H.
  - exact H.
  - simpl. apply IH, handle_bounded, H.
Qed.

Lemma skipn_S_tl (n : nat) : forall l : list Image,
  skipn (S n) l = tl (skipn n l).
Proof.
  induction n as [|n IH]; intros l.
  - destruct l; reflexivity.
  - destruct l as [|a l]; [reflexivity|]. exact (IH l).
Qed.

Lemma append_bounded_last_n (l : list Image) (img : Image) :
  append_bounded (last_n 10 l) img = last_n 10 (l ++ [img]).
Proof.
  rewrite append_bounded_spec. unfold last_n, max_history.
  rewrite length_skipn, length_app. simpl.
  destruct (Z.of_nat (List.length l - (List.length l - 10)) <? 10) eqn:E.
  - apply Z.ltb_lt in E.
    replace (List.length l - 10)%nat with 0%nat by lia.
    replace (List.length l + 1 - 10)%nat with 0%nat by lia.
    reflexivity.
  - apply Z.ltb_ge in E.
    replace (List.length l + 1 - 10)%nat with (S (List.length l - 10)) by lia.
    rewrite skipn_app.
    replace (S (List.length l - 10) - List.length l)%nat with 0%nat by lia.
    simpl (skipn 0 [img]). f_equal.
    symmetry. apply skipn_S_tl.
Qed.

Lemma edits_history (results : list Image) :
  forall (self : t) (cur : Image) (pushed : list Image),
    current_image self = Some cur ->
    history self = last_n 10 pushed ->
    history (edits results self) =
      last_n 10 (pushed ++ removelast (cur :: results)).
Proof.
  induction results as [|r rest IH]; intros self cur pushed Hc Hh.
  - simpl. rewrite app_nil_r. exact Hh.
  - cbn [edits].
    rewrite (IH _ r (pushed ++ [cur])).
    + rewrite <- app_assoc. reflexivity.
    + unfold on_worker_finished. apply update_preview_images.
    + unfold on_worker_finished.
      rewrite (push_history_some self cur Hc). simpl.
      rewrite Hh. apply append_bounded_last_n.
Qed.

(** C5: in every state the event loop reaches, the undo stack and the redo
    stack hold at most [max_history = 10] snapshots; a push onto a full stack
    evicts index 0; after an image is opened and any number of edits are
    made one after the other, the undo stack holds the most recent ten
    pushed images, in particular exactly ten after 15 pushes. *)
Theorem history_bound :
  (forall rotated_size fits_memory int_of_str lw lh events,
      let self := run_events rotated_size fits_memory int_of_str (init lw lh) events in
      Z.of_nat (List.length (history self)) <= max_history
      /\ Z.of_nat (List.length (redo_history self)) <= max_history)
  /\ (forall l img,
        append_bounded l img =
          if Z.of_nat (List.length l) <? max_history then l ++ [img]
          else tl l ++ [img])
  /\ (forall self img0 results,
        history (edits results (open_image self img0)) =
          last_n 10 (removelast (img0 :: results)))
  /\ (forall self i1 i2 i3 i4 i5 i6 i7 i8 i9 i10 i11 i12 i13 i14 i15 i16,
        history
          (edits [i2; i3; i4; i5; i6; i7; i8; i9; i10; i11; i12; i13; i14;
                  i15; i16] (open_image self i1)) =
          [i6; i7; i8; i9; i10; i11; i12; i13; i14; i15]).
Proof.
  split; [|split; [|split]].
  - intros rs fm ios lw lh events self.
    destruct (run_events_bounded rs fm ios events (init lw lh)) as [Hh Hr].
    { split; simpl; lia. }
    unfold max_history. subst self. lia.
  - exact append_bounded_spec.
  - intros self img0 results.
    rewrite (edits_history results (open_image self img0) img0 []).
    + reflexivity.
    + unfold open_image. apply update_preview_images.
    + unfold open_image.
      destruct (update_preview_images
                  (set_images (set_original self (Some (copy img0)))
                     (Some (copy img0)) [] [])) as (_ & -> & _).
      reflexivity.
  - intros.
    rewrite (edits_history _ (open_image self i1) i1 []).
    + reflexivity.
    + unfold open_image. apply update_preview_images.
    + unfold open_image.
      destruct (update_preview_images
                  (set_images (set_original self (Some (copy i1)))
                     (Some (copy i1)) [] [])) as (_ & -> & _).
      reflexivity.
Qed.

End HistoryBound.

(* ===================================================================== *)
(** * Redo after a fresh edit *)
(* ===================================================================== *)

Section RedoFacts.

Import MainWindow.

Lemma image_tools_crop_total (cur : Image) (left top w h : Z) :
  exists img,
    ImageTools.crop cur left top w h = Return img
    /\ 1 <= width img /\ 1 <= height img.
Proof.
  unfold ImageTools.crop. rewrite pil_crop_ordered by lia.
  eexists. split; [reflexivity|]. simpl. lia.
Qed.

Lemma redo_on_empty (self : t) :
  redo_history self = [] -> redo self = show self information_nothing_to_redo.
Proof. intros H. unfold redo. rewrite H. reflexivity. Qed.

Lemma push_history_redo (self : t) (cur : Image) :
  current_image self = Some cur ->
  redo_history (push_history self) = []
  /\ current_image (push_history self) = Some cur.
Proof. intros H. rewrite (push_history_some self cur H). auto. Qed.

Lemma fresh_edit_clears_redo (self self' : t) (cur : Image) :
  current_image self = Some cur -> fresh_edit self self' ->
  redo_history self' = [].
Proof.
  intros Hc H. destruct (push_history_redo self cur Hc) as [Hr Hp].
  destruct H as [->|[[f ->]|[[a ->]|[(l & t0 & w & h & H)|[[Hb ->]| ->]]]]].
  - exact Hr.
  - unfold apply_scale. rewrite Hc, Hp. exact Hr.
  - unfold apply_rotate. rewrite Hc, Hp. exact Hr.
  - unfold apply_crop_rect in H. rewrite Hc in H.
    destruct (ImageTools.crop cur _ _ _ _) as [img|]; [|discriminate].
    injection H as <-.
    cbn [redo_history set_preview].
    destruct (update_preview_images
                (set_images (push_history self) (Some img)
                   (history (push_history self))
                   (redo_history (push_history self)))) as (_ & _ & -> & _).
    exact Hr.
  - unfold apply_watermark. rewrite Hc, Hb, Hp. exact Hr.
  - unfold apply_filter. rewrite Hc, Hp.
    destruct (current_filter (push_history self)); try exact Hr.
    destruct (update_preview_images (push_history self)) as (_ & _ & -> & _).
    exact Hr.
Qed.

(** C6: a push of a new edit clears the redo stack, whatever undos came
    before; a redo requested after it finds the stack empty, shows the
    nothing-to-redo message and leaves the current image, and both stacks, as
    they were. *)
Theorem redo_after_fresh_edit (self self' : t) (cur : Image) :
  current_image self = Some cur -> fresh_edit self self' ->
  redo_history self' = []
  /\ redo self' = show self' information_nothing_to_redo
  /\ current_image (redo self') = current_image self'
  /\ history (redo self') = history self'
  /\ redo_history (redo self') = []
  /\ dialogs (redo self') = dialogs self' ++ [information_nothing_to_redo].
Proof.
  intros Hc H.
  pose proof (fresh_edit_clears_redo self self' cur Hc H) as Hr.
  rewrite (redo_on_empty self' Hr).
  repeat split; try reflexivity; exact Hr.
Qed.

(** Open an image, edit, undo (the redo stack now holds the edit), then
    request a scale: redo has nothing left. *)
Lemma redo_after_fresh_edit_witness :
  let self := undo (edits [img_400x300] opened_800x600) in
  let self' := apply_scale self 1.2%float in
  redo_history self = [img_400x300]
  /\ redo_history self' = []
  /\ redo self' = show self' information_nothing_to_redo.
Proof.
  intros self self'.
  destruct (redo_after_fresh_edit self self' img_800x600 eq_refl)
    as (H1 & H2 & _).
  { right; left. exists 1.2%float. reflexivity. }
  split; [reflexivity|]. split; assumption.
Defined.

End RedoFacts.

(* ===================================================================== *)
(** * Malformed crop requests *)
(* ===================================================================== *)

Section CropValidation.

Import MainWindow.

(** C9, as stated, fails for a zero-area rectangle: with the fields
    100, 100, 0, 150 on an 800 x 600 image the request is carried out; the
    width is raised to 1, history receives the image and the current image
    becomes the 1 x 150 cut, with no message. *)
Lemma zero_area_crop_counterexample :
  let self := with_crop_fields opened_800x600 "100" "100" "0" "150" in
  exists self' img,
    apply_crop int_of_decimal self = Return self'
    /\ history self = [] /\ history self' = [img_800x600]
    /\ current_image self' = Some img /\ width img = 1 /\ height img = 150
    /\ dialogs self' = [].
Proof.
  intros self. eexists. eexists.
  split; [vm_compute; reflexivity|]. vm_compute. repeat split; reflexivity.
Qed.

(** C9, amended: a crop request with a field that [int()] cannot read is
    rejected before any state change: the warning is shown, and the current
    image and both stacks are as before.  When all four fields are integers
    the request is carried out whatever their values: a zero-area (or
    otherwise out-of-range) rectangle is clamped to at least one pixel
    inside the image, the current image is pushed on the history, and the
    cut becomes the current image. *)
Theorem crop_request_validation int_of_str (self : t) (cur : Image) :
  current_image self = Some cur ->
  ((int_of_str (crop_left self) = None \/ int_of_str (crop_top self) = None
    \/ int_of_str (crop_w self) = None \/ int_of_str (crop_h self) = None) ->
   let self' := show self warning_invalid_crop_parameters in
   apply_crop int_of_str self = Return self'
   /\ current_image self' = current_image self
   /\ history self' = history self
   /\ redo_history self' = redo_history self
   /\ dialogs self' = dialogs self ++ [warning_invalid_crop_parameters])
  /\ (forall left top w h,
        int_of_str (crop_left self) = Some left ->
        int_of_str (crop_top self) = Some top ->
        int_of_str (crop_w self) = Some w ->
        int_of_str (crop_h self) = Some h ->
        exists self' img,
          apply_crop int_of_str self = Return self'
          /\ history self' = append_bounded (history self) cur
          /\ current_image self' = Some img
          /\ 1 <= width img /\ 1 <= height img
          /\ dialogs self' = dialogs self).
Proof.
  intros Hc. split.
  - intros Hbad self'. split; [|simpl; auto].
    unfold apply_crop. rewrite Hc.
    destruct (int_of_str (crop_left self)); [|reflexivity].
    destruct (int_of_str (crop_top self)); [|reflexivity].
    destruct (int_of_str (crop_w self)); [|reflexivity].
    destruct (int_of_str (crop_h self)); [|reflexivity].
    destruct Hbad as [H|[H|[H|H]]]; discriminate.
  - intros left top w h Hl Ht Hw Hh.
    unfold apply_crop. rewrite Hc, Hl, Ht, Hw, Hh.
    unfold apply_crop_rect. rewrite Hc.
    destruct (image_tools_crop_total cur
                (Z.max 0 (Z.min left (width cur - 1)))
                (Z.max 0 (Z.min top (height cur - 1)))
                (Z.max 1 (Z.min w (width cur
                                   - Z.max 0 (Z.min left (width cur - 1)))))
                (Z.max 1 (Z.min h (height cur
                                   - Z.max 0 (Z.min top (height cur - 1))))))
      as (img & Himg & Hiw & Hih).
    rewrite Himg. cbn [bind].
    eexists. exists img. split; [reflexivity|].
    rewrite (push_history_some self cur Hc).
    cbn [history current_image dialogs redo_history set_preview set_images].
    destruct (update_preview_images
                (set_images
                   (set_images self (Some cur)
                      (append_bounded (history self) cur) [])
                   (Some img) (append_bounded (history self) cur) []))
      as (E1 & E2 & _ & E4 & _).
    rewrite E1, E2, E4. simpl. auto.
Qed.

(** A width field that is not a number. *)
Lemma crop_request_validation_witness :
  let self := with_crop_fields opened_800x600 "100" "100" "abc" "150" in
  apply_crop int_of_decimal self
    = Return (show self warning_invalid_crop_parameters)
  /\ history (show self warning_invalid_crop_parameters) = history self.
Proof.
  intros self.
  destruct (crop_request_validation int_of_decimal self img_800x600 eq_refl)
    as [H _].
  destruct H as (H1 & _ & H3 & _).
  { right; right; left. reflexivity. }
  split; assumption.
Defined.

End CropValidation.

(* ===================================================================== *)
(** * The view across an edit *)
(* ===================================================================== *)

Section ViewFacts.

Import MainWindow.

Lemma rezoom_frame (label : CropLabel.t) (pm : QPixmap) (px py zoom : Q) :
  let label' := CropLabel.rezoom label pm px py zoom in
  CropLabel._preview_rotate_angle label' = CropLabel._preview_rotate_angle label
  /\ CropLabel._original_pixmap label' = CropLabel._original_pixmap label
  /\ CropLabel._aspect_ratio label' = CropLabel._aspect_ratio label
  /\ CropLabel.label_width label' = CropLabel.label_width label
  /\ CropLabel.label_height label' = CropLabel.label_height label
  /\ CropLabel._zoom_factor label' = zoom.
Proof.
  unfold CropLabel.rezoom. destruct (_ && _); repeat split; reflexivity.
Qed.

(** C8, as stated, fails: zoom in once on the preview (zoom 1.1, pan
    (30, 20)), request a scale and let its worker finish; after the commit
    the zoom is 1 and the pan (0, 0). *)
Lemma edit_commit_view_counterexample :
  let before := zoom_preview opened_800x600 (mkQPoint 100 100) true in
  let after :=
    thread_ends (fun w h _ => (w, h)) (fun _ _ => true) (apply_scale before 1.2%float) 0 in
  (exists img, current_image after = Some img /\ width img = 960)
  /\ view (preview_label before) = (1.1%Q, 24000 # 800, 12000 # 600, 0%Q)
  /\ view (preview_label after) = (1%Q, 0%Q, 0%Q, 0%Q)
  /\ ~ (CropLabel._zoom_factor (preview_label before)
        == CropLabel._zoom_factor (preview_label after))%Q.
Proof.
  intros before after.
  split; [eexists; split; vm_compute; reflexivity|].
  split; [vm_compute; reflexivity|].
  split; [vm_compute; reflexivity|].
  vm_compute. discriminate.
Qed.

(** C8, amended: committing an edit's result refreshes the preview through
    [set_original_pixmap], which resets zoom to 1, pan to (0, 0) and the
    preview rotation to 0, and then re-applies the zoom slider (when it is
    not at 100) and the rotation spin box (when it is not at 0).  So the
    state after the commit does not depend on the zoom, pan or preview
    rotation before it; the preview rotation is the spin box's value, and
    with the slider at 100 the view is zoom 1 and pan (0, 0). *)
Theorem edit_commit_resets_view (self : t) (img : Image) :
  (forall zoom ox oy angle,
      on_worker_finished
        (set_preview self
           (with_view_and_angle (preview_label self) zoom ox oy angle)
           (rotate_spin self)) img
      = on_worker_finished self img)
  /\ CropLabel._preview_rotate_angle
       (preview_label (on_worker_finished self img))
     = inject_Z (rotate_spin self)
  /\ (s_slider self = 100 ->
      view (preview_label (on_worker_finished self img))
      = (1%Q, 0%Q, 0%Q, inject_Z (rotate_spin self))).
Proof.
  split; [|split].
  - intros zoom ox oy angle. reflexivity.
  - unfold on_worker_finished, update_preview.
    cbn [current_image set_images s_slider rotate_spin preview_label
         set_preview set_workers].
    destruct (rotate_spin self =? 0) eqn:E.
    + apply Z.eqb_eq in E. rewrite E.
      destruct (s_slider self =? 100); [reflexivity|].
      unfold CropLabel.set_zoom_factor.
      cbn [CropLabel._original_pixmap CropLabel.set_original_pixmap
           CropLabel._zoom_factor].
      destruct (Qltb _ _); [reflexivity|].
      cbn [CropLabel._preview_rotate_angle CropLabel.clear_selection].
      apply rezoom_frame.
    + reflexivity.
  - intros Hs. unfold on_worker_finished, update_preview, view.
    cbn [current_image set_images s_slider rotate_spin preview_label
         set_preview set_workers].
    rewrite Hs. simpl (100 =? 100).
    destruct (rotate_spin self =? 0) eqn:E.
    + apply Z.eqb_eq in E. rewrite E. reflexivity.
    + reflexivity.
Qed.

End ViewFacts.

(* ===================================================================== *)
(** * Requests that overlap a running worker *)
(* ===================================================================== *)

Section WorkerFacts.

Import MainWindow.

(** C1 does not hold of [apply_scale]: a second request made while the
    first worker is still running does not wait for it.  Both threads run
    at once on the same source image, history receives that image twice,
    the first completion drops [self.worker] although a thread is still
    running, and the last completion leaves the image scaled once
    (960 x 720), not twice (1152 x 864). *)
Lemma overlapping_scale_requests :
  let rotated_size := fun (w h _ : Z) => (w, h) in
  let fits_memory := fun (_ _ : Z) => true in
  let s1 := apply_scale opened_800x600 1.2%float in
  let s2 := apply_scale s1 1.2%float in
  let s3 := thread_ends rotated_size fits_memory s2 0 in
  let s4 := thread_ends rotated_size fits_memory s3 0 in
  running s1 = [mkWorker (scale 1.2%float) img_800x600]
  /\ running s2 = [mkWorker (scale 1.2%float) img_800x600;
                   mkWorker (scale 1.2%float) img_800x600]
  /\ history s2 = [img_800x600; img_800x600]
  /\ worker s3 = None
  /\ running s3 = [mkWorker (scale 1.2%float) img_800x600]
  /\ running s4 = []
  /\ current_image s4 = Some (mkImage RGB 960 720 (Resized (Decoded 0) 960 720)).
Proof. vm_compute. repeat split; reflexivity. Qed.

End WorkerFacts.

(* ===================================================================== *)
(** * screen_to_image_coords *)
(* ===================================================================== *)

Section CoordinateFacts.

Import CropLabel.

Lemma scaled_size_cases (pm : QPixmap) (w h : Z) :
  (isNull pm || (w <=? 0) || (h <=? 0) = true
   /\ scaled pm w h = null_pixmap)
  \/ (isNull pm || (w <=? 0) || (h <=? 0) = false
      /\ 1 <= pm_width (scaled pm w h) /\ 1 <= pm_height (scaled pm w h)).
Proof.
  unfold scaled. destruct (isNull pm); [left; split; reflexivity|].
  destruct (w <=? 0); [left; split; reflexivity|].
  destruct (h <=? 0); [left; split; reflexivity|].
  right. split; [reflexivity|].
  destruct (QSize_scaled_KeepAspectRatio _ _ _ _) as [nw nh]. simpl. lia.
Qed.

Lemma isNull_false (pm : QPixmap) :
  isNull pm = false -> 1 <= pm_width pm /\ 1 <= pm_height pm.
Proof.
  unfold isNull. intros H. apply orb_false_iff in H as [H1 H2].
  apply Z.leb_gt in H1, H2. lia.
Qed.

Lemma clamp_bounds (v hi : Z) : 0 <= hi -> 0 <= clamp 0 v hi <= hi.
Proof. unfold clamp. lia. Qed.

End CoordinateFacts.

(* ===================================================================== *)
(** * screen_to_image_coords in binary64 *)
(* ===================================================================== *)

Section CoordinateFacts64.

Import CropLabel64.
Local Open Scope py_scope.

Lemma clamp64_bounds (v hi : Z) : 0 <= hi -> 0 <= clamp 0 v hi <= hi.
Proof. unfold clamp. lia. Qed.

(** C3, as stated, fails in the "only if" direction: an 8 x 8 image is
    shown and the slider is moved to 10.  The zoom factor is 0.1,
    [int(8 * 0.1)] is 0, the scaled pixmap is null and the conversion
    returns [None] although an image is loaded. *)
Lemma screen_to_image_coords_counterexample :
  let loaded := set_original_pixmap (init 800 600) (mkQPixmap 8 8) in
  exists self,
    slider_moved loaded 10 = Return self
    /\ _original_pixmap self = Some (mkQPixmap 8 8)
    /\ zoomed 8 (_zoom_factor self) = Return 0
    /\ screen_to_image_coords self (mkQPoint 400 300) = Return None.
Proof.
  eexists. split; [vm_compute; reflexivity|].
  split; [reflexivity|]. split; vm_compute; reflexivity.
Qed.

(** C3, amended, in the arithmetic of the interpreter, for views and
    pointer positions that Qt can hold.
    [screen_to_image_coords] returns [None] exactly when no pixmap is set,
    the pixmap is null, or a side of the zoomed size
    [int(width * zoom) x int(height * zoom)] is not positive.  It raises
    only where a float is not finite or an int does not fit Qt: [int()] of
    a product [width * zoom] or [height * zoom] that is an infinity or a
    NaN, a zoomed side beyond a C int, or [round()] of a coordinate that is
    an infinity or a NaN.  Otherwise, for every screen point, inside the
    displayed bitmap or not, it returns the point whose coordinates are
    [(screen - origin) / scaled_size * image_size], computed in binary64,
    rounded to the nearest integer (ties to even) and clamped into
    [[0, width - 1] x [0, height - 1]]. *)
Theorem screen_to_image_coords_spec (self : t) (p : QPoint) :
  qt_ranged self p ->
  match _original_pixmap self with
  | None => screen_to_image_coords self p = Return None
  | Some pm =>
      let zoom := _zoom_factor self in
      match zoomed (pm_width pm) zoom, zoomed (pm_height pm) zoom with
      | Raise e, _ => screen_to_image_coords self p = Raise e
      | Return _, Raise e => screen_to_image_coords self p = Raise e
      | Return scaled_width, Return scaled_height =>
          if negb (fits_int scaled_width && fits_int scaled_height)
          then screen_to_image_coords self p = Raise OverflowError
          else if isNull pm || (scaled_width <=? 0) || (scaled_height <=? 0)
          then screen_to_image_coords self p = Return None
          else
            let sp := scaled pm scaled_width scaled_height in
            let fx := unscaled (x p) (label_width self) (pm_width sp)
                        (_offset_x self) (pm_width pm) in
            let fy := unscaled (y p) (label_height self) (pm_height sp)
                        (_offset_y self) (pm_height pm) in
            match round_of_float fx, round_of_float fy with
            | Raise e, _ => screen_to_image_coords self p = Raise e
            | Return _, Raise e => screen_to_image_coords self p = Raise e
            | Return orig_x, Return orig_y =>
                exists q,
                  screen_to_image_coords self p = Return (Some q)
                  /\ x q = clamp 0 orig_x (pm_width pm - 1)
                  /\ y q = clamp 0 orig_y (pm_height pm - 1)
                  /\ 0 <= x q <= pm_width pm - 1
                  /\ 0 <= y q <= pm_height pm - 1
            end
      end
  end.
Proof.
  intros _. unfold screen_to_image_coords.
  destruct (_original_pixmap self) as [pm|]; [|reflexivity].
  cbv zeta. unfold scaled_pixmap.
  destruct (zoomed (pm_width pm) (_zoom_factor self)) as [sw|e]; [|reflexivity].
  destruct (zoomed (pm_height pm) (_zoom_factor self)) as [sh|e]; [|reflexivity].
  cbn [bind].
  destruct (fits_int sw && fits_int sh); cbn [negb bind]; [|reflexivity].
  destruct (scaled_size_cases pm sw sh) as [[Hc Hs]|(Hc & Hw & Hh)]; rewrite Hc.
  - rewrite Hs. reflexivity.
  - assert (Hn : isNull pm = false).
    { destruct (isNull pm); [discriminate Hc | reflexivity]. }
    apply isNull_false in Hn.
    destruct (0 <? pm_width _) eqn:E1; [|apply Z.ltb_ge in E1; lia].
    destruct (0 <? pm_height _) eqn:E2; [|apply Z.ltb_ge in E2; lia].
    cbn [andb]. unfold num_div. cbn [num_is_zero].
    destruct (pm_width (scaled pm sw sh) =? 0) eqn:Z1;
      [apply Z.eqb_eq in Z1; lia|].
    destruct (pm_height (scaled pm sw sh) =? 0) eqn:Z2;
      [apply Z.eqb_eq in Z2; lia|].
    cbn [bind num_mul to_float num_round]. unfold unscaled.
    destruct (round_of_float _) as [cx|e]; [|reflexivity].
    destruct (round_of_float _) as [cy|e]; [|reflexivity].
    cbn [bind]. eexists. split; [reflexivity|]. cbn [x y].
    split; [reflexivity|]. split; [reflexivity|].
    split; apply clamp64_bounds; lia.
Qed.

(** An 800 x 600 image just shown in an 800 x 600 label: the centre of
    the label is over the centre of the image. *)
Lemma screen_to_image_coords_spec_witness :
  let self := set_original_pixmap (init 800 600) (mkQPixmap 800 600) in
  exists q,
    screen_to_image_coords self (mkQPoint 400 300) = Return (Some q)
    /\ x q = 400 /\ y q = 300
    /\ 0 <= x q <= 799 /\ 0 <= y q <= 599.
Proof.
  intros self.
  assert (R : qt_ranged self (mkQPoint 400 300)).
  { repeat split; try reflexivity; cbn; lia. }
  exact (screen_to_image_coords_spec self (mkQPoint 400 300) R).
Defined.

(** The two readings of the arithmetic differ on views the slider
    reaches.  An 800 x 600 image with the slider at 29: in binary64
    [800 * 0.29] is just below 232, the displayed bitmap is 231 x 173 and
    the centre of the label converts to (400, 302); with exact rationals
    the bitmap is 232 x 174 and the centre converts to (400, 300). *)
Lemma slider_29_readings :
  let loaded := set_original_pixmap (init 800 600) (mkQPixmap 800 600) in
  (exists self,
      slider_moved loaded 29 = Return self
      /\ scaled_pixmap (mkQPixmap 800 600) (_zoom_factor self)
         = Return (mkQPixmap 231 173)
      /\ screen_to_image_coords self (mkQPoint 400 300)
         = Return (Some (mkQPoint 400 302)))
  /\ (let exact :=
        CropLabel.set_zoom_factor
          (CropLabel.set_original_pixmap (CropLabel.init 800 600)
             (mkQPixmap 800 600))
          (29 # 100) in
      CropLabel.scaled_pixmap (mkQPixmap 800 600)
        (CropLabel._zoom_factor exact) = mkQPixmap 232 174
      /\ CropLabel.screen_to_image_coords exact (mkQPoint 400 300)
         = Some (mkQPoint 400 300)).
Proof.
  split.
  - eexists. split; [vm_compute; reflexivity|].
    split; vm_compute; reflexivity.
  - split; vm_compute; reflexivity.
Qed.

(** The failing input of C2 in binary64: the pivot (300, 200) is over
    column 248 before the zoom step and over column 250 after it; on the
    view the slider reaches at 38 it goes from 247 to 249. *)
Lemma zoom_pivot_drift_binary64 :
  let loaded := set_original_pixmap (init 800 600) (mkQPixmap 1024 768) in
  let p := mkQPoint 300 200 in
  (exists self',
      zoom_at_point (with_view loaded 0.38 (Int 0) (Int 0)) p true = Return self'
      /\ screen_to_image_coords (with_view loaded 0.38 (Int 0) (Int 0)) p
         = Return (Some (mkQPoint 248 121))
      /\ screen_to_image_coords self' p = Return (Some (mkQPoint 250 121)))
  /\ (exists self self',
         slider_moved loaded 38 = Return self
         /\ zoom_at_point self p true = Return self'
         /\ screen_to_image_coords self p = Return (Some (mkQPoint 247 120))
         /\ screen_to_image_coords self' p = Return (Some (mkQPoint 249 120))).
Proof.
  split.
  - eexists. split; [vm_compute; reflexivity|].
    split; vm_compute; reflexivity.
  - do 2 eexists. split; [vm_compute; reflexivity|].
    split; [vm_compute; reflexivity|].
    split; vm_compute; reflexivity.
Qed.

(** A zoom step between two views whose displayed pixmaps have exactly the
    sizes the zoom code computes with can still move the pivot by a pixel
    in binary64: an 800 x 600 image, the slider at 200, one zoom-in step
    at (83, 300); the pivot is over column 242 before and 241 after. *)
Lemma nominal_zoom_step_binary64 :
  let loaded := set_original_pixmap (init 800 600) (mkQPixmap 800 600) in
  let p := mkQPoint 83 300 in
  exists self self',
    slider_moved loaded 200 = Return self
    /\ zoom_at_point self p true = Return self'
    /\ scaled_pixmap (mkQPixmap 800 600) (_zoom_factor self)
       = Return (mkQPixmap 1600 1200)
    /\ scaled_pixmap (mkQPixmap 800 600) (_zoom_factor self')
       = Return (mkQPixmap 1760 1320)
    /\ zoomed 800 (_zoom_factor self') = Return 1760
    /\ zoomed 600 (_zoom_factor self') = Return 1320
    /\ screen_to_image_coords self p = Return (Some (mkQPoint 242 300))
    /\ screen_to_image_coords self' p = Return (Some (mkQPoint 241 300)).
Proof.
  do 2 eexists. split; [vm_compute; reflexivity|].
  split; [vm_compute; reflexivity|].
  repeat split; vm_compute; reflexivity.
Qed.

End CoordinateFacts64.

(* ===================================================================== *)
(** * zoom_at_point *)
(* ===================================================================== *)

Section ZoomFacts.

Import CropLabel.

Local Open Scope Q_scope.

Lemma round_Qeq (a b : Q) : a == b -> round a = round b.
Proof.
  intros H. unfold round.
  rewrite (Qfloor_comp a b H).
  assert (E : (a - inject_Z (Qfloor b) ?= 1 # 2)
              = (b - inject_Z (Qfloor b) ?= 1 # 2)).
  { apply Qcompare_comp; [rewrite H|]; reflexivity. }
  rewrite E. reflexivity.
Qed.

(** C2 does not hold of [zoom_at_point]: a 1024 x 768 image in an
    800 x 600 label at zoom 0.38 with no pan, pivot (300, 200), one zoom-in
    step.  The displayed pixmap is 388 x 291 ([KeepAspectRatio] inside
    389 x 291) while the zoom code computes with [int(1024 * 0.38) = 389];
    the pivot is over image column 248 before the step and over column 250
    after it. *)
Lemma zoom_pivot_drift :
  let self := label_showing 1024 768 800 600 (38 # 100) 0 0 in
  let p := mkQPoint 300 200 in
  let self' := zoom_at_point self p true in
  scaled_pixmap (mkQPixmap 1024 768) (38 # 100) = mkQPixmap 388 291
  /\ int_of_Q (inject_Z 1024 * (38 # 100)) = 389%Z
  /\ screen_to_image_coords self p = Some (mkQPoint 248 121)
  /\ _zoom_factor self' == 418 # 1000
  /\ screen_to_image_coords self' p = Some (mkQPoint 250 121).
Proof. vm_compute. repeat split; reflexivity. Qed.

Lemma zoomed_in_place (origin shift ratio size : Q) :
  ~ size == 0 ->
  (origin - (shift + (origin - ratio * size - shift))) / size == ratio.
Proof. intros H. field. exact H. Qed.

Lemma inject_Z_pos_nonzero (n : Z) : (0 < n)%Z -> ~ inject_Z n == 0.
Proof.
  intros H E. assert (H0 : inject_Z 0 < inject_Z n) by (rewrite <- Zlt_Qlt; exact H).
  rewrite E in H0. apply (Qlt_irrefl _ H0).
Qed.

(** What [zoom_at_point] is written to do.  Read with exact arithmetic it
    does so whenever the displayed pixmaps have the sizes it computes with:
    the image point under the pivot is then the same before and after the
    step.  In binary64 the pivot can still move by a pixel
    ([nominal_zoom_step_binary64] above), which C2 allows; the drift of
    two pixels above comes from the sizes. *)
Lemma zoom_at_point_keeps_pivot_when_nominal
    (self : t) (pm : QPixmap) (p : QPoint) (zoom_in : bool) :
  _original_pixmap self = Some pm ->
  nominal pm (_zoom_factor self) ->
  nominal pm (_zoom_factor (zoom_at_point self p zoom_in)) ->
  screen_to_image_coords (zoom_at_point self p zoom_in) p
  = screen_to_image_coords self p.
Proof.
  intros Hpm. unfold zoom_at_point. rewrite Hpm.
  destruct (Qltb _ _); [reflexivity|].
  set (nz := stepped_zoom (_zoom_factor self) zoom_in).
  intros (Hw & Hh & Hwp & Hhp). unfold rezoom.
  rewrite Hw in Hwp. rewrite Hh in Hhp.
  apply Z.ltb_lt in Hwp as Ewp. apply Z.ltb_lt in Hhp as Ehp.
  rewrite Ewp, Ehp. cbn [andb].
  cbn [_zoom_factor with_view].
  intros (Hw' & Hh' & Hwp' & Hhp').
  unfold screen_to_image_coords.
  cbn [_original_pixmap _zoom_factor _offset_x _offset_y label_width
       label_height with_view].
  rewrite Hpm, Hw, Hh, Hw', Hh'.
  rewrite Hw' in Hwp'. rewrite Hh' in Hhp'.
  apply Z.ltb_lt in Hwp' as Ewp'. apply Z.ltb_lt in Hhp' as Ehp'.
  rewrite Ewp, Ehp, Ewp', Ehp'. cbn [andb].
  f_equal. f_equal.
  - f_equal. apply round_Qeq.
    rewrite zoomed_in_place by (apply inject_Z_pos_nonzero; exact Hwp').
    reflexivity.
  - f_equal. apply round_Qeq.
    rewrite zoomed_in_place by (apply inject_Z_pos_nonzero; exact Hhp').
    reflexivity.
Qed.

End ZoomFacts.

(* ===================================================================== *)
(** * screen_rect_to_image_rect under a locked aspect ratio *)
(* ===================================================================== *)

Section SelectionFacts.

Import CropLabel.

Lemma Qgtb_lt (x y : Q) : Qgtb x y = true <-> (y < x)%Q.
Proof. unfold Qgtb. apply Qltb_lt. Qed.

Lemma Qgtb_le (x y : Q) : Qgtb x y = false <-> (x <= y)%Q.
Proof. unfold Qgtb. apply Qltb_ge. Qed.

Lemma inject_Z_pos (n : Z) : 1 <= n -> (0 < inject_Z n)%Q.
Proof. intros H. change 0%Q with (inject_Z 0). rewrite <- Zlt_Qlt. lia. Qed.

Lemma div_gt_mul (a w b : Q) : (0 < b -> a < w / b -> b * a < w)%Q.
Proof.
  intros Hb H.
  assert (E : (w / b * b == w)%Q) by (field; lra).
  assert (H1 : (a * b < w / b * b)%Q) by (apply Qmult_lt_compat_r; assumption).
  rewrite E in H1. lra.
Qed.

Lemma div_le_swap (a w b : Q) : (0 < a -> 0 < b -> w / b <= a -> w / a <= b)%Q.
Proof.
  intros Ha Hb H.
  assert (E : (w / b * b == w)%Q) by (field; lra).
  assert (H1 : (w / b * b <= a * b)%Q) by (apply Qmult_le_compat_r; lra).
  rewrite E in H1.
  apply Qle_shift_div_r; [exact Ha|]. lra.
Qed.

Lemma truediv_nonzero (x y : Q) : (~ y == 0)%Q -> truediv x y = Return (x / y)%Q.
Proof.
  intros H. unfold truediv. destruct (Qeq_bool y 0) eqn:E; [|reflexivity].
  apply Qeq_bool_iff in E. contradiction.
Qed.

Lemma final_stage (a : Q) (W H : Z) (r0 r : Z * Z * Z * Z) :
  (0 < a)%Q -> 1 <= W -> 1 <= H ->
  final_ratio (Some a) W H (final_bounds W H r0) = Return r ->
  locked_ok a W H r.
Proof.
  intros Ha HW HH. destruct r0 as [[[l0 t0] w0] h0].
  unfold final_bounds.
  set (l := Z.max 0 (Z.min l0 (W - 1))).
  set (t := Z.max 0 (Z.min t0 (H - 1))).
  set (w := Z.max 1 (Z.min w0 (W - l))).
  set (h := Z.max 1 (Z.min h0 (H - t))).
  assert (Hl : 0 <= l <= W - 1) by (subst l; lia).
  assert (Ht : 0 <= t <= H - 1) by (subst t; lia).
  assert (Hw : 1 <= w <= W - l) by (subst w; lia).
  assert (Hh : 1 <= h <= H - t) by (subst h; lia).
  clearbody l t w h. clear l0 t0 w0 h0.
  pose proof (inject_Z_pos w (proj1 Hw)) as Hwq.
  pose proof (inject_Z_pos h (proj1 Hh)) as Hhq.
  unfold final_ratio.
  destruct (0 <? h) eqn:E0; [|apply Z.ltb_ge in E0; lia].
  destruct (Qgtb (Qabs _) (1 # 100)) eqn:E1.
  - destruct (Qgtb (inject_Z w / inject_Z h) a) eqn:E2.
    + apply Qgtb_lt in E2. apply div_gt_mul in E2; [|exact Hhq].
      assert (Hr : round (inject_Z h * a) <= w) by (apply round_le_Z; lra).
      assert (Hr0 : 0 <= round (inject_Z h * a)).
      { apply round_ge_Z. change (inject_Z 0) with 0%Q.
        apply Qmult_le_0_compat; lra. }
      destruct (W <? l + round (inject_Z h * a)) eqn:E3;
        [apply Z.ltb_lt in E3; lia|].
      intros R. injection R as <-. unfold locked_ok.
      repeat split; try lia.
      right; left. split; [lia|]. apply round_close.
    + apply Qgtb_le in E2.
      rewrite truediv_nonzero by lra. cbn [bind].
      assert (Hq : (inject_Z w / a <= inject_Z h)%Q)
        by (apply div_le_swap; assumption).
      assert (Hr : round (inject_Z w / a) <= h) by (apply round_le_Z; exact Hq).
      assert (Hr0 : 0 <= round (inject_Z w / a)).
      { apply round_ge_Z. change (inject_Z 0) with 0%Q.
        apply Qle_shift_div_l; lra. }
      destruct (H <? t + round (inject_Z w / a)) eqn:E3;
        [apply Z.ltb_lt in E3; lia|].
      intros R. injection R as <-. unfold locked_ok.
      repeat split; try lia.
      right; right. split; [lia|]. apply round_close.
  - apply Qgtb_le in E1.
    intros R. injection R as <-. unfold locked_ok.
    repeat split; try lia.
    left. repeat split; try lia. exact E1.
Qed.

Lemma screen_rect_to_image_rect_inv (self : t) (pm : QPixmap) (sr r : QRect) :
  _original_pixmap self = Some pm ->
  screen_rect_to_image_rect self sr = Return (Some r) ->
  1 <= pm_width pm /\ 1 <= pm_height pm
  /\ exists r0 l t w h,
      final_ratio (_aspect_ratio self) (pm_width pm) (pm_height pm)
        (final_bounds (pm_width pm) (pm_height pm) r0) = Return (l, t, w, h)
      /\ r = QRect_xywh l t w h.
Proof.
  intros Hpm. unfold screen_rect_to_image_rect. rewrite Hpm. cbv zeta.
  destruct (_ || _ || _ || _); [discriminate|].
  destruct ((0 <? _) && (0 <? _)) eqn:Epos; [|discriminate].
  apply andb_true_iff in Epos as [Ew Eh]. apply Z.ltb_lt in Ew, Eh.
  assert (Hn : 1 <= pm_width pm /\ 1 <= pm_height pm).
  { unfold scaled_pixmap in Ew.
    destruct (scaled_size_cases pm
                (int_of_Q (inject_Z (pm_width pm) * _zoom_factor self))
                (int_of_Q (inject_Z (pm_height pm) * _zoom_factor self)))
      as [[Hc Hs]|(Hc & _)].
    - rewrite Hs in Ew. simpl in Ew. lia.
    - apply isNull_false. destruct (isNull pm); [discriminate Hc|reflexivity]. }
  destruct (lock_ratio _ _ _) as [wh|]; [|discriminate]. cbn [bind].
  destruct (_ || _); [discriminate|].
  destruct (shrink_inside _ _ _ _ _ _ _) as [r0|]; [|discriminate]. cbn [bind].
  destruct (final_ratio _ _ _ _) as [[[[l t0] w] h]|] eqn:E; [|discriminate].
  cbn [bind]. intros R. injection R as <-.
  split; [apply Hn|]. split; [apply Hn|].
  exists r0, l, t0, w, h. split; [exact E | reflexivity].
Qed.

(** C4, as stated, fails: whole pixels cannot keep a ratio within 0.01.
    With the ratio locked to 16:9 at zoom 1, the rectangle a drag from
    (100, 100) to (114, 107) leaves (15 x 8 on screen) converts to 14 x 8
    image pixels, a rectangle the editor accepts, and
    [|14/8 - 16/9| = 1/36 >= 0.01]. *)
Lemma locked_selection_counterexample :
  let wide := with_aspect (label_showing 800 600 800 600 1 0 0) (16 # 9) in
  screen_rect_to_image_rect wide
    (QRect_points (mkQPoint 100 100) (mkQPoint 114 107))
  = Return (Some (QRect_xywh 100 99 14 8))
  /\ 5 <= rect_width (QRect_xywh 100 99 14 8)
  /\ 5 <= rect_height (QRect_xywh 100 99 14 8)
  /\ ~ (Qabs (inject_Z 14 / inject_Z 8 - (16 # 9)) < 1 # 100)%Q.
Proof.
  intros wide. split; [|split; [|split]].
  - vm_compute. reflexivity.
  - vm_compute. discriminate.
  - vm_compute. discriminate.
  - vm_compute. intros H. discriminate H.
Qed.

(** A slip of the conversion, against its own guard: lines 805-808 make
    both sides at least 1, and the final ratio check after them (lines
    811-824) derives one side again with [round], which can take it to 0.
    With the ratio locked to 21:9 at zoom 3 the 4 x 2 rectangle of a drag
    from (100, 100) to (103, 101) converts to width 1 and height 0.  The
    editor never uses such a rectangle: [on_selection_finished] discards
    what is smaller than 5 x 5. *)
Lemma final_ratio_check_slip :
  let cinema := with_aspect (label_showing 800 600 800 600 3 0 0) (21 # 9) in
  screen_rect_to_image_rect cinema
    (QRect_points (mkQPoint 100 100) (mkQPoint 103 101))
  = Return (Some (QRect_xywh 300 233 1 0))
  /\ rect_height (QRect_xywh 300 233 1 0) = 0.
Proof. intros cinema. split; [vm_compute; reflexivity | reflexivity]. Qed.

Lemma locked_sides (a : Q) (W H : Z) (r : Z * Z * Z * Z) :
  (1 # 2 < a)%Q -> (a < 2)%Q -> locked_ok a W H r ->
  let '(l, t, w, h) := r in 1 <= w /\ 1 <= h.
Proof.
  intros Ha1 Ha2. destruct r as [[[l t] w] h]. unfold locked_ok.
  intros (Hl & Ht & Hw & Hh & Hlw & Hth & [(H1 & H2 & _)|[(H1 & H2)|(H1 & H2)]]).
  - lia.
  - assert (Hp : (1 <= inject_Z h)%Q).
    { change 1%Q with (inject_Z 1). rewrite <- Zle_Qle. exact H1. }
    assert (Hq : (0 < inject_Z w)%Q).
    { apply Qabs_Qle_condition in H2 as [H2 _].
      assert (1 # 2 < inject_Z h * a)%Q.
      { apply Qlt_le_trans with (y := (1 * a)%Q); [lra|].
        apply Qmult_le_compat_r; lra. }
      lra. }
    change 0%Q with (inject_Z 0) in Hq. rewrite <- Zlt_Qlt in Hq. lia.
  - assert (Hp : (1 <= inject_Z w)%Q).
    { change 1%Q with (inject_Z 1). rewrite <- Zle_Qle. exact H1. }
    assert (Hq : (0 < inject_Z h)%Q).
    { apply Qabs_Qle_condition in H2 as [H2 _].
      assert (1 # 2 < inject_Z w / a)%Q.
      { apply Qlt_shift_div_l; lra. }
      lra. }
    change 0%Q with (inject_Z 0) in Hq. rewrite <- Zlt_Qlt in Hq. lia.
Qed.

(** C4, amended: for every locked ratio [a > 0] and every screen rectangle,
    the image rectangle that [screen_rect_to_image_rect] returns lies inside
    the image ([0 <= left], [0 <= top], [left + width <= imageWidth],
    [top + height <= imageHeight]); its width and height are at least 1
    for every ratio with [1/2 < a < 2], which are all the presets but
    21:9; and its sides have the locked ratio up to the rounding of one
    side to a whole pixel: [|width/height - a| <= 0.01] with both sides at
    least 1, or [height >= 1] and [|width - height * a| <= 1/2], or
    [width >= 1] and [|height - width / a| <= 1/2]. *)
Theorem locked_selection_within_image
    (self : t) (pm : QPixmap) (a : Q) (screen_rect r : QRect) :
  _original_pixmap self = Some pm ->
  _aspect_ratio self = Some a -> (0 < a)%Q ->
  screen_rect_to_image_rect self screen_rect = Return (Some r) ->
  let w := rect_width r in
  let h := rect_height r in
  (0 <= Qt.left r /\ 0 <= Qt.top r
   /\ Qt.left r + w <= pm_width pm /\ Qt.top r + h <= pm_height pm)
  /\ ((1 # 2 < a)%Q -> (a < 2)%Q -> 1 <= w /\ 1 <= h)
  /\ ((1 <= w /\ 1 <= h
       /\ (Qabs (inject_Z w / inject_Z h - a) <= 1 # 100)%Q)
      \/ (1 <= h /\ (Qabs (inject_Z w - inject_Z h * a) <= 1 # 2)%Q)
      \/ (1 <= w /\ (Qabs (inject_Z h - inject_Z w / a) <= 1 # 2)%Q)).
Proof.
  intros Hpm Ha Hpos Hr.
  destruct (screen_rect_to_image_rect_inv self pm screen_rect r Hpm Hr)
    as (HW & HH & r0 & l & t0 & w0 & h0 & E & ->).
  rewrite Ha in E.
  pose proof (final_stage a _ _ r0 _ Hpos HW HH E) as Hok.
  unfold Qt.left, Qt.top, rect_width, rect_height, QRect_xywh.
  cbn [x1 y1 x2 y2]. cbv zeta.
  replace (l + w0 - 1 - l + 1) with w0 by lia.
  replace (t0 + h0 - 1 - t0 + 1) with h0 by lia.
  split; [|split].
  - unfold locked_ok in Hok. lia.
  - intros H1 H2. apply (locked_sides a _ _ (l, t0, w0, h0) H1 H2 Hok).
  - apply Hok.
Qed.

(** A 16:9 selection of 321 x 181 screen pixels at zoom 1. *)
Lemma locked_selection_within_image_witness :
  let self := with_aspect (label_showing 800 600 800 600 1 0 0) (16 # 9) in
  let r := QRect_xywh 100 100 321 181 in
  screen_rect_to_image_rect self
    (QRect_points (mkQPoint 100 100) (mkQPoint 420 280)) = Return (Some r)
  /\ Qt.left r + rect_width r <= 800 /\ Qt.top r + rect_height r <= 600.
Proof.
  intros self r.
  assert (E : screen_rect_to_image_rect self
                (QRect_points (mkQPoint 100 100) (mkQPoint 420 280))
              = Return (Some r)) by (vm_compute; reflexivity).
  split; [exact E|].
  destruct (locked_selection_within_image self (mkQPixmap 800 600) (16 # 9)
              _ r eq_refl eq_refl eq_refl E)
    as ((_ & _ & Hw & Hh) & _).
  split; assumption.
Defined.

End SelectionFacts.

(* ===================================================================== *)
(** * screen_rect_to_image_rect in binary64 *)
(* ===================================================================== *)

Section SelectionFacts64.

Import CropLabel64.

(** The two selections above give the same rectangles in binary64: the
    16:9 drag a 14 x 8 rectangle, the 21:9 drag at zoom 3 a rectangle of
    width 1 and height 0. *)
Lemma locked_selection_binary64 :
  let loaded := set_original_pixmap (init 800 600) (mkQPixmap 800 600) in
  screen_rect_to_image_rect
    (with_aspect loaded (Some (16 / 9)%float))
    (QRect_points (mkQPoint 100 100) (mkQPoint 114 107))
  = Return (Some (QRect_xywh 100 99 14 8))
  /\ screen_rect_to_image_rect
       (with_aspect (with_view loaded 3 (Int 0) (Int 0)) (Some (21 / 9)%float))
       (QRect_points (mkQPoint 100 100) (mkQPoint 103 101))
     = Return (Some (QRect_xywh 300 233 1 0)).
Proof. split; vm_compute; reflexivity. Qed.

(** A locked ratio is a float, and a float can overflow: with the ratio
    -1e308 the product [img_h * ratio] is an infinity and [round()] raises
    [OverflowError].  No preset of [on_crop_ratio_changed] is that
    large. *)
Lemma locked_selection_overflow_binary64 :
  let loaded := set_original_pixmap (init 800 600) (mkQPixmap 800 600) in
  screen_rect_to_image_rect
    (with_aspect loaded (Some (-1e308)%float))
    (QRect_points (mkQPoint 100 100) (mkQPoint 300 250))
  = Raise OverflowError.
Proof. vm_compute. reflexivity. Qed.

End SelectionFacts64.

(* ===================================================================== *)
(** * Undo and redo as round trips *)
(* ===================================================================== *)

Section UndoRedoFacts.
Import MainWindow.

(** A refresh of the preview overwrites everything of the label but its
    frame. *)
Lemma refreshed_label (l l' : CropLabel.t) (pix : QPixmap) (slider spin : Z) :
  same_frame l l' ->
  let paint l :=
    let label := CropLabel.set_original_pixmap l pix in
    let label :=
      if slider =? 100 then label
      else CropLabel.set_zoom_factor label (inject_Z slider / 100)%Q in
    let label :=
      if spin =? 0 then label
      else CropLabel.set_preview_rotate_angle label (inject_Z spin) in
    CropLabel.clear_selection label in
  paint l' = paint l.
Proof.
  intros (Ha & Hw & Hlw & Hlh). destruct l, l'. cbn in Ha, Hw, Hlw, Hlh. subst.
  cbn zeta.
  unfold CropLabel.set_zoom_factor, CropLabel.rezoom, CropLabel.set_original_pixmap.
  cbn [CropLabel._original_pixmap CropLabel._zoom_factor CropLabel.label_width
       CropLabel.label_height CropLabel._offset_x CropLabel._offset_y].
  destruct (slider =? 100), (spin =? 0);
    repeat match goal with
    | |- context [if ?c then _ else _] => destruct c
    end; reflexivity.
Qed.

Lemma update_preview_label (self : t) (l' : CropLabel.t) :
  same_frame (preview_label self) l' ->
  update_preview (set_preview self l' (rotate_spin self)) = update_preview self.
Proof.
  intros Hf. unfold update_preview.
  cbn [set_preview current_image preview_label s_slider rotate_spin].
  destruct (current_image self) as [img|].
  - pose proof (refreshed_label _ _ (pil_to_qpixmap img) (s_slider self)
                  (rotate_spin self) Hf) as E.
    cbn zeta in E. rewrite E. reflexivity.
  - destruct Hf as (Ha & Hw & Hlw & Hlh).
    destruct self, preview_label0, l'. cbn in *. subst. reflexivity.
Qed.

Lemma update_preview_frame (self : t) :
  same_frame (preview_label self) (preview_label (update_preview self)).
Proof.
  unfold update_preview, same_frame.
  destruct (current_image self) as [img|]; cbn [set_preview preview_label].
  - destruct (s_slider self =? 100), (rotate_spin self =? 0);
      unfold CropLabel.set_zoom_factor, CropLabel.rezoom;
      cbn [CropLabel.clear_selection CropLabel.set_preview_rotate_angle
           CropLabel.set_original_pixmap CropLabel._aspect_ratio
           CropLabel._watermark_mode CropLabel.label_width
           CropLabel.label_height CropLabel._original_pixmap];
      repeat match goal with
      | |- context [if ?c then _ else _] => destruct c
      end; cbn; auto.
  - cbn. auto.
Qed.

Lemma update_preview_as_set_preview (self : t) :
  update_preview self
  = set_preview self (preview_label (update_preview self)) (rotate_spin self).
Proof.
  unfold update_preview. destruct (current_image self); reflexivity.
Qed.

Lemma set_images_same (self : t) :
  set_images self (current_image self) (history self) (redo_history self) = self.
Proof. destruct self; reflexivity. Qed.

Lemma append_bounded_room (l : list Image) (img : Image) :
  (List.length l < 10)%nat -> append_bounded l img = l ++ [img].
Proof.
  intros H. rewrite append_bounded_spec. unfold max_history.
  destruct (Z.of_nat (List.length l) <? 10) eqn:E; [reflexivity|].
  apply Z.ltb_ge in E. lia.
Qed.

Lemma undo_then_redo (self : t) (cur top : Image) (rest : list Image) :
  current_image self = Some cur ->
  history self = rest ++ [top] ->
  (List.length (history self) <= 10)%nat ->
  (List.length (redo_history self) < 10)%nat ->
  redo (undo self) = update_preview self.
Proof.
  intros Hc Hh Hl Hr.
  assert (Hrest : (List.length rest < 10)%nat).
  { rewrite Hh, length_app in Hl. simpl in Hl. lia. }
  unfold undo. rewrite Hh, pop_snoc, Hc. unfold copy.
  rewrite (append_bounded_room _ _ Hr).
  set (A := set_images self (Some top) rest (redo_history self ++ [cur])).
  unfold redo.
  destruct (update_preview_images A) as (E1 & E2 & E3 & _).
  rewrite E1, E2, E3. subst A. cbn [set_images current_image history redo_history].
  rewrite pop_snoc. unfold copy. rewrite (append_bounded_room _ _ Hrest).
  set (A := set_images self (Some top) rest (redo_history self ++ [cur])).
  rewrite (update_preview_as_set_preview A).
  change (set_images (set_preview A (preview_label (update_preview A)) (rotate_spin A))
            (Some cur) (rest ++ [top]) (redo_history self))
    with (set_preview (set_images self (Some cur) (rest ++ [top]) (redo_history self))
            (preview_label (update_preview A)) (rotate_spin self)).
  rewrite <- Hc, <- Hh, set_images_same.
  apply update_preview_label.
  apply (update_preview_frame A).
Qed.

Lemma redo_then_undo (self : t) (cur top : Image) (rest : list Image) :
  current_image self = Some cur ->
  redo_history self = rest ++ [top] ->
  (List.length (redo_history self) <= 10)%nat ->
  (List.length (history self) < 10)%nat ->
  undo (redo self) = update_preview self.
Proof.
  intros Hc Hh Hl Hr.
  assert (Hrest : (List.length rest < 10)%nat).
  { rewrite Hh, length_app in Hl. simpl in Hl. lia. }
  unfold redo. rewrite Hh, pop_snoc, Hc. unfold copy.
  rewrite (append_bounded_room _ _ Hr).
  set (A := set_images self (Some top) (history self ++ [cur]) rest).
  unfold undo.
  destruct (update_preview_images A) as (E1 & E2 & E3 & _).
  rewrite E1, E2, E3. subst A. cbn [set_images current_image history redo_history].
  rewrite pop_snoc. unfold copy. rewrite (append_bounded_room _ _ Hrest).
  set (A := set_images self (Some top) (history self ++ [cur]) rest).
  rewrite (update_preview_as_set_preview A).
  change (set_images (set_preview A (preview_label (update_preview A)) (rotate_spin A))
            (Some cur) (history self) (rest ++ [top]))
    with (set_preview (set_images self (Some cur) (history self) (rest ++ [top]))
            (preview_label (update_preview A)) (rotate_spin self)).
  rewrite <- Hc, <- Hh, set_images_same.
  apply update_preview_label.
  apply (update_preview_frame A).
Qed.

Lemma update_preview_idem (self : t) :
  update_preview (update_preview self) = update_preview self.
Proof.
  rewrite (update_preview_as_set_preview self) at 1.
  apply update_preview_label, update_preview_frame.
Qed.

(** What one undo does to a state that has something to undo. *)
Lemma undo_step (self : t) (cur : Image) :
  current_image self = Some cur ->
  (1 <= List.length (history self))%nat ->
  (List.length (redo_history self) < 10)%nat ->
  (exists top, current_image (undo self) = Some top)
  /\ S (List.length (history (undo self))) = List.length (history self)
  /\ List.length (redo_history (undo self)) = S (List.length (redo_history self))
  /\ update_preview (undo self) = undo self.
Proof.
  intros Hc Hh Hr.
  destruct (pop (history self)) as [[top rest]|] eqn:E.
  - pose proof (pop_some _ _ _ E) as Hl.
    unfold undo. rewrite E, Hc. unfold copy.
    rewrite (append_bounded_room _ _ Hr).
    set (A := set_images self (Some top) rest (redo_history self ++ [cur])).
    destruct (update_preview_images A) as (E1 & E2 & E3 & _).
    rewrite E1, E2, E3. subst A.
    cbn [set_images current_image history redo_history].
    repeat split.
    + exists top. reflexivity.
    + rewrite Hl, length_app. simpl. lia.
    + rewrite length_app. simpl. lia.
    + apply update_preview_idem.
  - unfold pop in E. destruct (rev (history self)) eqn:R; [|discriminate].
    apply (f_equal (@List.length _)) in R. rewrite length_rev in R.
    simpl in R. lia.
Qed.

Lemma undos_steps (n : nat) (self : t) (cur : Image) :
  current_image self = Some cur ->
  (n <= List.length (history self))%nat ->
  (List.length (redo_history self) + n <= 10)%nat ->
  let self' := Nat.iter n undo self in
  (exists top, current_image self' = Some top)
  /\ (List.length (history self') + n)%nat = List.length (history self)
  /\ List.length (redo_history self') = (List.length (redo_history self) + n)%nat
  /\ ((1 <= n)%nat -> update_preview self' = self').
Proof.
  intros Hc. induction n as [|n IH]; intros Hh Hr; cbn zeta.
  - simpl. repeat split; try lia. exists cur. exact Hc.
  - simpl Nat.iter.
    destruct IH as ((top & Ht) & Hl & Hrl & _); try lia.
    cbn zeta in *.
    destruct (undo_step (Nat.iter n undo self) top Ht) as (H1 & H2 & H3 & H4);
      try lia.
    repeat split; try lia; auto.
Qed.

(** Undo then redo is a round trip, any number of steps deep: [n] undos
    followed by [n] redos (with [n] frames to undo and room for [n] more
    frames on the redo stack) restore the current image and both stacks;
    the window is the one before, with its preview refreshed. *)
Theorem undos_then_redos (n : nat) (self : t) (cur : Image) :
  current_image self = Some cur ->
  (1 <= n <= List.length (history self))%nat ->
  (List.length (history self) <= 10)%nat ->
  (List.length (redo_history self) + n <= 10)%nat ->
  Nat.iter n redo (Nat.iter n undo self) = update_preview self.
Proof.
  intros Hc. induction n as [|n IH]; intros Hn Hh Hr; [lia|].
  rewrite Nat.iter_succ_r. simpl Nat.iter.
  destruct (undos_steps n self cur Hc) as ((top & Ht) & Hl & Hrl & Hup);
    try lia.
  cbn zeta in *.
  set (s := Nat.iter n undo self) in *.
  destruct (pop (history s)) as [[top' rest]|] eqn:E.
  - pose proof (pop_some _ _ _ E) as Hs.
    rewrite (undo_then_redo s top top' rest Ht Hs); try lia.
    destruct n as [|n].
    + reflexivity.
    + rewrite Hup by lia. apply IH; lia.
  - unfold pop in E. destruct (rev (history s)) eqn:R; [|discriminate].
    apply (f_equal (@List.length _)) in R. rewrite length_rev in R.
    simpl in R. lia.
Qed.

Lemma redo_step (self : t) (cur : Image) :
  current_image self = Some cur ->
  (1 <= List.length (redo_history self))%nat ->
  (List.length (history self) < 10)%nat ->
  (exists top, current_image (redo self) = Some top)
  /\ S (List.length (redo_history (redo self))) = List.length (redo_history self)
  /\ List.length (history (redo self)) = S (List.length (history self))
  /\ update_preview (redo self) = redo self.
Proof.
  intros Hc Hh Hr.
  destruct (pop (redo_history self)) as [[top rest]|] eqn:E.
  - pose proof (pop_some _ _ _ E) as Hl.
    unfold redo. rewrite E, Hc. unfold copy.
    rewrite (append_bounded_room _ _ Hr).
    set (A := set_images self (Some top) (history self ++ [cur]) rest).
    destruct (update_preview_images A) as (E1 & E2 & E3 & _).
    rewrite E1, E2, E3. subst A.
    cbn [set_images current_image history redo_history].
    repeat split.
    + exists top. reflexivity.
    + rewrite Hl, length_app. simpl. lia.
    + rewrite length_app. simpl. lia.
    + apply update_preview_idem.
  - unfold pop in E. destruct (rev (redo_history self)) eqn:R; [|discriminate].
    apply (f_equal (@List.length _)) in R. rewrite length_rev in R.
    simpl in R. lia.
Qed.

Lemma redos_steps (n : nat) (self : t) (cur : Image) :
  current_image self = Some cur ->
  (n <= List.length (redo_history self))%nat ->
  (List.length (history self) + n <= 10)%nat ->
  let self' := Nat.iter n redo self in
  (exists top, current_image self' = Some top)
  /\ (List.length (redo_history self') + n)%nat = List.length (redo_history self)
  /\ List.length (history self') = (List.length (history self) + n)%nat
  /\ ((1 <= n)%nat -> update_preview self' = self').
Proof.
  intros Hc. induction n as [|n IH]; intros Hh Hr; cbn zeta.
  - simpl. repeat split; try lia. exists cur. exact Hc.
  - simpl Nat.iter.
    destruct IH as ((top & Ht) & Hl & Hrl & _); try lia.
    cbn zeta in *.
    destruct (redo_step (Nat.iter n redo self) top Ht) as (H1 & H2 & H3 & H4);
      try lia.
    repeat split; try lia; auto.
Qed.

(** Redo then undo is a round trip as well: [n] redos followed by [n]
    undos (with [n] frames to redo and room for [n] more frames on the
    undo stack) restore the current image and both stacks. *)
Theorem redos_then_undos (n : nat) (self : t) (cur : Image) :
  current_image self = Some cur ->
  (1 <= n <= List.length (redo_history self))%nat ->
  (List.length (redo_history self) <= 10)%nat ->
  (List.length (history self) + n <= 10)%nat ->
  Nat.iter n undo (Nat.iter n redo self) = update_preview self.
Proof.
  intros Hc. induction n as [|n IH]; intros Hn Hh Hr; [lia|].
  rewrite Nat.iter_succ_r. simpl Nat.iter.
  destruct (redos_steps n self cur Hc) as ((top & Ht) & Hl & Hrl & Hup);
    try lia.
  cbn zeta in *.
  set (s := Nat.iter n redo self) in *.
  destruct (pop (redo_history s)) as [[top' rest]|] eqn:E.
  - pose proof (pop_some _ _ _ E) as Hs.
    rewrite (redo_then_undo s top top' rest Ht Hs); try lia.
    destruct n as [|n].
    + reflexivity.
    + rewrite Hup by lia. apply IH; lia.
  - unfold pop in E. destruct (rev (redo_history s)) eqn:R; [|discriminate].
    apply (f_equal (@List.length _)) in R. rewrite length_rev in R.
    simpl in R. lia.
Qed.

Lemma undos_then_redos_witness :
  Nat.iter 2 redo (Nat.iter 2 undo (edits [img_400x300; img_800x600] opened_800x600))
  = update_preview (edits [img_400x300; img_800x600] opened_800x600).
Proof.
  apply (undos_then_redos 2 _ img_800x600).
  - reflexivity.
  - simpl. lia.
  - simpl. lia.
  - simpl. lia.
Defined.

Lemma redos_then_undos_witness :
  let s := Nat.iter 2 undo (edits [img_400x300; img_800x600] opened_800x600) in
  Nat.iter 2 undo (Nat.iter 2 redo s) = update_preview s.
Proof.
  apply (redos_then_undos 2 _ img_800x600).
  - reflexivity.
  - simpl. lia.
  - simpl. lia.
  - simpl. lia.
Defined.
End UndoRedoFacts.

(* ===================================================================== *)
(** * Edits, failed edits and the undo stack *)
(* ===================================================================== *)

Section EditFacts.
Import MainWindow.

Variable rotated_size : Z -> Z -> Z -> Z * Z.
Variable fits_memory : Z -> Z -> bool.
Variable int_of_str : string -> option Z.

(** Undoing a committed edit brings back the image the edit was made from
    and leaves exactly that edit to redo; the undo stack is the one before
    the edit (less its oldest entry if it was full), and redo shows the
    edit's result again. *)
Theorem undo_after_edit (self : t) (cur r : Image) :
  current_image self = Some cur ->
  let s1 := edits [r] self in
  current_image s1 = Some r
  /\ current_image (undo s1) = Some cur
  /\ redo_history (undo s1) = [r]
  /\ history (undo s1)
     = (if Z.of_nat (List.length (history self)) <? max_history
        then history self else tl (history self))
  /\ current_image (redo (undo s1)) = Some r.
Proof.
  intros Hc s1. subst s1. cbn [edits]. unfold on_worker_finished.
  rewrite (push_history_some self cur Hc).
  set (A := set_images _ (Some r) _ _).
  assert (HA : current_image (set_workers (update_preview A) None
                                (running (update_preview A))) = Some r
               /\ history (set_workers (update_preview A) None
                             (running (update_preview A)))
                  = append_bounded (history self) cur
               /\ redo_history (set_workers (update_preview A) None
                                  (running (update_preview A))) = []).
  { cbn [set_workers current_image history redo_history].
    destruct (update_preview_images A) as (E1 & E2 & E3 & _).
    rewrite E1, E2, E3. subst A. repeat split. }
  set (s1 := set_workers (update_preview A) None (running (update_preview A))) in *.
  destruct HA as (H1 & H2 & H3).
  split; [exact H1|].
  assert (Hpop : pop (history s1)
                 = Some (cur, if Z.of_nat (List.length (history self)) <? max_history
                              then history self else tl (history self))).
  { rewrite H2, append_bounded_spec.
    destruct (Z.of_nat (List.length (history self)) <? max_history);
      apply pop_snoc. }
  unfold undo at 1 2 3. rewrite Hpop, H1, H3. unfold copy.
  set (B := set_images s1 (Some cur) _ _).
  destruct (update_preview_images B) as (E1 & E2 & E3 & _).
  rewrite E1, E2, E3.
  repeat split.
  unfold undo. rewrite Hpop, H1, H3. unfold copy. fold B.
  unfold redo. rewrite E3.
  change (redo_history B) with (append_bounded [] r).
  change (append_bounded [] r) with ([] ++ [r]). rewrite pop_snoc.
  set (C := set_images _ (Some r) _ _).
  destruct (update_preview_images C) as (F1 & _). rewrite F1. reflexivity.
Qed.

Lemma undo_after_edit_witness :
  current_image (undo (edits [img_400x300] opened_800x600)) = Some img_800x600
  /\ redo_history (undo (edits [img_400x300] opened_800x600)) = [img_400x300].
Proof.
  destruct (undo_after_edit opened_800x600 img_800x600 img_400x300 eq_refl)
    as (_ & H1 & H2 & _).
  split; assumption.
Defined.

(** A scale whose worker raises is silent: when the thread ends no dialog
    is shown and the image and the preview stay as they were; the request
    has nevertheless emptied the redo stack and pushed the image on the
    undo stack, so the next undo shows the same image again, and
    [self.worker] still holds the dead thread. *)
Theorem failed_scale_is_silent (self : t) (cur : Image) (factor : float)
    (e : PyExc) :
  current_image self = Some cur ->
  ImageTools.scale fits_memory cur factor = Raise e ->
  let s1 := apply_scale self factor in
  let s2 := thread_ends rotated_size fits_memory s1 (List.length (running self)) in
  current_image s2 = Some cur
  /\ preview_label s2 = preview_label self
  /\ dialogs s2 = dialogs self
  /\ running s2 = running self
  /\ worker s2 = Some (mkWorker (scale factor) cur)
  /\ history s2 = append_bounded (history self) cur
  /\ redo_history s2 = []
  /\ current_image (undo s2) = Some cur.
Proof.
  intros Hc He s1 s2. subst s1 s2.
  unfold apply_scale. rewrite Hc, (push_history_some self cur Hc).
  cbn [set_images current_image]. unfold start, thread_ends.
  cbn [set_workers set_images running].
  rewrite nth_error_app2 by lia. rewrite Nat.sub_diag. cbn [nth_error].
  unfold run. cbn [func arg]. rewrite He.
  rewrite firstn_app, Nat.sub_diag, firstn_all. cbn [firstn].
  rewrite app_nil_r.
  replace (skipn (S (List.length (running self)))
             (running self ++ [mkWorker (scale factor) cur])) with (@nil WorkerThread).
  2:{ symmetry. apply skipn_all2. rewrite length_app. simpl. lia. }
  rewrite app_nil_r.
  cbn [set_workers set_images current_image preview_label dialogs running
       worker history redo_history].
  repeat split.
  unfold undo. cbn [set_workers set_images history current_image redo_history].
  destruct (append_bounded_snoc (history self) cur) as (l' & El).
  rewrite El, pop_snoc.
  set (B := set_images _ (Some cur) _ _).
  destruct (update_preview_images B) as (E1 & _). rewrite E1. reflexivity.
Qed.

End EditFacts.

Lemma failed_scale_is_silent_witness :
  MainWindow.dialogs
    (MainWindow.thread_ends (fun w h _ => (w, h)) (fun _ _ => true)
       (MainWindow.apply_scale opened_800x600 1e308%float) 0) = []
  /\ MainWindow.current_image
       (MainWindow.thread_ends (fun w h _ => (w, h)) (fun _ _ => true)
          (MainWindow.apply_scale opened_800x600 1e308%float) 0)
     = Some img_800x600.
Proof.
  destruct (failed_scale_is_silent (fun w h _ => (w, h)) (fun _ _ => true) opened_800x600
              img_800x600 1e308%float OverflowError eq_refl)
    as (H1 & _ & H3 & _).
  { vm_compute. reflexivity. }
  split; [exact H3 | exact H1].
Defined.

(* ===================================================================== *)
(** * Before an image is opened; the empty filter *)
(* ===================================================================== *)

Section BlankFacts.
Import MainWindow.

Variable rotated_size : Z -> Z -> Z -> Z * Z.
Variable fits_memory : Z -> Z -> bool.
Variable int_of_str : string -> option Z.

Lemma handle_blank (lw lh : Z) (self : t) (e : Event) :
  no_open e = true -> blank lw lh self ->
  blank lw lh (handle rotated_size fits_memory int_of_str self e).
Proof.
  intros He (H1 & H2 & H3 & H4 & H5 & H6 & H7).
  destruct e; try discriminate He; unfold blank, handle.
  - unfold on_slider_value_changed.
    cbn [set_widgets preview_label]. rewrite H7.
    cbn [CropLabel.init CropLabel._original_pixmap].
    cbn [set_widgets current_image original_image history redo_history
         running worker preview_label]. repeat split; assumption.
  - unfold on_rotate_spin_changed. rewrite H7.
    cbn [CropLabel.init CropLabel._original_pixmap].
    cbn [set_preview current_image original_image history redo_history
         running worker preview_label]. repeat split; assumption.
  - cbn [set_widgets current_image original_image history redo_history
         running worker preview_label]. repeat split; assumption.
  - cbn [set_widgets current_image original_image history redo_history
         running worker preview_label]. repeat split; assumption.
  - cbn [set_widgets current_image original_image history redo_history
         running worker preview_label]. repeat split; assumption.
  - unfold zoom_preview. rewrite H7.
    cbn [CropLabel.init CropLabel._original_pixmap].
    rewrite <- H7. repeat split; assumption.
  - unfold reset_preview_view. rewrite H7.
    cbn [set_preview current_image original_image history redo_history
         running worker preview_label]. repeat split; try assumption.
  - unfold apply_scale. rewrite H1. repeat split; assumption.
  - unfold apply_rotate. rewrite H1. repeat split; assumption.
  - unfold apply_crop. rewrite H1. repeat split; assumption.
  - unfold apply_watermark. rewrite H1. repeat split; assumption.
  - unfold apply_filter. rewrite H1. repeat split; assumption.
  - unfold undo. rewrite H3, pop_nil.
    cbn [show current_image original_image history redo_history
         running worker preview_label]. repeat split; assumption.
  - unfold redo. rewrite H4, pop_nil.
    cbn [show current_image original_image history redo_history
         running worker preview_label]. repeat split; assumption.
  - unfold thread_ends. rewrite H5.
    destruct i; cbn [nth_error]; repeat split; assumption.
Qed.

(** Until an image is opened nothing the user does loads, edits or starts
    anything: after any events other than opening an image there is no
    current or original image, both stacks are empty, no thread has been
    started and the preview label is as it was built. *)
Theorem nothing_happens_without_image (lw lh : Z) (events : list Event) :
  forallb no_open events = true ->
  blank lw lh (run_events rotated_size fits_memory int_of_str (init lw lh) events).
Proof.
  unfold run_events.
  assert (H0 : blank lw lh (init lw lh)) by (repeat split).
  revert H0. generalize (init lw lh) as s.
  induction events as [|e rest IH]; intros s Hs Hall; [exact Hs|].
  simpl in Hall. apply andb_prop in Hall as [He Hrest].
  simpl. apply IH; [|exact Hrest]. apply handle_blank; assumption.
Qed.

End BlankFacts.

Lemma nothing_happens_without_image_witness :
  blank 800 600
    (MainWindow.run_events (fun w h _ => (w, h)) (fun _ _ => true) int_of_decimal
       (MainWindow.init 800 600)
       [MainWindow.scale_requested 1.2%float; MainWindow.crop_requested;
        MainWindow.undo_requested; MainWindow.slider_moved 150;
        MainWindow.thread_ended 0]).
Proof.
  apply (nothing_happens_without_image (fun w h _ => (w, h)) (fun _ _ => true) int_of_decimal
           800 600).
  reflexivity.
Defined.

Section NoneFilter.
Import MainWindow.

(** Applying with no filter chosen changes no pixel and starts no thread,
    but it is an edit all the same: the redo stack is emptied and the
    image is pushed on the undo stack, so the next undo shows the same
    image. *)
Theorem none_filter_spends_history (self : t) (cur : Image) :
  current_image self = Some cur ->
  current_filter self = filter_none ->
  let s' := apply_filter self in
  current_image s' = Some cur
  /\ running s' = running self
  /\ history s' = append_bounded (history self) cur
  /\ redo_history s' = []
  /\ current_image (undo s') = Some cur.
Proof.
  intros Hc Hf s'. subst s'. unfold apply_filter.
  rewrite Hc, (push_history_some self cur Hc).
  cbn [set_images current_image current_filter]. rewrite Hf.
  set (A := set_images self (Some cur) _ _).
  destruct (update_preview_images A) as (E1 & E2 & E3 & _ & E5).
  rewrite E1, E2, E3, E5. subst A. repeat split.
  unfold undo. rewrite E1, E2, E3.
  cbn [set_images history current_image redo_history].
  destruct (append_bounded_snoc (history self) cur) as (l' & El).
  rewrite El, pop_snoc.
  set (B := set_images _ (Some cur) _ _).
  destruct (update_preview_images B) as (F1 & _). rewrite F1. reflexivity.
Qed.

Lemma none_filter_spends_history_witness :
  history (apply_filter opened_800x600) = [img_800x600]
  /\ current_image (undo (apply_filter opened_800x600)) = Some img_800x600.
Proof.
  destruct (none_filter_spends_history opened_800x600 img_800x600
              eq_refl eq_refl) as (_ & _ & H3 & _ & H5).
  split; [exact H3 | exact H5].
Defined.

End NoneFilter.

(* ===================================================================== *)
(** * What every handler keeps of the preview *)
(* ===================================================================== *)

Section PreviewInvariants.
Import MainWindow.

Variable rotated_size : Z -> Z -> Z -> Z * Z.
Variable fits_memory : Z -> Z -> bool.
Variable int_of_str : string -> option Z.

Lemma limited_zoom (z : Q) : (1 # 10 <= Qmax (1 # 10) (Qmin 10 z) <= 10)%Q.
Proof.
  split.
  - apply Q.le_max_l.
  - apply Q.max_lub; [discriminate | apply Q.le_min_l].
Qed.

Lemma set_zoom_factor_keeps (l : CropLabel.t) (z : Q) :
  CropLabel._original_pixmap (CropLabel.set_zoom_factor l z)
  = CropLabel._original_pixmap l
  /\ (zoom_in_range l -> zoom_in_range (CropLabel.set_zoom_factor l z)).
Proof.
  unfold CropLabel.set_zoom_factor, zoom_in_range.
  destruct (CropLabel._original_pixmap l) as [pm|] eqn:E; [|auto].
  destruct (Qltb _ _); [auto|].
  match goal with
  | |- context [CropLabel.rezoom l pm ?a ?b ?c] =>
      destruct (rezoom_frame l pm a b c) as (_ & Hp & _ & _ & _ & Hz)
  end.
  cbv zeta in Hp, Hz. rewrite Hp, Hz. split; [exact E|].
  intros _. apply limited_zoom.
Qed.

Lemma zoom_at_point_keeps (l : CropLabel.t) (p : QPoint) (zoom_in : bool) :
  CropLabel._original_pixmap (CropLabel.zoom_at_point l p zoom_in)
  = CropLabel._original_pixmap l
  /\ (zoom_in_range l -> zoom_in_range (CropLabel.zoom_at_point l p zoom_in)).
Proof.
  unfold CropLabel.zoom_at_point, zoom_in_range.
  destruct (CropLabel._original_pixmap l) as [pm|] eqn:E; [|auto].
  destruct (Qltb _ _); [auto|].
  match goal with
  | |- context [CropLabel.rezoom l pm ?a ?b ?c] =>
      destruct (rezoom_frame l pm a b c) as (_ & Hp & _ & _ & _ & Hz)
  end.
  cbv zeta in Hp, Hz. rewrite Hp, Hz. split; [exact E|].
  intros _. unfold CropLabel.stepped_zoom. apply limited_zoom.
Qed.

Lemma update_preview_view (self : t) (img : Image) :
  current_image self = Some img ->
  CropLabel._original_pixmap (preview_label (update_preview self))
  = Some (pil_to_qpixmap img)
  /\ zoom_in_range (preview_label (update_preview self)).
Proof.
  intros Hc. unfold update_preview. rewrite Hc.
  cbn [set_preview preview_label].
  set (l0 := CropLabel.set_original_pixmap (preview_label self) (pil_to_qpixmap img)).
  assert (H0 : CropLabel._original_pixmap l0 = Some (pil_to_qpixmap img)
               /\ zoom_in_range l0).
  { subst l0. split; [reflexivity|]. unfold zoom_in_range. cbn. split; discriminate. }
  set (l1 := if s_slider self =? 100 then l0 else _).
  assert (H1 : CropLabel._original_pixmap l1 = Some (pil_to_qpixmap img)
               /\ zoom_in_range l1).
  { subst l1. destruct (s_slider self =? 100); [exact H0|].
    destruct (set_zoom_factor_keeps l0 (inject_Z (s_slider self) / 100)) as (Hp & Hz).
    rewrite Hp. split; [apply H0 | apply Hz, H0]. }
  destruct (rotate_spin self =? 0); exact H1.
Qed.

Lemma update_preview_ok (self : t) (img : Image) :
  current_image self = Some img -> view_ok (update_preview self).
Proof.
  intros Hc. destruct (update_preview_view self img Hc) as (Hp & Hz).
  split; [|exact Hz]. unfold preview_in_sync.
  destruct (update_preview_images self) as (E1 & _).
  rewrite E1, Hc, Hp. reflexivity.
Qed.

Lemma on_worker_finished_ok (self : t) (img : Image) :
  view_ok (on_worker_finished self img).
Proof.
  unfold on_worker_finished.
  set (A := set_images self (Some img) _ _).
  exact (update_preview_ok A img eq_refl).
Qed.

Lemma push_history_ok (self : t) : view_ok self -> view_ok (push_history self).
Proof.
  unfold push_history. destruct (current_image self) eqn:E; [|auto].
  unfold view_ok, preview_in_sync. cbn [set_images preview_label current_image].
  rewrite E. auto.
Qed.

Lemma handle_view_ok (self : t) (e : Event) :
  view_ok self -> view_ok (handle rotated_size fits_memory int_of_str self e).
Proof.
  intros Hv. pose proof Hv as (Hs & Hz). unfold preview_in_sync in Hs.
  destruct e; unfold handle.
  - unfold open_image. apply (update_preview_ok _ (copy img)). reflexivity.
  - unfold on_slider_value_changed. cbn [set_widgets preview_label].
    destruct (CropLabel._original_pixmap (preview_label self)) eqn:E.
    + destruct (set_zoom_factor_keeps (preview_label self) (inject_Z value / 100))
        as (Hp & Hk).
      split; [|apply Hk, Hz]. unfold preview_in_sync.
      cbn [set_preview set_widgets preview_label current_image].
      rewrite Hp, E. exact Hs.
    + split; [|exact Hz]. unfold preview_in_sync.
      cbn [set_widgets preview_label current_image]. rewrite E. exact Hs.
  - unfold on_rotate_spin_changed.
    destruct (CropLabel._original_pixmap (preview_label self)) eqn:E;
      (split; [unfold preview_in_sync;
               cbn [set_preview preview_label current_image
                    CropLabel.set_preview_rotate_angle CropLabel._original_pixmap];
               rewrite E; exact Hs
              | exact Hz]).
  - exact Hv.
  - exact Hv.
  - exact Hv.
  - unfold zoom_preview.
    destruct (CropLabel._original_pixmap (preview_label self)) eqn:E; [|exact Hv].
    destruct (zoom_at_point_keeps (preview_label self) local_pos zoom_in)
      as (Hp & Hk).
    split; [|apply Hk, Hz]. unfold preview_in_sync.
    cbn [set_preview preview_label current_image]. rewrite Hp, E. exact Hs.
  - unfold reset_preview_view. split.
    + exact Hs.
    + unfold zoom_in_range. cbn. split; discriminate.
  - unfold apply_scale. destruct (current_image self) eqn:E; [|exact Hv].
    pose proof (push_history_ok self Hv) as Hp.
    destruct (current_image (push_history self)); exact Hp.
  - unfold apply_rotate. destruct (current_image self) eqn:E; [|exact Hv].
    pose proof (push_history_ok self Hv) as Hp.
    destruct (current_image (push_history self)); exact Hp.
  - unfold apply_crop. destruct (current_image self) as [cur|] eqn:E; [|exact Hv].
    destruct (int_of_str (crop_left self)), (int_of_str (crop_top self)),
      (int_of_str (crop_w self)), (int_of_str (crop_h self)); try exact Hv.
    unfold apply_crop_rect. rewrite E.
    destruct (ImageTools.crop cur _ _ _ _) as [img|err];
      cbn [bind]; [|apply push_history_ok, Hv].
    set (A := set_images _ (Some img) _ _).
    exact (update_preview_ok A img eq_refl).
  - unfold apply_watermark. destruct (current_image self) eqn:E; [|exact Hv].
    destruct (wm_text_blank self); [exact Hv|].
    pose proof (push_history_ok self Hv) as Hp.
    destruct (current_image (push_history self)); exact Hp.
  - unfold apply_filter. destruct (current_image self) eqn:E; [|exact Hv].
    pose proof (push_history_ok self Hv) as Hp.
    destruct (current_image (push_history self)) eqn:E'; [|exact Hp].
    destruct (current_filter (push_history self)); try exact Hp.
    apply (update_preview_ok _ _ E').
  - unfold undo. destruct (pop (history self)) as [[top rest]|]; [|exact Hv].
    set (A := set_images self (Some top) _ _).
    exact (update_preview_ok A top eq_refl).
  - unfold redo. destruct (pop (redo_history self)) as [[top rest]|]; [|exact Hv].
    set (A := set_images self (Some top) _ _).
    exact (update_preview_ok A top eq_refl).
  - unfold thread_ends. destruct (nth_error (running self) i); [|exact Hv].
    destruct (run rotated_size fits_memory w); [|exact Hv].
    apply on_worker_finished_ok.
Qed.

Lemma run_events_view_ok (lw lh : Z) (events : list Event) :
  view_ok (run_events rotated_size fits_memory int_of_str (init lw lh) events).
Proof.
  unfold run_events.
  assert (H0 : view_ok (init lw lh)).
  { split; [reflexivity|]. unfold zoom_in_range. cbn. split; discriminate. }
  revert H0. generalize (init lw lh) as s.
  induction events as [|e rest IH]; intros s Hs; [exact Hs|].
  simpl. apply IH, handle_view_ok, Hs.
Qed.

(** Whatever the user does, the preview label holds a pixmap of the
    current image (and none before an image is opened): the sizes the
    coordinate conversions read are those of the image the crop is
    applied to. *)
Theorem preview_shows_current_image (lw lh : Z) (events : list Event) :
  let self := run_events rotated_size fits_memory int_of_str (init lw lh) events in
  CropLabel._original_pixmap (preview_label self)
  = option_map pil_to_qpixmap (current_image self).
Proof. exact (proj1 (run_events_view_ok lw lh events)). Qed.

(** Whatever the user does (slider, zoom keys, view reset, edits, undo and
    redo), the zoom factor of the preview stays between 0.1 and 10. *)
Theorem zoom_stays_in_range (lw lh : Z) (events : list Event) :
  let self := run_events rotated_size fits_memory int_of_str (init lw lh) events in
  (1 # 10 <= CropLabel._zoom_factor (preview_label self) <= 10)%Q.
Proof. exact (proj2 (run_events_view_ok lw lh events)). Qed.

End PreviewInvariants.

(* ===================================================================== *)
(** * Image operations, watermark placement and the number input *)
(* ===================================================================== *)

Section ImageToolsFacts.

Variable rotated_size : Z -> Z -> Z -> Z * Z.
Variable fits_memory : Z -> Z -> bool.

Lemma ensure_rgb_mode (img : Image) : mode (ImageTools.ensure_rgb img) = RGB.
Proof. unfold ImageTools.ensure_rgb. destruct (mode img) eqn:E; auto. Qed.

(** Whatever the mode of the image it is given, every operation a worker
    runs returns an RGB image; the watermark and the three filters return
    it in the size of their input. *)
Theorem worker_results_are_rgb (w : MainWindow.WorkerThread) (img : Image) :
  MainWindow.run rotated_size fits_memory w = Return img ->
  mode img = RGB
  /\ match MainWindow.func w with
     | MainWindow.scale _ | MainWindow.rotate _ => True
     | _ => width img = width (MainWindow.arg w)
            /\ height img = height (MainWindow.arg w)
     end.
Proof.
  destruct w as [f a]. unfold MainWindow.run. cbn [MainWindow.func MainWindow.arg].
  pose proof (ensure_rgb_mode a) as Hm. pose proof (ensure_rgb_size a) as Hs.
  destruct f; intros H.
  - unfold ImageTools.scale in H.
    destruct (int_of_float _) as [x|]; [|discriminate H]. cbn [bind] in H.
    destruct (int_of_float _) as [y|]; [|discriminate H]. cbn [bind] in H.
    unfold resize in H.
    destruct (_ && _); [injection H as <-; unfold copy; auto|].
    destruct (_ || _); [discriminate H|].
    destruct (_ || _); [discriminate H|].
    destruct (fits_memory _ _); [|discriminate H].
    injection H as <-. cbn. auto.
  - injection H as <-. unfold ImageTools.rotate, rotate.
    destruct (rotated_size _ _ _). cbn. auto.
  - injection H as <-. cbn. unfold copy. intuition.
  - injection H as <-. cbn. intuition.
  - injection H as <-. cbn. intuition.
  - injection H as <-. cbn. intuition.
Qed.

(** The box [ImageTools.crop] cuts out never leaves the image: for an
    image that is not empty and any four integers, the box has
    [0 <= left < right <= width] and [0 <= top < bottom <= height]; it
    starts at the requested corner when that corner is a pixel of the
    image, and ends [width] and [height] further when that is inside. *)
Theorem crop_box_inside_image (cur : Image) (left top w h : Z) :
  1 <= width cur -> 1 <= height cur ->
  exists l t r b,
    ImageTools.crop cur left top w h
    = Return {| mode := RGB; width := r - l; height := b - t;
                pixels := Boxed (pixels (ImageTools.ensure_rgb cur)) l t r b |}
    /\ 0 <= l < r /\ r <= width cur
    /\ 0 <= t < b /\ b <= height cur
    /\ (0 <= left < width cur -> l = left)
    /\ (0 <= top < height cur -> t = top)
    /\ (0 <= left -> 1 <= w -> left + w <= width cur -> r = left + w)
    /\ (0 <= top -> 1 <= h -> top + h <= height cur -> b = top + h).
Proof.
  intros HW HH. unfold ImageTools.crop.
  destruct (ensure_rgb_size cur) as (Ew & Eh).
  rewrite Ew, Eh.
  set (l := Z.max 0 (Z.min left (width cur - 1))).
  set (t := Z.max 0 (Z.min top (height cur - 1))).
  set (r := Z.max (l + 1) (Z.min (left + w) (width cur))).
  set (b := Z.max (t + 1) (Z.min (top + h) (height cur))).
  exists l, t, r, b.
  rewrite pil_crop_ordered by (subst l t r b; lia).
  rewrite ensure_rgb_mode.
  split; [reflexivity|]. subst l t r b. repeat split; lia.
Qed.

Lemma crop_box_inside_image_witness :
  exists l t r b,
    ImageTools.crop img_800x600 700 (-5) 200 50
    = Return {| mode := RGB; width := r - l; height := b - t;
                pixels := Boxed (Decoded 0) l t r b |}
    /\ 0 <= l < r /\ r <= 800 /\ 0 <= t < b /\ b <= 600.
Proof.
  destruct (crop_box_inside_image img_800x600 700 (-5) 200 50)
    as (l & t & r & b & H & H1 & H2 & H3 & H4 & _); [simpl; lia ..|].
  exists l, t, r, b. repeat split; try assumption; apply H1 || apply H3.
Defined.

End ImageToolsFacts.

Lemma worker_results_are_rgb_witness :
  mode (ImageTools.grayscale (mkImage L 640 480 (Decoded 2))) = RGB
  /\ width (ImageTools.grayscale (mkImage L 640 480 (Decoded 2))) = 640.
Proof.
  destruct (worker_results_are_rgb (fun w h _ => (w, h)) (fun _ _ => true)
              (MainWindow.mkWorker MainWindow.grayscale
                 (mkImage L 640 480 (Decoded 2)))
              (ImageTools.grayscale (mkImage L 640 480 (Decoded 2))) eq_refl)
    as (H1 & H2 & _).
  split; [exact H1 | exact H2].
Defined.

Section WatermarkFacts.
Import TextWatermark.

(** Where the ink of the watermark ends up.  At a corner or at the centre
    (also the fallback for an unknown position and for a custom one without
    coordinates), the text is drawn inside the image when it fits with the
    margin of 20 pixels on both sides of each axis and the origin of its
    bounding box is within that margin. *)
Theorem text_inside_image (W H : Z) (bbox : BBox) (position : string)
    (x y : option Z) :
  - margin <= bbox0 bbox <= margin ->
  - margin <= bbox1 bbox <= margin ->
  (bbox2 bbox - bbox0 bbox) + 2 * margin <= W ->
  (bbox3 bbox - bbox1 bbox) + 2 * margin <= H ->
  (position = "custom"%string -> x = None \/ y = None) ->
  inside_image W H (ink_box W H bbox position x y).
Proof.
  destruct bbox as [b0 b1 b2 b3].
  unfold inside_image, ink_box, text_position, margin, floordiv.
  cbn [bbox0 bbox1 bbox2 bbox3]. intros H0 H1 HW HH Hc.
  assert (Hx : 20 <= (W - (b2 - b0)) / 2
               /\ (W - (b2 - b0)) / 2 + (b2 - b0) + 20 <= W).
  { split; [apply Z.div_le_lower_bound; lia|].
    assert (2 * ((W - (b2 - b0)) / 2) <= W - (b2 - b0))
      by (apply Z.mul_div_le; lia).
    lia. }
  assert (Hy : 20 <= (H - (b3 - b1)) / 2
               /\ (H - (b3 - b1)) / 2 + (b3 - b1) + 20 <= H).
  { split; [apply Z.div_le_lower_bound; lia|].
    assert (2 * ((H - (b3 - b1)) / 2) <= H - (b3 - b1))
      by (apply Z.mul_div_le; lia).
    lia. }
  destruct (String.eqb position "custom") eqn:E.
  - apply String.eqb_eq in E.
    destruct (Hc E) as [-> | ->]; [|destruct x];
      repeat match goal with
      | |- context [if ?c then _ else _] => destruct c
      end; cbn [bbox0 bbox1 bbox2 bbox3]; lia.
  - repeat match goal with
    | |- context [if ?c then _ else _] => destruct c
    end; cbn [bbox0 bbox1 bbox2 bbox3]; lia.
Qed.

(** A 120 x 30 text whose ink starts 9 pixels below the drawing point. *)
Lemma text_inside_image_witness :
  inside_image 800 600
    (ink_box 800 600 (mkBBox 0 9 120 39) "bottom-right" None None).
Proof.
  apply (text_inside_image 800 600 (mkBBox 0 9 120 39) "bottom-right" None None);
    unfold margin; cbn; try lia.
  intros E. discriminate E.
Defined.

(** Why the origin of the bounding box has to be within the margin: a
    large font leaves more than 20 pixels above its glyphs, and the text
    placed at the bottom then ends below the image.  And custom
    coordinates are clamped for the size of the text, not for its ink: at
    y = 600 the drawing point is moved up to 570 and the ink ends at 609. *)
Lemma text_outside_image :
  ink_box 800 600 (mkBBox 0 45 400 190) "bottom-right" None None
  = mkBBox 380 480 780 625
  /\ ink_box 800 600 (mkBBox 0 9 120 39) "custom" (Some 300) (Some 600)
     = mkBBox 300 579 420 609.
Proof. split; reflexivity. Qed.

End WatermarkFacts.

Section NumberInputFacts.
Import NumberInput.

Lemma apply_in_range (lo hi : Z) (self : t) (op : Op) :
  lo <= hi -> is_range_set op = false ->
  in_range lo hi self -> in_range lo hi (apply self op).
Proof.
  intros Hlh Hop (Hmin & Hmax & Hv & Hs).
  destruct op; try discriminate Hop; unfold apply, in_range.
  - unfold setValue, _clamp_value, assign. cbn. rewrite Hmin, Hmax.
    repeat split; try lia. exact Hs.
  - unfold setStep. cbn. repeat split; try lia; assumption.
  - unfold _decrease, emit, _clamp_value, assign. cbn. rewrite Hmin, Hmax.
    repeat split; try lia.
    apply Forall_app. split; [exact Hs|]. constructor; [lia|constructor].
  - unfold _increase, emit, _clamp_value, assign. cbn. rewrite Hmin, Hmax.
    repeat split; try lia.
    apply Forall_app. split; [exact Hs|]. constructor; [lia|constructor].
  - unfold _on_text_changed. destruct parsed as [n|]; [|repeat split; try lia; assumption].
    destruct (negb (n =? _value self)); [|repeat split; try lia; assumption].
    unfold emit, _clamp_value, assign. cbn. rewrite Hmin, Hmax.
    destruct (negb _); cbn; repeat split; try lia; try exact Hs.
    apply Forall_app. split; [exact Hs|]. constructor; [lia|constructor].
Qed.

(** A [NumberInput] given the range [lo..hi] never holds and never signals
    a value outside it, whatever is typed into it, however often its
    buttons are clicked and whatever value or step the program sets. *)
Theorem number_input_stays_in_range (lo hi : Z) (ops : list Op) :
  lo <= hi ->
  forallb (fun op => negb (is_range_set op)) ops = true ->
  let self := run_ops (setRange init lo hi) ops in
  lo <= value self <= hi
  /\ Forall (fun v => lo <= v <= hi) (valueChanged self).
Proof.
  intros Hlh Hops.
  assert (H0 : in_range lo hi (setRange init lo hi)).
  { unfold in_range, setRange, _clamp_value. cbn. repeat split; try lia.
    constructor. }
  cbn zeta. unfold run_ops. revert H0 Hops.
  generalize (setRange init lo hi) as s.
  induction ops as [|op rest IH]; intros s Hs Hall.
  - destruct Hs as (_ & _ & Hv & Hf). split; assumption.
  - simpl in Hall. apply andb_prop in Hall as [Hop Hrest].
    simpl. apply IH; [|exact Hrest].
    apply apply_in_range; try assumption.
    destruct (is_range_set op); [discriminate Hop | reflexivity].
Qed.

Lemma number_input_stays_in_range_witness :
  -360 <= NumberInput.value
            (run_ops (setRange init (-360) 360)
               [text_edited (Some 400); plus_clicked; value_set (-1000);
                step_set 90; minus_clicked]) <= 360
  /\ Forall (fun v => -360 <= v <= 360)
       (valueChanged
          (run_ops (setRange init (-360) 360)
             [text_edited (Some 400); plus_clicked; value_set (-1000);
              step_set 90; minus_clicked])).
Proof.
  apply (number_input_stays_in_range (-360) 360
           [text_edited (Some 400); plus_clicked; value_set (-1000);
            step_set 90; minus_clicked]); [lia | reflexivity].
Defined.

End NumberInputFacts.

(* ===================================================================== *)
(** * More on the coordinate conversion; dragging the preview *)
(* ===================================================================== *)

Section PointFacts.
Import CropLabel.

Lemma round_mono (a b : Q) : (a <= b)%Q -> round a <= round b.
Proof.
  intros Hab.
  pose proof (Qfloor_resp_le a b Hab) as Hf.
  destruct (Z.eq_dec (Qfloor a) (Qfloor b)) as [E|N].
  - unfold round. rewrite E.
    destruct (Qcompare_spec (a - inject_Z (Qfloor b)) (1 # 2)) as [Ha|Ha|Ha];
      destruct (Qcompare_spec (b - inject_Z (Qfloor b)) (1 # 2)) as [Hb|Hb|Hb];
      try destruct (Z.even (Qfloor b)); try lia; exfalso; lra.
  - destruct (round_cases a) as [Ra|Ra], (round_cases b) as [Rb|Rb]; lia.
Qed.

Lemma unscaled_left (screen lsize ssize : Z) (offset : Q) (isize : Z) :
  1 <= ssize -> 1 <= isize ->
  (inject_Z screen <= bitmap_origin lsize ssize offset)%Q ->
  clamp 0 (round (unscaled screen lsize ssize offset isize)) (isize - 1) = 0.
Proof.
  intros Hs Hi Hle. unfold clamp.
  assert (H : round (unscaled screen lsize ssize offset isize) <= 0).
  { apply round_le_Z. unfold unscaled. unfold bitmap_origin in Hle.
    pose proof (inject_Z_pos ssize Hs) as Hp.
    pose proof (inject_Z_pos isize Hi) as Hq.
    change (inject_Z 0) with 0%Q.
    setoid_replace 0%Q with (0 / inject_Z ssize * inject_Z isize)%Q
      by (field; intros E; rewrite E in Hp; apply (Qlt_irrefl _ Hp)).
    apply Qmult_le_compat_r; [|apply Qlt_le_weak; exact Hq].
    apply Qmult_le_compat_r; [lra|].
    apply Qlt_le_weak, Qinv_lt_0_compat, Hp. }
  lia.
Qed.

Lemma unscaled_right (screen lsize ssize : Z) (offset : Q) (isize : Z) :
  1 <= ssize -> 1 <= isize ->
  (bitmap_origin lsize ssize offset + inject_Z ssize <= inject_Z screen)%Q ->
  clamp 0 (round (unscaled screen lsize ssize offset isize)) (isize - 1)
  = isize - 1.
Proof.
  intros Hs Hi Hle. unfold clamp.
  assert (H : isize <= round (unscaled screen lsize ssize offset isize)).
  { apply round_ge_Z. unfold unscaled. unfold bitmap_origin in Hle.
    pose proof (inject_Z_pos ssize Hs) as Hp.
    pose proof (inject_Z_pos isize Hi) as Hq.
    setoid_replace (inject_Z isize)
      with (inject_Z ssize / inject_Z ssize * inject_Z isize)%Q at 1
      by (field; intros E; rewrite E in Hp; apply (Qlt_irrefl _ Hp)).
    apply Qmult_le_compat_r; [|apply Qlt_le_weak; exact Hq].
    apply Qmult_le_compat_r; [lra|].
    apply Qlt_le_weak, Qinv_lt_0_compat, Hp. }
  lia.
Qed.

Lemma unscaled_mono (s s' lsize ssize : Z) (offset : Q) (isize : Z) :
  1 <= ssize -> 1 <= isize -> s <= s' ->
  clamp 0 (round (unscaled s lsize ssize offset isize)) (isize - 1)
  <= clamp 0 (round (unscaled s' lsize ssize offset isize)) (isize - 1).
Proof.
  intros Hs Hi Hle.
  assert (H : round (unscaled s lsize ssize offset isize)
              <= round (unscaled s' lsize ssize offset isize)).
  { apply round_mono. unfold unscaled.
    pose proof (inject_Z_pos ssize Hs) as Hp.
    pose proof (inject_Z_pos isize Hi) as Hq.
    apply Qmult_le_compat_r; [|apply Qlt_le_weak; exact Hq].
    apply Qmult_le_compat_r; [|apply Qlt_le_weak, Qinv_lt_0_compat, Hp].
    assert (inject_Z s <= inject_Z s')%Q by (rewrite <- Zle_Qle; exact Hle).
    lra. }
  unfold clamp. lia.
Qed.

(** What a successful conversion says of the label. *)
Lemma screen_to_image_coords_some (self : t) (pm : QPixmap) (p q : QPoint) :
  _original_pixmap self = Some pm ->
  screen_to_image_coords self p = Some q ->
  let sp := scaled_pixmap pm (_zoom_factor self) in
  1 <= pm_width sp /\ 1 <= pm_height sp
  /\ 1 <= pm_width pm /\ 1 <= pm_height pm
  /\ x q = clamp 0
             (round (unscaled (x p) (label_width self) (pm_width sp)
                       (_offset_x self) (pm_width pm)))
             (pm_width pm - 1)
  /\ y q = clamp 0
             (round (unscaled (y p) (label_height self) (pm_height sp)
                       (_offset_y self) (pm_height pm)))
             (pm_height pm - 1).
Proof.
  intros Hpm H. unfold screen_to_image_coords in H. rewrite Hpm in H.
  cbv zeta in *. unfold scaled_pixmap in *.
  destruct (scaled_size_cases pm
              (int_of_Q (inject_Z (pm_width pm) * _zoom_factor self))
              (int_of_Q (inject_Z (pm_height pm) * _zoom_factor self)))
    as [[Hc Hs]|(Hc & Hw & Hh)].
  - rewrite Hs in H. discriminate H.
  - assert (Hn : isNull pm = false).
    { destruct (isNull pm); [discriminate Hc | reflexivity]. }
    apply isNull_false in Hn.
    destruct (0 <? pm_width _) eqn:E1; [|apply Z.ltb_ge in E1; lia].
    destruct (0 <? pm_height _) eqn:E2; [|apply Z.ltb_ge in E2; lia].
    cbn [andb] in H. injection H as <-. cbn [x y].
    repeat split; try lia; reflexivity.
Qed.

(** Screen points beside the displayed bitmap convert to the nearest
    border pixel: a point on or left of the bitmap's left edge to column
    0, a point on or right of its right edge to the last column, and the
    same from top to bottom. *)
Theorem outside_points_map_to_border (self : t) (pm : QPixmap) (p q : QPoint) :
  _original_pixmap self = Some pm ->
  screen_to_image_coords self p = Some q ->
  let sp := scaled_pixmap pm (_zoom_factor self) in
  let img_x := bitmap_origin (label_width self) (pm_width sp) (_offset_x self) in
  let img_y := bitmap_origin (label_height self) (pm_height sp) (_offset_y self) in
  ((inject_Z (x p) <= img_x)%Q -> x q = 0)
  /\ ((img_x + inject_Z (pm_width sp) <= inject_Z (x p))%Q -> x q = pm_width pm - 1)
  /\ ((inject_Z (y p) <= img_y)%Q -> y q = 0)
  /\ ((img_y + inject_Z (pm_height sp) <= inject_Z (y p))%Q
      -> y q = pm_height pm - 1).
Proof.
  intros Hpm H.
  destruct (screen_to_image_coords_some self pm p q Hpm H)
    as (Hw & Hh & HW & HH & Hx & Hy).
  cbv zeta in *. rewrite Hx, Hy.
  repeat split; intros Hle.
  - apply unscaled_left; assumption.
  - apply unscaled_right; assumption.
  - apply unscaled_left; assumption.
  - apply unscaled_right; assumption.
Qed.

Lemma outside_points_map_to_border_witness :
  exists q,
    screen_to_image_coords (label_showing 400 300 800 600 1 0 0)
      (mkQPoint 50 700) = Some q
    /\ x q = 0 /\ y q = 299.
Proof.
  exists (mkQPoint 0 299). split; [reflexivity|].
  destruct (outside_points_map_to_border
              (label_showing 400 300 800 600 1 0 0) (mkQPixmap 400 300)
              (mkQPoint 50 700) (mkQPoint 0 299) eq_refl eq_refl)
    as (H1 & _ & _ & H4).
  split; [apply H1 | apply H4]; apply Qle_bool_iff; reflexivity.
Defined.

(** The conversion keeps the order of screen points along each axis: a
    point further right never converts to a column further left, and a
    point further down never to a row further up. *)
Theorem screen_to_image_coords_monotone (self : t) (p p' q q' : QPoint) :
  screen_to_image_coords self p = Some q ->
  screen_to_image_coords self p' = Some q' ->
  (x p <= x p' -> x q <= x q') /\ (y p <= y p' -> y q <= y q').
Proof.
  intros H H'.
  destruct (_original_pixmap self) as [pm|] eqn:Hpm.
  - destruct (screen_to_image_coords_some self pm p q Hpm H)
      as (Hw & Hh & HW & HH & Hx & Hy).
    destruct (screen_to_image_coords_some self pm p' q' Hpm H')
      as (_ & _ & _ & _ & Hx' & Hy').
    cbv zeta in *. rewrite Hx, Hy, Hx', Hy'.
    split; intros Hle; apply unscaled_mono; assumption.
  - unfold screen_to_image_coords in H. rewrite Hpm in H. discriminate H.
Qed.

Lemma screen_to_image_coords_monotone_witness :
  248 <= 251.
Proof.
  apply (screen_to_image_coords_monotone
           (label_showing 1024 768 800 600 (38 # 100) 0 0)
           (mkQPoint 300 200) (mkQPoint 301 200)
           (mkQPoint 248 121) (mkQPoint 251 121) eq_refl eq_refl).
  simpl. lia.
Defined.

End PointFacts.

Section DragFacts.
Import CropLabel64.
Local Open Scope py_scope.

Lemma last_cons (A : Type) (l : list A) (a d : A) :
  last (a :: l) d = last l a.
Proof.
  revert a d. induction l as [|b l IH]; intros a d; [reflexivity|].
  change (last (a :: b :: l) d) with (last (b :: l) d).
  rewrite (IH b d), (IH b a). reflexivity.
Qed.

(** While the pan offsets are ints, moving the bitmap by whole pixels
    moves what every screen point shows: the int subtraction
    [screen_pos.x() - img_x] is exact. *)
Lemma screen_to_image_coords_shift (l : t) (ox oy : Z) (p : QPoint)
    (dx dy : Z) :
  _offset_x l = Int ox -> _offset_y l = Int oy ->
  screen_to_image_coords
    (with_view l (_zoom_factor l) (Int (ox + dx)) (Int (oy + dy)))
    (mkQPoint (x p + dx) (y p + dy))
  = screen_to_image_coords l p.
Proof.
  intros Hx Hy. unfold screen_to_image_coords.
  cbn [with_view _original_pixmap _zoom_factor _offset_x _offset_y
       label_width label_height x y].
  rewrite Hx, Hy.
  destruct (_original_pixmap l) as [pm|]; [|reflexivity].
  destruct (scaled_pixmap pm (_zoom_factor l)) as [sp|e]; [|reflexivity].
  cbn [bind]. cbv zeta. unfold bitmap_origin. cbn [num_add num_sub].
  replace (x p + dx - ((label_width l - pm_width sp) // 2 + (ox + dx)))
    with (x p - ((label_width l - pm_width sp) // 2 + ox)) by lia.
  replace (y p + dy - ((label_height l - pm_height sp) // 2 + (oy + dy)))
    with (y p - ((label_height l - pm_height sp) // 2 + oy)) by lia.
  reflexivity.
Qed.

Lemma moves_dragged (l0 : t) (ox oy : Z) (p0 : QPoint) (path : list QPoint) :
  _selecting l0 = false ->
  forall (cur : QPoint) (self : t),
    dragged l0 ox oy p0 cur self ->
    exists self',
      moves self path = Some self' /\ dragged l0 ox oy p0 (last path cur) self'.
Proof.
  intros Hsel. induction path as [|pos rest IH]; intros cur self Hd.
  - exists self. split; [reflexivity | exact Hd].
  - unfold dragged in Hd. subst self.
    cbn [moves]. unfold mouseMoveEvent.
    cbn [with_drag with_view _selecting _dragging _drag_start_pos
         _offset_x _offset_y _zoom_factor num_add].
    rewrite Hsel.
    match goal with
    | |- context [moves ?s rest] =>
        destruct (IH pos s) as (self' & Hm & Hd')
    end.
    + unfold dragged, with_drag, with_view; cbn.
      f_equal; f_equal; lia.
    + exists self'. split; [exact Hm|].
      rewrite last_cons. exact Hd'.
Qed.

(** While the pan offsets are still the ints they are after an image is
    shown or the view is reset (no zoom step since), dragging with the
    right button moves the image with the pointer: from the press at [p0]
    through any path of move events the offsets stay ints, each screen
    point shows afterwards what the point that far back along the drag
    showed before, and the pointer stays on the image point it grabbed. *)
Theorem drag_moves_image_with_pointer (self : t) (ox oy : Z) (p0 p : QPoint)
    (path : list QPoint) :
  _selecting self = false ->
  _offset_x self = Int ox ->
  _offset_y self = Int oy ->
  exists self',
    moves (mousePressEvent_right self p0) path = Some self'
    /\ _drag_start_pos self' = Some (last path p0)
    /\ _offset_x self' = Int (ox + (x (last path p0) - x p0))
    /\ _offset_y self' = Int (oy + (y (last path p0) - y p0))
    /\ screen_to_image_coords self'
         (mkQPoint (x p + (x (last path p0) - x p0))
                   (y p + (y (last path p0) - y p0)))
       = screen_to_image_coords self p
    /\ screen_to_image_coords self' (last path p0)
       = screen_to_image_coords self p0.
Proof.
  intros Hsel Hox Hoy.
  destruct (moves_dragged self ox oy p0 path Hsel p0
              (mousePressEvent_right self p0)) as (self' & Hm & Hd).
  { unfold dragged, mousePressEvent_right. rewrite !Z.sub_diag, !Z.add_0_r.
    rewrite <- Hox, <- Hoy. destruct self; reflexivity. }
  exists self'. split; [exact Hm|].
  unfold dragged in Hd. subst self'.
  split; [reflexivity|]. split; [reflexivity|]. split; [reflexivity|].
  assert (E : forall l zz a b q,
             screen_to_image_coords
               (with_drag (with_view l zz a b) true (Some (last path p0))) q
             = screen_to_image_coords (with_view l zz a b) q).
  { intros. reflexivity. }
  rewrite !E. split.
  - apply screen_to_image_coords_shift; assumption.
  - rewrite <- (screen_to_image_coords_shift self ox oy p0
                  (x (last path p0) - x p0) (y (last path p0) - y p0) Hox Hoy).
    f_equal. destruct (last path p0) as [a b]. cbn [x y]. f_equal; lia.
Qed.

(** An 800 x 600 image just shown in an 800 x 600 label, grabbed at
    (100, 100) and dragged through (130, 90) to (180, 140). *)
Lemma drag_moves_image_with_pointer_witness :
  exists self',
    moves (mousePressEvent_right
             (set_original_pixmap (init 800 600) (mkQPixmap 800 600))
             (mkQPoint 100 100))
      [mkQPoint 130 90; mkQPoint 180 140] = Some self'
    /\ screen_to_image_coords self' (mkQPoint 180 140)
       = Return (Some (mkQPoint 100 100)).
Proof.
  destruct (drag_moves_image_with_pointer
              (set_original_pixmap (init 800 600) (mkQPixmap 800 600)) 0 0
              (mkQPoint 100 100) (mkQPoint 100 100)
              [mkQPoint 130 90; mkQPoint 180 140] eq_refl eq_refl eq_refl)
    as (self' & Hm & _ & _ & _ & _ & Hp).
  exists self'. split; [exact Hm|]. exact (eq_trans Hp eq_refl).
Defined.

(** After a zoom step the offsets are floats, each [+= delta] rounds, and
    the pointer need not stay on its image point.  An 800 x 600 image,
    the slider at 80, one zoom-out step at (465, 282), then a drag from
    (218, 120) through (311, 426) and (422, 177) to (215, 599): the pointer
    is over (138, 53) at the press and over (138, 52) at the end. *)
Lemma drag_drift_after_zoom :
  let loaded := set_original_pixmap (init 800 600) (mkQPixmap 800 600) in
  exists self1 self2 self3,
    slider_moved loaded 80 = Return self1
    /\ zoom_at_point self1 (mkQPoint 465 282) false = Return self2
    /\ _selecting self2 = false
    /\ moves (mousePressEvent_right self2 (mkQPoint 218 120))
         [mkQPoint 311 426; mkQPoint 422 177; mkQPoint 215 599] = Some self3
    /\ screen_to_image_coords self2 (mkQPoint 218 120)
       = Return (Some (mkQPoint 138 53))
    /\ screen_to_image_coords self3 (mkQPoint 215 599)
       = Return (Some (mkQPoint 138 52)).
Proof.
  do 3 eexists.
  split; [vm_compute; reflexivity|].
  split; [vm_compute; reflexivity|].
  split; [reflexivity|].
  split; [vm_compute; reflexivity|].
  split; vm_compute; reflexivity.
Qed.

End DragFacts.

(* ===================================================================== *)
(** * A rectangle of height zero under a locked ratio *)
(* ===================================================================== *)

Section FlatRectangle.
Import CropLabel.
Local Open Scope py_scope.

(** A rectangle of height zero under a locked ratio: when its centre lies
    on the displayed bitmap, the conversion divides the rectangle's width
    by its height and raises [ZeroDivisionError]. *)
Theorem flat_rectangle_raises (self : t) (pm : QPixmap) (a : Q)
    (screen_rect : QRect) :
  _original_pixmap self = Some pm ->
  _aspect_ratio self = Some a ->
  (1 # 1000 < Qabs a)%Q ->
  rect_height screen_rect = 0 ->
  let sp := scaled_pixmap pm (_zoom_factor self) in
  let img_x := bitmap_origin (label_width self) (pm_width sp) (_offset_x self) in
  let img_y := bitmap_origin (label_height self) (pm_height sp) (_offset_y self) in
  1 <= pm_width sp -> 1 <= pm_height sp ->
  (img_x <= inject_Z (x (center screen_rect)) <= img_x + inject_Z (pm_width sp))%Q ->
  (img_y <= inject_Z (y (center screen_rect)) <= img_y + inject_Z (pm_height sp))%Q ->
  screen_rect_to_image_rect self screen_rect = Raise ZeroDivisionError.
Proof.
  intros Hpm Ha Habs Hflat sp img_x img_y Hw Hh Hx Hy.
  unfold screen_rect_to_image_rect. rewrite Hpm, Ha, Hflat. cbv zeta.
  fold sp. unfold bitmap_origin in img_x, img_y. fold img_x img_y.
  assert (G1 : Qltb (inject_Z (x (center screen_rect)) - img_x) 0 = false)
    by (apply Qltb_ge; lra).
  assert (G2 : Qgtb (inject_Z (x (center screen_rect)) - img_x)
                 (inject_Z (pm_width sp)) = false) by (apply Qgtb_le; lra).
  assert (G3 : Qltb (inject_Z (y (center screen_rect)) - img_y) 0 = false)
    by (apply Qltb_ge; lra).
  assert (G4 : Qgtb (inject_Z (y (center screen_rect)) - img_y)
                 (inject_Z (pm_height sp)) = false) by (apply Qgtb_le; lra).
  rewrite G1, G2, G3, G4. cbn [orb].
  destruct (0 <? pm_width sp) eqn:E1; [|apply Z.ltb_ge in E1; lia].
  destruct (0 <? pm_height sp) eqn:E2; [|apply Z.ltb_ge in E2; lia].
  cbn [andb]. unfold lock_ratio.
  set (img_h := (inject_Z 0 / inject_Z (pm_height sp) * inject_Z (pm_height pm))%Q).
  assert (E0 : (img_h == 0)%Q).
  { subst img_h. change (inject_Z 0) with 0%Q. unfold Qdiv.
    rewrite !Qmult_0_l. reflexivity. }
  assert (E3 : Qgtb img_h 0 = false) by (apply Qgtb_le; rewrite E0; lra).
  rewrite E3. cbn [bind].
  assert (E4 : Qgtb (Qabs (0 - a)) (1 # 1000) = true).
  { apply Qgtb_lt.
    assert (Eq : (Qabs (0 - a) == Qabs a)%Q).
    { rewrite <- (Qabs_opp a). apply Qabs_wd. ring. }
    rewrite Eq. exact Habs. }
  rewrite E4. unfold truediv at 1.
  assert (E5 : Qeq_bool img_h 0 = true) by (apply Qeq_bool_iff; exact E0).
  rewrite E5. reflexivity.
Qed.

Lemma flat_rectangle_raises_witness :
  screen_rect_to_image_rect
    (with_aspect (label_showing 800 600 800 600 1 0 0) (16 # 9))
    (mkQRect 100 100 200 99)
  = Raise ZeroDivisionError.
Proof.
  apply (flat_rectangle_raises _ (mkQPixmap 800 600) (16 # 9)).
  - reflexivity.
  - reflexivity.
  - reflexivity.
  - reflexivity.
  - vm_compute. discriminate.
  - vm_compute. discriminate.
  - split; apply Qle_bool_iff; reflexivity.
  - split; apply Qle_bool_iff; reflexivity.
Defined.

End FlatRectangle.

(* ===================================================================== *)
(** * From the selection to the crop *)
(* ===================================================================== *)

Section SelectionResults.
Import CropLabel.

Lemma QRect_xywh_size (l t w h : Z) :
  left (QRect_xywh l t w h) = l /\ top (QRect_xywh l t w h) = t
  /\ rect_width (QRect_xywh l t w h) = w
  /\ rect_height (QRect_xywh l t w h) = h.
Proof.
  unfold left, top, rect_width, rect_height, QRect_xywh. cbn. repeat split; lia.
Qed.

Lemma final_stage_free (W H : Z) (r0 r : Z * Z * Z * Z) :
  1 <= W -> 1 <= H ->
  final_ratio None W H (final_bounds W H r0) = Return r ->
  let '(l, t, w, h) := r in
  0 <= l /\ 0 <= t /\ 1 <= w /\ 1 <= h /\ l + w <= W /\ t + h <= H.
Proof.
  intros HW HH. destruct r0 as [[[l0 t0] w0] h0].
  unfold final_bounds, final_ratio. intros R. injection R as <-. lia.
Qed.

Lemma locked_ok_not_empty (a : Q) (W H : Z) (r : Z * Z * Z * Z) :
  (1 # 2 < a)%Q -> (a < 2)%Q -> locked_ok a W H r ->
  let '(l, t, w, h) := r in
  0 <= l /\ 0 <= t /\ 1 <= w /\ 1 <= h /\ l + w <= W /\ t + h <= H.
Proof.
  intros Ha1 Ha2. destruct r as [[[l t] w] h]. unfold locked_ok.
  intros (Hl & Ht & Hw & Hh & Hlw & Hth & [(H1 & H2 & _)|[(H1 & H2)|(H1 & H2)]]).
  - lia.
  - assert (Hp : (1 <= inject_Z h)%Q).
    { change 1%Q with (inject_Z 1). rewrite <- Zle_Qle. exact H1. }
    assert (Hq : (0 < inject_Z w)%Q).
    { apply Qabs_Qle_condition in H2 as [H2 _].
      assert (1 # 2 < inject_Z h * a)%Q.
      { apply Qlt_le_trans with (y := (1 * a)%Q); [lra|].
        apply Qmult_le_compat_r; lra. }
      lra. }
    change 0%Q with (inject_Z 0) in Hq. rewrite <- Zlt_Qlt in Hq. lia.
  - assert (Hp : (1 <= inject_Z w)%Q).
    { change 1%Q with (inject_Z 1). rewrite <- Zle_Qle. exact H1. }
    assert (Hq : (0 < inject_Z h)%Q).
    { apply Qabs_Qle_condition in H2 as [H2 _].
      assert (1 # 2 < inject_Z w / a)%Q.
      { apply Qlt_shift_div_l; lra. }
      lra. }
    change 0%Q with (inject_Z 0) in Hq. rewrite <- Zlt_Qlt in Hq. lia.
Qed.

Lemma ratio_map_range (index : Z) :
  index <> 5 ->
  match Slots.ratio_map index with
  | None => True
  | Some a => (1 # 2 < a)%Q /\ (a < 2)%Q
  end.
Proof.
  intros Hi. unfold Slots.ratio_map.
  destruct index as [|p|p]; try exact I.
  destruct p as [[[p|p|]|[p|p|]|]|[[p|p|]|[p|p|]|]|];
    try exact I; try (split; reflexivity).
  exfalso. apply Hi. reflexivity.
Qed.

(** With free selection and with every preset ratio but 21:9, a
    rectangle the conversion returns is never empty and lies inside the
    image: width and height are at least 1, and the rectangle ends at or
    before the right and bottom edges. *)
Theorem selection_not_empty (self : t) (pm : QPixmap) (index : Z)
    (screen_rect r : QRect) :
  _original_pixmap self = Some pm ->
  _aspect_ratio self = Slots.ratio_map index ->
  index <> 5 ->
  screen_rect_to_image_rect self screen_rect = Return (Some r) ->
  inside (pm_width pm) (pm_height pm) r.
Proof.
  intros Hpm Ha Hi Hr.
  destruct (screen_rect_to_image_rect_inv self pm screen_rect r Hpm Hr)
    as (HW & HH & r0 & l & t & w & h & Hf & ->).
  unfold inside. destruct (QRect_xywh_size l t w h) as (-> & -> & -> & ->).
  pose proof (ratio_map_range index Hi) as Hrange.
  rewrite Ha in Hf. destruct (Slots.ratio_map index) as [a|].
  - destruct Hrange as [H1 H2].
    assert (Hpos : (0 < a)%Q) by lra.
    pose proof (final_stage a _ _ r0 _ Hpos HW HH Hf) as Hok.
    apply (locked_ok_not_empty a _ _ (l, t, w, h) H1 H2 Hok).
  - apply (final_stage_free _ _ r0 (l, t, w, h) HW HH Hf).
Qed.

Lemma selection_not_empty_witness :
  inside 800 600 (QRect_xywh 100 99 14 8).
Proof.
  apply (selection_not_empty
           (with_aspect (label_showing 800 600 800 600 1 0 0) (16 # 9))
           (mkQPixmap 800 600) 3
           (QRect_points (mkQPoint 100 100) (mkQPoint 114 107))).
  - reflexivity.
  - reflexivity.
  - lia.
  - vm_compute. reflexivity.
Defined.

End SelectionResults.

Section SelectionToCrop.
Import MainWindow.

Variable int_of_str : string -> option Z.

(** What the mouse and the crop button do together: a rectangle dragged
    on the preview that converts to at least 5 x 5 pixels is written to
    the four crop fields, and the crop request that reads the fields back
    cuts exactly that rectangle out of the current image: the new current
    image has the rectangle's width and height and its pixels are the box
    from the rectangle's corner, and the image before it is on the undo
    stack. *)
Theorem selected_rectangle_is_cropped (self : t) (cur : Image)
    (screen_rect r : QRect) :
  current_image self = Some cur ->
  preview_in_sync self ->
  match CropLabel._aspect_ratio (preview_label self) with
  | None => True
  | Some a => (0 < a)%Q
  end ->
  CropLabel.screen_rect_to_image_rect (preview_label self) screen_rect
  = Return (Some r) ->
  5 <= rect_width r -> 5 <= rect_height r ->
  int_of_str (Slots.str (left r)) = Some (left r) ->
  int_of_str (Slots.str (top r)) = Some (top r) ->
  int_of_str (Slots.str (rect_width r)) = Some (rect_width r) ->
  int_of_str (Slots.str (rect_height r)) = Some (rect_height r) ->
  exists self1 self2 img,
    Slots.on_selection_finished self screen_rect = Return self1
    /\ apply_crop int_of_str self1 = Return self2
    /\ current_image self2 = Some img
    /\ width img = rect_width r /\ height img = rect_height r
    /\ pixels img
       = Boxed (pixels (ImageTools.ensure_rgb cur)) (left r) (top r)
           (left r + rect_width r) (top r + rect_height r)
    /\ history self2 = append_bounded (history self) cur.
Proof.
  intros Hc Hsync Ha Hr Hw5 Hh5 I1 I2 I3 I4.
  unfold preview_in_sync in Hsync. rewrite Hc in Hsync. cbn [option_map] in Hsync.
  destruct (screen_rect_to_image_rect_inv _ _ screen_rect r Hsync Hr)
    as (HW & HH & r0 & l & t & w & h & Hf & Er).
  cbn [pil_to_qpixmap pm_width pm_height] in HW, HH, Hf.
  assert (Hb : 0 <= l /\ 0 <= t /\ l + w <= width cur /\ t + h <= height cur).
  { destruct (CropLabel._aspect_ratio (preview_label self)) as [a|].
    - pose proof (final_stage a _ _ r0 _ Ha HW HH Hf) as Hok.
      unfold locked_ok in Hok. lia.
    - pose proof (final_stage_free _ _ r0 _ HW HH Hf) as Hok.
      cbn beta iota in Hok. lia. }
  destruct (QRect_xywh_size l t w h) as (El & Et & Ew & Eh).
  rewrite <- Er in El, Et, Ew, Eh. rewrite El, Et, Ew, Eh in *.
  unfold Slots.on_selection_finished. rewrite Hc, Hr. cbn [bind].
  rewrite El, Et, Ew, Eh.
  destruct (w <? 5) eqn:E1; [apply Z.ltb_lt in E1; lia|].
  destruct (h <? 5) eqn:E2; [apply Z.ltb_lt in E2; lia|].
  cbn [orb]. eexists. eexists. eexists. split; [reflexivity|].
  unfold apply_crop. cbn [set_widgets current_image crop_left crop_top crop_w crop_h].
  rewrite Hc, I1, I2, I3, I4.
  unfold apply_crop_rect. cbn [set_widgets current_image]. rewrite Hc.
  replace (Z.max 0 (Z.min l (width cur - 1))) with l by lia.
  replace (Z.max 0 (Z.min t (height cur - 1))) with t by lia.
  replace (Z.max 1 (Z.min w (width cur - l))) with w by lia.
  replace (Z.max 1 (Z.min h (height cur - t))) with h by lia.
  assert (Hcrop : ImageTools.crop cur l t w h
                  = Return {| mode := mode (ImageTools.ensure_rgb cur);
                              width := w; height := h;
                              pixels := Boxed (pixels (ImageTools.ensure_rgb cur))
                                          l t (l + w) (t + h) |}).
  { unfold ImageTools.crop. destruct (ensure_rgb_size cur) as [Ew' Eh'].
    rewrite Ew', Eh'.
    replace (Z.max 0 (Z.min l (width cur - 1))) with l by lia.
    replace (Z.max 0 (Z.min t (height cur - 1))) with t by lia.
    replace (Z.max (l + 1) (Z.min (l + w) (width cur))) with (l + w) by lia.
    replace (Z.max (t + 1) (Z.min (t + h) (height cur))) with (t + h) by lia.
    rewrite pil_crop_ordered by lia. do 2 f_equal; lia. }
  rewrite Hcrop. cbn [bind].
  split; [reflexivity|].
  cbn [set_preview current_image history].
  match goal with
  | |- context [update_preview ?A] =>
      destruct (update_preview_images A) as (U1 & U2 & _)
  end.
  rewrite U1, U2.
  cbn [set_images current_image history].
  match goal with
  | |- context [push_history ?s] =>
      assert (Hp : history (push_history s) = append_bounded (history self) cur)
  end.
  { rewrite (push_history_some _ cur); [reflexivity|]. exact Hc. }
  rewrite Hp. split; [reflexivity|]. repeat split.
Qed.

End SelectionToCrop.

Lemma selected_rectangle_is_cropped_witness :
  exists self1 self2 img,
    Slots.on_selection_finished opened_800x600
      (QRect_points (mkQPoint 100 100) (mkQPoint 299 249)) = Return self1
    /\ MainWindow.apply_crop int_of_decimal self1 = Return self2
    /\ MainWindow.current_image self2 = Some img
    /\ width img = 200 /\ height img = 150.
Proof.
  destruct (selected_rectangle_is_cropped int_of_decimal opened_800x600
              img_800x600
              (QRect_points (mkQPoint 100 100) (mkQPoint 299 249))
              (QRect_xywh 99 99 200 150) eq_refl eq_refl I)
    as (s1 & s2 & img & H1 & H2 & H3 & H4 & H5 & _).
  - vm_compute. reflexivity.
  - vm_compute. discriminate.
  - vm_compute. discriminate.
  - vm_compute. reflexivity.
  - vm_compute. reflexivity.
  - vm_compute. reflexivity.
  - vm_compute. reflexivity.
  - exists s1, s2, img. repeat split; assumption.
Defined.

(* ===================================================================== *)
(** * Clicks on the preview *)
(* ===================================================================== *)

Section ClickFacts.
Import CropLabel Mouse.

(** A click on the preview while a ratio is locked: the left button
    pressed and released at the same position, outside the watermark
    mode.  The release finds the end position equal to the pointer
    position, skips the block that assigns [delta_x] and then reads it:
    [UnboundLocalError]. *)
Theorem click_under_locked_ratio_raises (self : Mouse.t) (a : Q) (pos : QPoint) :
  _aspect_ratio (label self) = Some a ->
  _watermark_mode (label self) = false ->
  mouseReleaseEvent_left (mousePressEvent_left self pos) pos
  = UnboundLocalError.
Proof.
  intros Ha Hw. unfold mousePressEvent_left. rewrite Hw.
  unfold mouseReleaseEvent_left.
  cbn [with_label label with_selection _watermark_mode _selecting
       _aspect_ratio _start_pos _end_pos].
  rewrite Hw, Ha. unfold QPoint_eqb. rewrite !Z.eqb_refl. reflexivity.
Qed.

Lemma click_under_locked_ratio_raises_witness :
  mouseReleaseEvent_left
    (mousePressEvent_left
       (Mouse.mk (with_aspect (label_showing 800 600 800 600 1 0 0) (16 # 9))
          false None None)
       (mkQPoint 300 200))
    (mkQPoint 300 200)
  = UnboundLocalError.
Proof.
  apply (click_under_locked_ratio_raises _ (16 # 9)); reflexivity.
Defined.

End ClickFacts.

Section WatermarkClick.
Import CropLabel64 TextWatermark.
Local Open Scope py_scope.

(** A click in the watermark position mode.  The press converts the
    pointer position to the image point [q], the release emits
    [watermark_position_selected(q)], and [on_watermark_position_selected]
    stores [q] in the two custom spin boxes clamped to the ranges they have
    at that moment: unchanged when the ranges contain it.  The watermark
    then drawn from the custom item has its ink at the bounding box of the
    text moved to the stored point, when the text fits between that point
    and the right and bottom edges of the current image [cur]. *)
Theorem click_places_watermark (self : t) (cur : Image)
    (wm_custom_x wm_custom_y : NumberInput.t) (bbox : BBox) (pos q : QPoint) :
  _watermark_mode self = true ->
  screen_to_image_coords self pos = Return (Some q) ->
  exists self1,
    mousePressEvent_left self pos = Return self1
    /\ released_watermark_position self1 = Some (x q, y q)
    /\ let '(wx, wy) :=
         Slots.on_watermark_position_selected wm_custom_x wm_custom_y
           (x q) (y q) in
       let vx := NumberInput.value wx in
       let vy := NumberInput.value wy in
       vx = Z.max (NumberInput._min_value wm_custom_x)
              (Z.min (NumberInput._max_value wm_custom_x) (x q))
       /\ vy = Z.max (NumberInput._min_value wm_custom_y)
                 (Z.min (NumberInput._max_value wm_custom_y) (y q))
       /\ (NumberInput._min_value wm_custom_x <= x q
             <= NumberInput._max_value wm_custom_x -> vx = x q)
       /\ (NumberInput._min_value wm_custom_y <= y q
             <= NumberInput._max_value wm_custom_y -> vy = y q)
       /\ let '(position, cx, cy) := watermark_arguments "自定义" vx vy in
          let box := ink_box (width cur) (height cur) bbox position cx cy in
          (0 <= vx -> vx + (bbox2 bbox - bbox0 bbox) <= width cur ->
           bbox0 box = vx + bbox0 bbox /\ bbox2 box = vx + bbox2 bbox)
          /\ (0 <= vy -> vy + (bbox3 bbox - bbox1 bbox) <= height cur ->
              bbox1 box = vy + bbox1 bbox /\ bbox3 box = vy + bbox3 bbox).
Proof.
  intros Hw Hq. unfold mousePressEvent_left. rewrite Hw, Hq. cbn [bind].
  eexists. split; [reflexivity|].
  unfold released_watermark_position.
  cbn [with_watermark _watermark_mode _watermark_pos].
  split; [reflexivity|].
  unfold Slots.on_watermark_position_selected.
  unfold NumberInput.value, NumberInput.setValue, NumberInput._clamp_value,
    NumberInput.assign.
  cbn [NumberInput._value NumberInput._min_value NumberInput._max_value].
  cbv zeta.
  split; [reflexivity|]. split; [reflexivity|].
  split; [lia|]. split; [lia|].
  unfold watermark_arguments.
  cbn [String.eqb Ascii.eqb Bool.eqb andb]. unfold ink_box, text_position.
  cbn [String.eqb Ascii.eqb Bool.eqb andb]. cbn [bbox0 bbox1 bbox2 bbox3].
  split; intros H0 H1; split; lia.
Qed.

(** An 800 x 600 image just shown, the custom item chosen, a click at
    (300, 200), and a text whose ink starts 9 pixels below its anchor. *)
Lemma click_places_watermark_witness :
  let self :=
    with_watermark (set_original_pixmap (init 800 600) (mkQPixmap 800 600))
      true None in
  exists self1,
    mousePressEvent_left self (mkQPoint 300 200) = Return self1
    /\ released_watermark_position self1 = Some (300, 200)
    /\ bbox1 (ink_box 800 600 (mkBBox 0 9 120 39) "custom" (Some 300) (Some 200))
       = 209.
Proof.
  intros self.
  destruct (click_places_watermark self img_800x600
              (NumberInput.setRange NumberInput.init 0 800)
              (NumberInput.setRange NumberInput.init 0 600)
              (mkBBox 0 9 120 39)
              (mkQPoint 300 200) (mkQPoint 300 200) eq_refl eq_refl)
    as (self1 & H1 & H2 & H3).
  exists self1. split; [exact H1|]. split; [exact H2|].
  cbv zeta in H3.
  unfold Slots.on_watermark_position_selected, watermark_arguments in H3.
  cbn [String.eqb Ascii.eqb Bool.eqb andb] in H3.
  destruct H3 as (_ & _ & _ & _ & _ & Hy).
  apply Hy; vm_compute; discriminate.
Defined.

(** The ranges of the two spin boxes are set when the custom item is
    chosen (and to 0..10000 when the window is built), not when the image
    changes.  Chosen on an 800 x 600 image that is then scaled to
    1600 x 1200, a click on the image point (1100, 800) is stored as
    (800, 600). *)
Lemma click_clamped_by_stale_range :
  let shown := set_original_pixmap (init 800 600) (mkQPixmap 1600 1200) in
  let '(wx, wy) :=
    Slots.custom_ranges NumberInput.init NumberInput.init img_800x600 in
  screen_to_image_coords shown (mkQPoint 700 500)
  = Return (Some (mkQPoint 1100 800))
  /\ (let '(wx, wy) := Slots.on_watermark_position_selected wx wy 1100 800 in
      NumberInput.value wx = 800 /\ NumberInput.value wy = 600).
Proof. split; [vm_compute; reflexivity|]. split; reflexivity. Qed.

End WatermarkClick.

(* ===================================================================== *)
(** * Undoing every edit *)
(* ===================================================================== *)

Section UndoAllFacts.
Import MainWindow.

Lemma edits_current (results : list Image) :
  forall (self : t) (cur : Image),
    current_image self = Some cur ->
    current_image (edits results self) = Some (last results cur)
    /\ redo_history (edits results self)
       = match results with [] => redo_history self | _ => [] end.
Proof.
  induction results as [|r rest IH]; intros self cur Hc.
  - split; [exact Hc | reflexivity].
  - cbn [edits].
    assert (H1 : current_image (on_worker_finished (push_history self) r) = Some r).
    { unfold on_worker_finished. apply update_preview_images. }
    assert (H2 : redo_history (on_worker_finished (push_history self) r) = []).
    { unfold on_worker_finished. cbn [set_workers redo_history].
      match goal with
      | |- context [update_preview ?A] =>
          destruct (update_preview_images A) as (_ & _ & E & _)
      end.
      rewrite E. cbn [set_images redo_history].
      rewrite (push_history_some self cur Hc). reflexivity. }
    destruct (IH _ r H1) as (I1 & I2). split.
    + rewrite I1, last_cons. reflexivity.
    + rewrite I2, H2. destruct rest; reflexivity.
Qed.

Lemma undos_walk_back (h : list Image) :
  forall (self : t) (c : Image),
    current_image self = Some c ->
    history self = h ->
    (List.length (redo_history self) + List.length h <= 10)%nat ->
    let self' := Nat.iter (List.length h) undo self in
    current_image self' = Some (hd c h)
    /\ history self' = []
    /\ redo_history self' = redo_history self ++ rev (tl (h ++ [c])).
Proof.
  induction h as [|top h' IH] using rev_ind; intros self c Hc Hh Hr.
  - simpl. rewrite app_nil_r. auto.
  - rewrite length_app in *. cbn [List.length] in *.
    replace (List.length h' + 1)%nat with (S (List.length h')) by lia.
    rewrite Nat.iter_succ_r.
    assert (Hu : current_image (undo self) = Some top
                 /\ history (undo self) = h'
                 /\ redo_history (undo self) = redo_history self ++ [c]).
    { unfold undo. rewrite Hh, pop_snoc, Hc. unfold copy.
      rewrite append_bounded_room by lia.
      match goal with
      | |- context [update_preview ?A] =>
          destruct (update_preview_images A) as (E1 & E2 & E3 & _)
      end.
      rewrite E1, E2, E3. repeat split. }
    destruct Hu as (U1 & U2 & U3).
    destruct (IH (undo self) top U1 U2) as (I1 & I2 & I3).
    { rewrite U3, length_app. simpl. lia. }
    cbv zeta in *. rewrite I1, I2, I3, U3.
    repeat split.
    + destruct h'; reflexivity.
    + rewrite <- app_assoc. f_equal.
      destruct h' as [|a h'].
      * reflexivity.
      * cbn [app tl]. rewrite (rev_app_distr (h' ++ [top]) [c]). reflexivity.
Qed.

(** After an image is opened and up to ten edits are made one after the
    other, as many undos lead back to the opened image: the undo stack is
    empty again and the redo stack holds the results of the edits, the
    last one at the bottom. *)
Theorem undo_all_edits (self : t) (img0 : Image) (results : list Image) :
  (List.length results <= 10)%nat ->
  let edited := edits results (open_image self img0) in
  let self' := Nat.iter (List.length results) undo edited in
  current_image edited = Some (last results img0)
  /\ current_image self' = Some img0
  /\ history self' = []
  /\ redo_history self' = rev results.
Proof.
  intros Hn edited self'.
  assert (Ho : current_image (open_image self img0) = Some img0
               /\ history (open_image self img0) = []
               /\ redo_history (open_image self img0) = []).
  { unfold open_image.
    match goal with
    | |- context [update_preview ?A] =>
        destruct (update_preview_images A) as (E1 & E2 & E3 & _)
    end.
    rewrite E1, E2, E3. repeat split. }
  destruct Ho as (O1 & O2 & O3).
  destruct (edits_current results _ img0 O1) as (C1 & C2).
  fold edited in C1, C2. split; [exact C1|].
  assert (Hh : history edited = removelast (img0 :: results)).
  { subst edited.
    rewrite (edits_history results (open_image self img0) img0 [] O1).
    - cbn [app]. unfold last_n.
      replace (List.length (removelast (img0 :: results)) - 10)%nat with 0%nat;
        [reflexivity|].
      assert (List.length (removelast (img0 :: results))
              = List.length results).
      { clear. revert img0. induction results as [|r rest IH]; intros img0.
        - reflexivity.
        - change (removelast (img0 :: r :: rest))
            with (img0 :: removelast (r :: rest)).
          cbn [List.length]. rewrite IH. reflexivity. }
      lia.
    - rewrite O2. reflexivity. }
  assert (Hlen : List.length (removelast (img0 :: results))
                 = List.length results).
  { clear. revert img0. induction results as [|r rest IH]; intros img0.
    - reflexivity.
    - change (removelast (img0 :: r :: rest))
        with (img0 :: removelast (r :: rest)).
      cbn [List.length]. rewrite IH. reflexivity. }
  assert (Hred : redo_history edited = []).
  { rewrite C2. destruct results; [exact O3 | reflexivity]. }
  destruct (undos_walk_back (removelast (img0 :: results)) edited
              (last results img0) C1 Hh) as (W1 & W2 & W3).
  { rewrite Hred, Hlen. simpl. lia. }
  cbv zeta in W1, W2, W3. rewrite Hlen in W1, W2, W3. fold self' in W1, W2, W3.
  assert (Hfull : removelast (img0 :: results) ++ [last results img0]
                  = img0 :: results).
  { rewrite <- (last_cons _ results img0 img0).
    symmetry. apply app_removelast_last. discriminate. }
  split; [|split; [exact W2|]].
  - rewrite W1. destruct results; reflexivity.
  - rewrite W3, Hred, Hfull. reflexivity.
Qed.

Lemma undo_all_edits_witness :
  current_image
    (Nat.iter 2 undo (edits [img_400x300; img_800x600]
                        (open_image (init 800 600) img_800x600)))
  = Some img_800x600.
Proof.
  destruct (undo_all_edits (init 800 600) img_800x600
              [img_400x300; img_800x600]) as (_ & H & _).
  - simpl. lia.
  - exact H.
Defined.

End UndoAllFacts.
